(** * change-propagation: rule compiler, rule dispatch and Kafka factory

    A shallow embedding of [rule.js] (the match compiler, the retry-condition
    compiler and the [Rule] class), of [kafka_factory.js] (the
    [GuaranteedProducer] and the [KafkaFactory] with its settings and
    getters) and of [sys/purge.js] (the purge service), with the properties
    the specification states about them and further properties of the code.

    JavaScript data is embedded as the inductive [value]; functions that can
    throw return an [outcome]; objects that the code mutates (the pending map
    of the producer, the binder object filled in by the match compiler) are
    threaded explicitly. *)

From Stdlib Require Import ZArith String Ascii List Bool Lia.
From Stdlib Require Import DecimalString DecimalZ DecimalPos DecimalN.
From stdpp Require Import base option list strings gmap.
Import ListNotations.

Set Warnings "-register-all".

Local Open Scope string_scope.
Local Open Scope Z_scope.

(** ** JavaScript values, as far as configuration and events use them *)

Module JS.

(** JSON data plus [undefined].  An object is the list of its own enumerable
    properties in [Object.keys] order; keys are assumed distinct.  Numbers are
    the integers within the range JavaScript holds exactly (status codes,
    limits and delays are integers; [NaN] and fractions are left out). *)
Inductive value : Type :=
| VUndef
| VNull
| VBool (b : bool)
| VNum (n : Z)
| VStr (s : string)
| VArr (items : list value)
| VObj (fields : list (string * value)).

(** What a [throw] carries. [Thrown v] is a rejection or throw of a plain
    value, as in [reject(result)]. *)
Inductive error : Type :=
| TypeError (msg : string)
| SyntaxError
| Error (msg : string)
| Thrown (v : value).

(** Result of running a piece of code.  [Unmodelled] is not a JavaScript
    outcome: it marks generated program text that the embedding does not
    parse (an interpolated key or constant that would need escaping), so that
    no theorem speaks about such text. *)
Inductive outcome (A : Type) : Type :=
| Ok (a : A)
| Throw (e : error)
| Unmodelled.
Arguments Ok {A} a.
Arguments Throw {A} e.
Arguments Unmodelled {A}.

Definition bind {A B} (m : outcome A) (k : A -> outcome B) : outcome B :=
  match m with
  | Ok a => k a
  | Throw e => Throw e
  | Unmodelled => Unmodelled
  end.

Declare Scope js_scope.
Delimit Scope js_scope with js.
Notation "'let*' x := m 'in' k" := (bind m (fun x => k))
  (at level 10, x name, m at level 100, k at level 200) : js_scope.
Notation "'let*' ' p := m 'in' k" := (bind m (fun x => match x with p => k end))
  (at level 10, p pattern, m at level 100, k at level 200) : js_scope.

(** ToBoolean *)
Definition truthy (v : value) : bool :=
  match v with
  | VUndef | VNull => false
  | VBool b => b
  | VNum n => negb (n =? 0)
  | VStr s => negb (String.eqb s "")
  | VArr _ | VObj _ => true
  end.

(** [a || b] *)
Definition js_or (a b : value) : value := if truthy a then a else b.

(** Decimal text of an integer, as [Number.prototype.toString] prints a safe
    integer.  (From [1e21] on it prints an exponent; such numbers are
    outside the model.) *)
Definition string_of_Z (n : Z) : string := NilZero.string_of_int (Z.to_int n).

Fixpoint join (sep : string) (l : list string) : string :=
  match l with
  | [] => ""
  | [x] => x
  | x :: rest => x +:+ sep +:+ join sep rest
  end.

(** ToString.  [Array.prototype.join] prints [null] and [undefined] elements
    as the empty string.  An object prints as [Object.prototype.toString]
    prints it: a property [toString] of its own is not consulted. *)
Fixpoint to_string (v : value) : string :=
  match v with
  | VUndef => "undefined"
  | VNull => "null"
  | VBool true => "true"
  | VBool false => "false"
  | VNum n => string_of_Z n
  | VStr s => s
  | VArr items =>
      join "," (map (fun x => match x with
                              | VUndef | VNull => ""
                              | _ => to_string x
                              end) items)
  | VObj _ => "[object Object]"
  end.

Fixpoint assoc {A} (k : string) (fs : list (string * A)) : option A :=
  match fs with
  | [] => None
  | (k', v) :: rest => if String.eqb k k' then Some v else assoc k rest
  end.

(** [o[k] = v] on an own-property list: overwrite in place or append. *)
Fixpoint assoc_set {A} (k : string) (v : A) (fs : list (string * A))
  : list (string * A) :=
  match fs with
  | [] => [(k, v)]
  | (k', v') :: rest =>
      if String.eqb k k' then (k, v) :: rest else (k', v') :: assoc_set k v rest
  end.

(** The array index a property key denotes, if it is a canonical one. *)
Definition index_of_key (k : string) : option nat :=
  match NilEmpty.uint_of_string k with
  | Some d =>
      let n := N.of_uint d in
      if String.eqb (NilZero.string_of_uint (N.to_uint n)) k
      then Some (N.to_nat n) else None
  | None => None
  end.

Definition string_chars (s : string) : list value :=
  map (fun c => VStr (String c EmptyString)) (list_ascii_of_string s).

Definition indexed (items : list value) (k : string) : value :=
  if String.eqb k "length" then VNum (Z.of_nat (length items))
  else match index_of_key k with
       | Some i => nth i items VUndef
       | None => VUndef
       end.

(** [v[k]]: reading a property of [undefined] or [null] throws; everything
    else answers with the own property or [undefined].  Inherited members
    ([constructor], [toString], ...) are not data and are outside the model. *)
Definition get_prop (v : value) (k : string) : outcome value :=
  match v with
  | VUndef => Throw (TypeError ("Cannot read property '" +:+ k +:+ "' of undefined"))
  | VNull => Throw (TypeError ("Cannot read property '" +:+ k +:+ "' of null"))
  | VBool _ | VNum _ => Ok VUndef
  | VStr s => Ok (indexed (string_chars s) k)
  | VArr items => Ok (indexed items k)
  | VObj fs => Ok (default VUndef (assoc k fs))
  end.

(** Own property of an object known to be one. *)
Definition field (fs : list (string * value)) (k : string) : value :=
  default VUndef (assoc k fs).

End JS.
Import JS.
Local Open Scope js_scope.

(** ** kafka_factory.js *)

Module KafkaFactory.

(** The factory keeps the configuration object it was built from. *)
Record t : Type := { _kafkaConf : list (string * value) }.

Definition new (kafkaConf : list (string * value)) : outcome t :=
  if negb (truthy (field kafkaConf "metadata_broker_list"))
  then Throw (Error "metadata_broker_list property is required for the kafka config")
  else Ok {| _kafkaConf := kafkaConf |}.

Definition consumeDC (this : t) : value :=
  js_or (field (_kafkaConf this) "dc_name")
        (js_or (field (_kafkaConf this) "consume_dc") (VStr "datacenter1")).

Definition produceDC (this : t) : value :=
  js_or (field (_kafkaConf this) "dc_name")
        (js_or (field (_kafkaConf this) "produce_dc") (VStr "datacenter1")).

(** The order of fallbacks as the claim words it: the specific name first. *)
Definition claimed_dc (specific : string) (conf : list (string * value)) : value :=
  if truthy (field conf specific) then field conf specific
  else if truthy (field conf "dc_name") then field conf "dc_name"
  else VStr "datacenter1".

(** The order of fallbacks the getters implement: [dc_name] first. *)
Definition shared_first_dc (specific : string) (conf : list (string * value)) : value :=
  if truthy (field conf "dc_name") then field conf "dc_name"
  else if truthy (field conf specific) then field conf specific
  else VStr "datacenter1".

End KafkaFactory.

Module GuaranteedProducer.

(** A promise created by [produce] is named by a number; its [resolve] and
    [reject] functions are the two ways to settle it. *)
Inductive settlement : Type :=
| Pending
| Resolved (report : value)
| Rejected (reason : error).

(** What a callback handed to [process.nextTick] does when it runs. *)
Inductive action : Type :=
| DeletePending (reportKey : string)
| Reject (promise : nat) (reason : error).

(** The producer object together with the parts of its environment that
    [produce] touches: [_pending] maps a report key to the promise whose
    [resolve] is stored there, [ticks] is the queue of [process.nextTick]
    callbacks, [sent] records the calls handed to [super.produce], [logged]
    the delivery reports logged as unknown. *)
Record t : Type := {
  _pending : gmap string nat;
  promises : gmap nat settlement;
  ticks : list (list action);
  sent : list (value * value * value * value);
  logged : list value
}.

Definition new : t :=
  {| _pending := ∅; promises := ∅; ticks := []; sent := []; logged := [] |}.

(** A promise settles once; later calls of [resolve] or [reject] are ignored. *)
Definition settle (p : nat) (s : settlement) (this : t) : t :=
  match promises this !! p with
  | Some Pending =>
      {| _pending := _pending this; promises := <[p := s]> (promises this);
         ticks := ticks this; sent := sent this; logged := logged this |}
  | _ => this
  end.

Definition nextTick (callback : list action) (this : t) : t :=
  {| _pending := _pending this; promises := promises this;
     ticks := ticks this ++ [callback]; sent := sent this; logged := logged this |}.

Definition set_pending (m : gmap string nat) (this : t) : t :=
  {| _pending := m; promises := promises this;
     ticks := ticks this; sent := sent this; logged := logged this |}.

Definition fresh_promise (this : t) : nat := fresh (dom (promises this)).

(** [new P((resolve, reject) => ...)]: a promise that is not settled yet. *)
Definition open_promise (p : nat) (this : t) : t :=
  {| _pending := _pending this; promises := <[p := Pending]> (promises this);
     ticks := ticks this; sent := sent this; logged := logged this |}.

Definition record_sent (call : value * value * value * value) (this : t) : t :=
  {| _pending := _pending this; promises := promises this;
     ticks := ticks this; sent := sent this ++ [call]; logged := logged this |}.

(** [`${topic}:${key}`] *)
Definition reportKey_of (topic key : value) : string :=
  to_string topic +:+ ":" +:+ to_string key.

(** [produce(topic, partition, message, key)].  [super_produce] is the
    underlying producer's [produce]: it returns a value ([inl]) or throws
    ([inr]).  The executor of the returned promise runs inside the call;
    every rejection is deferred with [process.nextTick].  The result is the
    producer after the call and the promise returned. *)
Definition produce (super_produce : value -> value -> value -> value -> value + error)
    (topic partition message key : value) (this : t) : t * nat :=
  let p := fresh_promise this in
  let this := open_promise p this in
  if negb (truthy key) then
    (nextTick [Reject p (Error "Key is required for guaranteed delivery")] this, p)
  else
    let reportKey := reportKey_of topic key in
    match _pending this !! reportKey with
    | Some _ =>
        (nextTick [Reject p (Error ("Duplicate key: " +:+ reportKey))] this, p)
    | None =>
        let this := set_pending (<[reportKey := p]> (_pending this)) this in
        let this := record_sent (topic, partition, message, key) this in
        match super_produce topic partition message key with
        | inl (VBool true) => (this, p)
        | inl result =>
            (nextTick [DeletePending reportKey; Reject p (Thrown result)] this, p)
        | inr e => (nextTick [DeletePending reportKey; Reject p e] this, p)
        end
    end.

Definition run_action (a : action) (this : t) : t :=
  match a with
  | DeletePending k => set_pending (delete k (_pending this)) this
  | Reject p reason => settle p (Rejected reason) this
  end.

Definition run_callback (callback : list action) (this : t) : t :=
  fold_left (fun st a => run_action a st) callback this.

(** The handler of ['delivery-report']. *)
Definition on_delivery_report (report : value) (this : t) : outcome t :=
  let* topic := get_prop report "topic" in
  let* key := get_prop report "key" in
  let reportKey := reportKey_of topic key in
  match _pending this !! reportKey with
  | None =>
      Ok {| _pending := _pending this; promises := promises this;
            ticks := ticks this; sent := sent this;
            logged := logged this ++ [report] |}
  | Some p =>
      Ok (settle p (Resolved report) (set_pending (delete reportKey (_pending this)) this))
  end.

End GuaranteedProducer.

(** ** rule.js: the retry-condition compiler *)

Module RetryCondition.

Definition is_digit (c : ascii) : bool :=
  let n := N_of_ascii c in ((48 <=? n) && (n <=? 57))%N.

Definition is_digit_or_x (c : ascii) : bool :=
  is_digit c || Ascii.eqb c "x".

(** [/^[...]+$/.test(s)] for a character class given as a predicate. *)
Definition all_chars (p : ascii -> bool) (s : string) : bool :=
  match list_ascii_of_string s with
  | [] => false
  | cs => forallb p cs
  end.

Definition digit_value (c : ascii) : Z := Z.of_N (N_of_ascii c) - 48.

Definition radix_value (radix : Z) (s : string) : Z :=
  fold_left (fun acc c => acc * radix + digit_value c) (list_ascii_of_string s) 0.

Definition is_octal_digit (c : ascii) : bool :=
  let n := N_of_ascii c in ((48 <=? n) && (n <=? 55))%N.

(** The number a run of digits denotes as a numeric literal in the body of
    [new Function], which is sloppy-mode code: a literal with a leading zero
    and only octal digits is read in base eight. *)
Definition numeric_literal (digits : string) : Z :=
  match digits with
  | String "0" (String _ _ as rest) =>
      if forallb is_octal_digit (list_ascii_of_string rest)
      then radix_value 8 digits else radix_value 10 digits
  | _ => radix_value 10 digits
  end.

(** [opt.replace(/x/g, "\\d")]: every [x] becomes the two characters [\d]. *)
Fixpoint replace_x (opt : string) : string :=
  match opt with
  | EmptyString => EmptyString
  | String c rest =>
      if Ascii.eqb c "x" then String "\" (String "d" (replace_x rest))
      else String c (replace_x rest)
  end.

(** The regular expressions this compiler writes are a start anchor, a run
    of digits and [\d] classes, and an end anchor. *)
Inductive rx_item : Type :=
| RChar (c : ascii)
| RDigitClass.

Fixpoint rx_items (source : string) : list rx_item :=
  match source with
  | EmptyString => []
  | String "\" (String "d" rest) => RDigitClass :: rx_items rest
  | String c rest => RChar c :: rx_items rest
  end.

Fixpoint rx_match (items : list rx_item) (subject : list ascii) : bool :=
  match items, subject with
  | [], [] => true
  | RChar c :: items', d :: subject' => Ascii.eqb c d && rx_match items' subject'
  | RDigitClass :: items', d :: subject' => is_digit d && rx_match items' subject'
  | _, _ => false
  end.

(** [/^body$/.test(subject)] for such a body. *)
Definition anchored_test (body subject : string) : bool :=
  rx_match (rx_items body) (list_ascii_of_string subject).

(** One generated comparison. *)
Inductive atom : Type :=
| StatusIs (n : Z)                          (* (res["status"] === n) *)
| StatusLike (body : string)                (* /^body$/.test(res["status"]) *)
| FieldIs (name : string) (text : string).
    (* (stringify(res["name"]) === '...'), [text] being the string that the
       literal between the single quotes denotes *)

(** One element of [condition]: a single comparison, or the parenthesised
    [||] of the comparisons of an array. *)
Inductive clause : Type :=
| Single (a : atom)
| AnyOf (alternatives : list atom).

(** Text that a string literal in the given quotes denotes as it is: it
    has no such quote, no backslash and no line end. *)
Definition quotable (quote : ascii) (s : string) : bool :=
  forallb (fun c => negb (Ascii.eqb c quote || Ascii.eqb c "\"
                          || Ascii.eqb c "010" || Ascii.eqb c "013"))
          (list_ascii_of_string s).

(** The character that a backslash and [c] denote in a string literal, for
    the escapes of one character that JSON text has, the apostrophe and the
    slash.  Escapes of digits, [\x], [\u] and line continuations are left
    out. *)
Definition escaped (c : ascii) : option ascii :=
  if Ascii.eqb c "b" then Some "008"%char
  else if Ascii.eqb c "t" then Some "009"%char
  else if Ascii.eqb c "n" then Some "010"%char
  else if Ascii.eqb c "v" then Some "011"%char
  else if Ascii.eqb c "f" then Some "012"%char
  else if Ascii.eqb c "r" then Some "013"%char
  else if Ascii.eqb c "'" || Ascii.eqb c "034" || Ascii.eqb c "\" || Ascii.eqb c "/"
       then Some c
  else None.

(** The string that the literal ['body'] denotes, where [body] is pasted
    between the quotes as it is: a backslash and the character after it
    make one character.  [None] where an apostrophe of the body ends the
    literal early, where a line end breaks it, or at an escape left out
    above. *)
Fixpoint single_quoted (body : list ascii) : option (list ascii) :=
  match body with
  | [] => Some []
  | c :: rest =>
      if Ascii.eqb c "\" then
        match rest with
        | d :: rest' =>
            match escaped d, single_quoted rest' with
            | Some e, Some read => Some (e :: read)
            | _, _ => None
            end
        | [] => None
        end
      else if Ascii.eqb c "'" || Ascii.eqb c "010" || Ascii.eqb c "013" then None
      else
        match single_quoted rest with
        | Some read => Some (c :: read)
        | None => None
        end
  end.

(** [option.toString()] *)
Definition toString (option : value) : outcome string :=
  match option with
  | VUndef => Throw (TypeError "Cannot read property 'toString' of undefined")
  | VNull => Throw (TypeError "Cannot read property 'toString' of null")
  | v => Ok (to_string v)
  end.

Fixpoint map_outcome {A B} (f : A -> outcome B) (l : list A) : outcome (list B) :=
  match l with
  | [] => Ok []
  | x :: rest =>
      let* y := f x in
      let* ys := map_outcome f rest in
      Ok (y :: ys)
  end.

(** [Object.keys(o)] paired with [o[key]], for a value that is not
    [undefined] or [null]. *)
Definition entries (o : value) : list (string * value) :=
  match o with
  | VObj fs => fs
  | VArr items =>
      imap (fun i x => (NilZero.string_of_uint (Nat.to_uint i), x)) items
  | VStr s =>
      imap (fun i x => (NilZero.string_of_uint (Nat.to_uint i), x)) (string_chars s)
  | _ => []
  end.

Section Compiler.

(** [json-stable-stringify]; [None] is its [undefined] answer. *)
Variable stringify : value -> option string.

Definition createCondition (retryCond : string) (option : value) : outcome atom :=
  if String.eqb retryCond "status" then
    let* opt := toString option in
    if all_chars is_digit opt then Ok (StatusIs (numeric_literal opt))
    else if all_chars is_digit_or_x opt then Ok (StatusLike (replace_x opt))
    else Throw (Error ("Invalid retry_on condition " +:+ opt))
  else
    let text := default "undefined" (stringify option) in
    if quotable "034" retryCond then
      match single_quoted (list_ascii_of_string text) with
      | Some read => Ok (FieldIs retryCond (string_of_list_ascii read))
      | None => Unmodelled
      end
    else Unmodelled.

Definition compile_clause (entry : string * value) : outcome clause :=
  let '(catchCond, v) := entry in
  match v with
  | VArr options =>
      let* orCondition := map_outcome (createCondition catchCond) options in
      Ok (AnyOf orCondition)
  | _ =>
      let* c := createCondition catchCond v in
      Ok (Single c)
  end.

Definition parses (c : clause) : bool :=
  match c with
  | Single _ => true
  | AnyOf [] => false
  | AnyOf _ => true
  end.

(** [_compileErrorCheckCondition]: the clauses are joined with [&&] inside
    [return (...)]; [new Function] rejects the text when nothing stands
    between a pair of parentheses. *)
Definition _compileErrorCheckCondition (retryDefinition : value)
  : outcome (list clause) :=
  let* condition := map_outcome compile_clause (entries retryDefinition) in
  match condition with
  | [] => Throw SyntaxError
  | _ => if forallb parses condition then Ok condition else Throw SyntaxError
  end.

(** Running the generated function on [res]. *)
Definition run_atom (a : atom) (res : value) : outcome bool :=
  match a with
  | StatusIs n =>
      let* status := get_prop res "status" in
      Ok (match status with VNum m => m =? n | _ => false end)
  | StatusLike body =>
      let* status := get_prop res "status" in
      Ok (anchored_test body (to_string status))
  | FieldIs name text =>
      let* v := get_prop res name in
      Ok (match stringify v with
          | Some s => String.eqb s text
          | None => false
          end)
  end.

Fixpoint run_or (alternatives : list atom) (res : value) : outcome bool :=
  match alternatives with
  | [] => Ok false
  | [a] => run_atom a res
  | a :: rest =>
      let* b := run_atom a res in
      if b then Ok true else run_or rest res
  end.

Definition run_clause (c : clause) (res : value) : outcome bool :=
  match c with
  | Single a => run_atom a res
  | AnyOf alternatives => run_or alternatives res
  end.

Fixpoint run (condition : list clause) (res : value) : outcome bool :=
  match condition with
  | [] => Ok true
  | [c] => run_clause c res
  | c :: rest =>
      let* b := run_clause c res in
      if b then run rest res else Ok false
  end.

(** The reading of a stanza in the specification's words: every field must
    hold, and a field with an array holds when one of its options does. *)
Definition option_holds (name : string) (option : value)
    (res : list (string * value)) : bool :=
  if String.eqb name "status" then
    let opt := to_string option in
    if all_chars is_digit opt
    then match field res "status" with
         | VNum m => m =? numeric_literal opt
         | _ => false
         end
    else anchored_test (replace_x opt) (to_string (field res "status"))
  else
    match stringify (field res name) with
    | Some s => String.eqb s (default "undefined" (stringify option))
    | None => false
    end.

Definition field_holds (res : list (string * value)) (entry : string * value) : bool :=
  match entry.2 with
  | VArr options => existsb (fun o => option_holds entry.1 o res) options
  | v => option_holds entry.1 v res
  end.

Definition stanza_holds (stanza : value) (res : list (string * value)) : bool :=
  forallb (field_holds res) (entries stanza).

End Compiler.

(** The wildcard reading of a status pattern: same length, an [x] stands
    for any one digit, every other character for itself. *)
Fixpoint wildcard_match (pattern subject : list ascii) : bool :=
  match pattern, subject with
  | [], [] => true
  | p :: pattern', c :: subject' =>
      (if Ascii.eqb p "x" then is_digit c else Ascii.eqb p c)
      && wildcard_match pattern' subject'
  | _, _ => false
  end.

End RetryCondition.

(** ** rule.js: the match compiler *)

Module Matcher.

Import RetryCondition.

(** *** Regular-expression strings *)

Definition in_range (lo hi : N) (c : ascii) : bool :=
  let n := N_of_ascii c in ((lo <=? n) && (n <=? hi))%N.

(** [\w] *)
Definition is_word_char (c : ascii) : bool :=
  in_range 97 122 c || in_range 65 90 c || in_range 48 57 c || Ascii.eqb c "_".

Definition is_flag (c : ascii) : bool :=
  Ascii.eqb c "g" || Ascii.eqb c "i" || Ascii.eqb c "m"
  || Ascii.eqb c "u" || Ascii.eqb c "y".

Definition is_line_end (c : ascii) : bool :=
  Ascii.eqb c "010" || Ascii.eqb c "013".

(** The characters before the last ["/"], and the characters after it. *)
Fixpoint after_last_slash (s : list ascii) : option (list ascii * list ascii) :=
  match s with
  | [] => None
  | c :: rest =>
      match after_last_slash rest with
      | Some (before, flags) => Some (c :: before, flags)
      | None => if Ascii.eqb c "/" then Some ([], rest) else None
      end
  end.

(** [/^\/.+\/[gimuy]{0,5}$/.test(obj)]: a slash, at least one character
    that is not a line end, a slash, at most five flag letters. *)
Definition is_regex_string (obj : string) : bool :=
  match after_last_slash (list_ascii_of_string obj) with
  | Some ("/"%char :: ((_ :: _) as body), flags) =>
      forallb (fun c => negb (is_line_end c)) body
      && forallb is_flag flags && (length flags <=? 5)%nat
  | _ => false
  end.

Fixpoint take_word (s : list ascii) : list ascii * list ascii :=
  match s with
  | c :: rest =>
      if is_word_char c
      then let (w, after) := take_word rest in (c :: w, after)
      else ([], s)
  | [] => ([], [])
  end.

(** A match of [/\(\?<(\w+)>/] at the head of [s]: the captured name and the
    number of characters the whole marker takes. *)
Definition named_marker (s : list ascii) : option (string * nat) :=
  match s with
  | c1 :: c2 :: c3 :: rest =>
      if Ascii.eqb c1 "(" && Ascii.eqb c2 "?" && Ascii.eqb c3 "<" then
        match take_word rest with
        | ((_ :: _) as w, d :: _) =>
            if Ascii.eqb d ">"
            then Some (string_of_list_ascii w, (length w + 4)%nat)
            else None
        | _ => None
        end
      else None
  | _ => None
  end.

(** [obj.replace(/\(\?<(\w+)>/g, (_, name) => { captureNames.push(name);
    return '('; })] together with the names pushed.  [skip] counts the
    characters of a marker that remain to be passed over. *)
Fixpoint replace_markers (skip : nat) (s : list ascii)
  : list string * list ascii :=
  match s with
  | [] => ([], [])
  | c :: rest =>
      match skip with
      | S k => replace_markers k rest
      | O =>
          match named_marker s with
          | Some (name, len) =>
              let (names, out) := replace_markers (len - 1) rest in
              (name :: names, "("%char :: out)
          | None =>
              let (names, out) := replace_markers 0 rest in
              (names, c :: out)
          end
      end
  end.

(** Whether the parenthesis before [rest] opens a group that captures:
    [(?:], [(?=], [(?!], [(?<=] and [(?<!] do not, [(?<name>] does. *)
Definition opens_capture (rest : list ascii) : bool :=
  match rest with
  | c1 :: after =>
      if Ascii.eqb c1 "?" then
        match after with
        | c2 :: d :: _ =>
            Ascii.eqb c2 "<" && negb (Ascii.eqb d "=" || Ascii.eqb d "!")
        | _ => false
        end
      else true
  | [] => true
  end.

(** The number of capture groups of a pattern, as [new RegExp(pattern)]
    counts them, or [None] where it throws because brackets do not balance.
    A backslash escapes the next character; inside a character class a
    parenthesis is a plain character. *)
Fixpoint pattern_groups (in_class : bool) (depth : nat) (s : list ascii)
  : option nat :=
  match s with
  | [] => if in_class then None else match depth with O => Some O | S _ => None end
  | c :: rest =>
      if Ascii.eqb c "\" then
        match rest with
        | [] => None
        | _ :: rest' => pattern_groups in_class depth rest'
        end
      else if in_class then
        pattern_groups (negb (Ascii.eqb c "]")) depth rest
      else if Ascii.eqb c "[" then pattern_groups true depth rest
      else if Ascii.eqb c ")" then
        match depth with
        | O => None
        | S d => pattern_groups false d rest
        end
      else if Ascii.eqb c "(" then
        match pattern_groups false (S depth) rest with
        | Some n => Some (if opens_capture rest then S n else n)
        | None => None
        end
      else pattern_groups false depth rest
  end.

(** [(new RegExp(normalRegex.toString() + '|')).exec('').length - 1] *)
Definition numGroups_of (normalRegex : list ascii) : option nat :=
  pattern_groups false 0 (normalRegex ++ ["|"%char]).

(** Whether the text is one regular-expression literal when it is pasted
    into code: no slash ends the body early. *)
Fixpoint body_closed (in_class : bool) (body : list ascii) : bool :=
  match body with
  | [] => true
  | c :: rest =>
      if Ascii.eqb c "\" then
        match rest with
        | [] => false
        | _ :: rest' => body_closed in_class rest'
        end
      else if in_class then body_closed (negb (Ascii.eqb c "]")) rest
      else if Ascii.eqb c "[" then body_closed true rest
      else negb (Ascii.eqb c "/") && body_closed false rest
  end.

Definition literal_closed (normalRegex : list ascii) : bool :=
  match after_last_slash normalRegex with
  | Some (c :: body, _) => Ascii.eqb c "/" && body_closed false body
  | _ => false
  end.

Fixpoint distinct (l : list ascii) : bool :=
  match l with
  | [] => true
  | c :: rest => negb (existsb (Ascii.eqb c) rest) && distinct rest
  end.

(** A flag written twice is an early error of the literal. *)
Definition flags_distinct (normalRegex : list ascii) : bool :=
  match after_last_slash normalRegex with
  | Some (_, flags) => distinct flags
  | None => true
  end.

(** The group that the parenthesis before [rest] opens in the string as it
    is written: none, an unnamed one, or a named one with its name. *)
Definition written_group (rest : list ascii) : option (option string) :=
  match rest with
  | c1 :: after =>
      if Ascii.eqb c1 "?" then
        match after with
        | c2 :: ((d :: _) as named) =>
            if Ascii.eqb c2 "<" && negb (Ascii.eqb d "=" || Ascii.eqb d "!")
            then Some (Some (string_of_list_ascii (take_word named).1))
            else None
        | _ => None
        end
      else Some None
  | [] => Some None
  end.

(** The capture groups of a regular-expression string as it is written,
    named ones with their name: the reading of "named" and "unnamed" groups
    that the specification uses.  A parenthesis inside a character class or
    after a backslash opens no group. *)
Fixpoint written_groups (in_class : bool) (s : list ascii)
  : list (option string) :=
  match s with
  | [] => []
  | c :: rest =>
      if Ascii.eqb c "\" then
        match rest with
        | [] => []
        | _ :: rest' => written_groups in_class rest'
        end
      else if in_class then written_groups (negb (Ascii.eqb c "]")) rest
      else if Ascii.eqb c "[" then written_groups true rest
      else if Ascii.eqb c "(" then
        match written_group rest with
        | Some g => g :: written_groups false rest
        | None => written_groups false rest
        end
      else written_groups false rest
  end.

Definition is_named (g : option string) : bool :=
  match g with Some _ => true | None => false end.

Definition mixes_named_and_unnamed (obj : string) : bool :=
  let groups := written_groups false (list_ascii_of_string obj) in
  existsb is_named groups && existsb (fun g => negb (is_named g)) groups.

(** A regular-expression string is tidy when each of its [(?<name>] markers
    opens a group: no marker stands in a character class or behind a
    backslash, a marker is not followed by [?], and a parenthesis followed
    by [?<] is a marker or opens a lookbehind. *)
Fixpoint tidy (in_class : bool) (s : list ascii) : bool :=
  match s with
  | [] => true
  | c :: rest =>
      if Ascii.eqb c "\" then
        match rest with
        | [] => true
        | _ :: rest' =>
            match named_marker rest with
            | Some _ => false
            | None => tidy in_class rest'
            end
        end
      else if in_class then
        match named_marker s with
        | Some _ => false
        | None => tidy (negb (Ascii.eqb c "]")) rest
        end
      else if Ascii.eqb c "[" then tidy true rest
      else if Ascii.eqb c "(" then
        match named_marker s with
        | Some (_, len) =>
            match skipn (len - 1) rest with
            | d :: _ => negb (Ascii.eqb d "?")
            | [] => true
            end && tidy false rest
        | None =>
            match written_group rest with
            | Some (Some _) => false
            | _ => tidy false rest
            end
        end
      else tidy false rest
  end.

(** *** Generated code *)

Inductive constant : Type :=
| CUndefined
| CBool (b : bool)
| CNum (n : Z)
| CStr (s : string).

(** The expressions the compiler writes.  Program text is embedded as the
    syntax tree it denotes. *)
Inductive expr : Type :=
| Var (x : string)                                  (* message, item *)
| Get (e : expr) (key : string)                     (* e['key'] *)
| Const (c : constant)
| Eq (e : expr) (c : constant)                      (* e === c *)
| And (a b : expr)                                  (* a && b *)
| IsArray (e : expr)                                (* Array.isArray(e) *)
| Find (e : expr) (body : expr)                     (* e.find((item) => body) *)
| Test (regex : string) (e : expr)                  (* regex.test(e) *)
| Exec (regex : string) (e : expr)                  (* regex.exec(e) *)
| Captures (regex : string) (names : list string) (e : expr)
    (* (() => { const execRes = regex.exec(e); const res = {};
                res['n1'] = execRes[1]; ...; return res; })() *)
| Object (fields : list (string * expr)).           (* {k1: e1, ...} *)

(** A piece of program text: nothing at all, an expression, or text that
    [new Function] refuses. *)
Inductive text : Type :=
| Empty
| Code (e : expr)
| Malformed.

Definition is_code (t : text) : bool :=
  match t with Code _ => true | _ => false end.

Definition and_all (first : expr) (others : list text) : expr :=
  fold_left (fun acc t => match t with Code e => And acc e | _ => acc end)
            others first.

(** [parts.join(' && ')] *)
Definition join_and (parts : list text) : text :=
  match parts with
  | [] => Empty
  | [t] => t
  | Code e :: others =>
      if forallb is_code others then Code (and_all e others) else Malformed
  | _ => Malformed
  end.

(** What the compiler stores in the [result] object: generated text, a
    value of the match tree as it is, or a nested object. *)
Inductive binding : Type :=
| BExpr (e : expr)
| BRaw (v : value)
| BObj (fields : list (string * binding)).

(** The fourth argument of [_compileMatch]: absent, a key, or an array
    index. *)
Inductive field_name : Type :=
| NoField
| Key (k : string)
| Index (i : nat).

(** [fieldName ? ... : ...] *)
Definition given (fieldName : field_name) : bool :=
  match fieldName with
  | NoField => false
  | Key k => negb (String.eqb k "")
  | Index i => negb (Nat.eqb i 0)
  end.

(** The property key [result[fieldName]] addresses. *)
Definition property_key (fieldName : field_name) : string :=
  match fieldName with
  | NoField => "undefined"
  | Key k => k
  | Index i => NilZero.string_of_uint (Nat.to_uint i)
  end.

Definition store (fieldName : field_name) (b : binding)
    (result : list (string * binding)) : list (string * binding) :=
  assoc_set (property_key fieldName) b result.

Definition mixing_message (obj : string) : string :=
  "Invalid match regex. Mixing named and unnamed capture groups are not supported. Regex: "
  +:+ obj.

Definition _compileNamedRegex (obj : string) (result : list (string * binding))
    (name : expr) (fieldName : field_name)
  : outcome (text * list (string * binding)) :=
  let (captureNames, normal) := replace_markers 0 (list_ascii_of_string obj) in
  let normalRegex := string_of_list_ascii normal in
  match numGroups_of normal with
  | None => Throw SyntaxError
  | Some numGroups =>
      if negb (Nat.eqb (length captureNames) 0)
         && negb (Nat.eqb (length captureNames) numGroups)
      then Throw (Error (mixing_message obj))
      else if negb (literal_closed normal) then Unmodelled
      else
        let code :=
          match captureNames with
          | [] => Exec normalRegex name
          | _ => Captures normalRegex captureNames name
          end in
        Ok (if flags_distinct normal then Code (Test normalRegex name) else Malformed,
            store fieldName (BExpr code) result)
  end.

(** [`${name}.find((item) => ${check})`] for each item, joined, after
    [Array.isArray(name)]. *)
Definition array_text (name : expr) (checks : list text) : text :=
  match checks with
  | [] => Code (IsArray name)
  | _ =>
      if forallb is_code checks
      then Code (and_all (IsArray name)
                   (map (fun t => match t with
                                  | Code body => Code (Find name body)
                                  | _ => t
                                  end) checks))
      else Malformed
  end.

Section Loops.

(** The two loops of the compiler, over the compiler itself. *)
Variable compile : value -> list (string * binding) -> expr -> field_name
                   -> outcome (text * list (string * binding)).

(** [obj.map((item, index) => ... _compileMatch(item, {}, 'item', index) ...)] *)
Fixpoint compile_items (items : list value) (index : nat) : outcome (list text) :=
  match items with
  | [] => Ok []
  | item :: rest =>
      let* r := compile item [] (Var "item") (Index index) in
      let* rs := compile_items rest (S index) in
      Ok (r.1 :: rs)
  end.

(** [Object.keys(obj).map((key) =>
       _compileMatch(obj[key], subObj, `${name}['${key}']`, key))] *)
Fixpoint compile_fields (name : expr) (fs : list (string * value))
    (subObj : list (string * binding))
  : outcome (list text * list (string * binding)) :=
  match fs with
  | [] => Ok ([], subObj)
  | (key, v) :: rest =>
      if negb (quotable "'" key) then Unmodelled
      else
        let* r := compile v subObj (Get name key) (Key key) in
        let* rs := compile_fields name rest r.2 in
        Ok (r.1 :: rs.1, rs.2)
  end.

End Loops.

(** [_compileMatch], with [_compileArrayMatch] inlined at arrays.  The
    [result] object is passed in and handed back updated. *)
Fixpoint _compileMatch (obj : value) (result : list (string * binding))
    (name : expr) (fieldName : field_name) {struct obj}
  : outcome (text * list (string * binding)) :=
  match obj with
  | VUndef => Throw (TypeError "Cannot read property 'constructor' of undefined")
  | VNull => Throw (TypeError "Cannot read property 'constructor' of null")
  | VArr items =>
      let* checks := compile_items _compileMatch items 0%nat in
      Ok (array_text name checks, result)
  | VBool b =>
      Ok (Code (Eq name (CBool b)), store fieldName (BRaw obj) result)
  | VNum n =>
      Ok (Code (Eq name (CNum n)), store fieldName (BRaw obj) result)
  | VStr s =>
      if String.eqb s "undefined" then Ok (Code (Eq name CUndefined), result)
      else if negb (is_regex_string s) then
        if quotable "'" s
        then Ok (Code (Eq name (CStr s)), store fieldName (BExpr (Const (CStr s))) result)
        else Unmodelled
      else _compileNamedRegex s result name fieldName
  | VObj fs =>
      match assoc "constructor" fs with
      | Some _ =>
          (* [obj.constructor] is the own property, not [Object]: the object
             is compared as a scalar, and [`${name} === ${obj}`] is the text
             [name === [object Object]] *)
          Ok (Malformed, store fieldName (BRaw obj) result)
      | None =>
          let subObj := if given fieldName then [] else result in
          let* r := compile_fields _compileMatch name fs subObj in
          Ok (join_and r.1,
              if given fieldName then store fieldName (BObj r.2) result else r.2)
      end
  end.

Definition is_identifier (k : string) : bool :=
  match list_ascii_of_string k with
  | [] => false
  | c :: rest =>
      (in_range 97 122 c || in_range 65 90 c || Ascii.eqb c "_" || Ascii.eqb c "$")
      && forallb (fun c => is_word_char c || Ascii.eqb c "$") rest
  end.

Section ObjectCode.

Variable code_of : binding -> outcome expr.

(** [Object.keys(obj).map((key) => key + ': ' + _getMatchObjCode(obj[key]))]:
    keys are written without quotes, so only a key that is an identifier is
    read back as itself. *)
Fixpoint fields_code (fields : list (string * binding))
  : outcome (list (string * expr)) :=
  match fields with
  | [] => Ok []
  | (key, b) :: rest =>
      if negb (is_identifier key) then Unmodelled
      else
        let* e := code_of b in
        let* es := fields_code rest in
        Ok ((key, e) :: es)
  end.

End ObjectCode.

Fixpoint _getMatchObjCode (obj : binding) : outcome expr :=
  match obj with
  | BExpr e => Ok e
  | BRaw (VBool b) => Ok (Const (CBool b))
  | BRaw (VNum n) => Ok (Const (CNum n))
  | BRaw _ => Unmodelled
  | BObj fields =>
      let* fs := fields_code _getMatchObjCode fields in
      Ok (Object fs)
  end.

(** *** Running generated code *)

Definition constant_value (c : constant) : value :=
  match c with
  | CUndefined => VUndef
  | CBool b => VBool b
  | CNum n => VNum n
  | CStr s => VStr s
  end.

(** [v === c] for a primitive [c] *)
Definition strict_eq (v : value) (c : constant) : bool :=
  match v, c with
  | VUndef, CUndefined => true
  | VBool a, CBool b => Bool.eqb a b
  | VNum a, CNum b => a =? b
  | VStr a, CStr b => String.eqb a b
  | _, _ => false
  end.

Definition lookup_var (env : list (string * value)) (x : string) : outcome value :=
  match assoc x env with
  | Some v => Ok v
  | None => Throw (Error (x +:+ " is not defined"))
  end.

(** An element of the array [exec] answers with: the text a group matched,
    or [undefined] for a group that took no part. *)
Definition capture_value (c : option string) : value :=
  match c with
  | Some s => VStr s
  | None => VUndef
  end.

(** [res['name'] = execRes[index + 1]] for every capture name in turn *)
Definition captures_object (names : list string) (execRes : list (option string))
  : value :=
  VObj (fold_left
          (fun res entry =>
             assoc_set entry.2 (capture_value (nth (S entry.1) execRes None)) res)
          (imap (fun i n => (i, n)) names) []).

(** [items.find(callback)] *)
Fixpoint find_first (callback : value -> outcome value) (items : list value)
  : outcome value :=
  match items with
  | [] => Ok VUndef
  | item :: rest =>
      let* r := callback item in
      if truthy r then Ok item else find_first callback rest
  end.

(** The fields of an object literal, evaluated in order. *)
Fixpoint eval_fields (ev : expr -> outcome value) (fields : list (string * expr))
    (acc : list (string * value)) : outcome (list (string * value)) :=
  match fields with
  | [] => Ok acc
  | (key, e) :: rest =>
      let* v := ev e in eval_fields ev rest (assoc_set key v acc)
  end.

Section Run.

(** The regular-expression engine: [regex_exec literal subject] is what
    [literal.exec(subject)] answers, [None] for [null] and otherwise the
    whole match followed by the captures.  A literal is built afresh on
    every evaluation, so the answer depends on nothing else. *)
Variable regex_exec : string -> string -> option (list (option string)).

Fixpoint eval (env : list (string * value)) (e : expr) {struct e} : outcome value :=
  match e with
  | Var x => lookup_var env x
  | Get e key => let* v := eval env e in get_prop v key
  | Const c => Ok (constant_value c)
  | Eq e c => let* v := eval env e in Ok (VBool (strict_eq v c))
  | And a b => let* v := eval env a in if truthy v then eval env b else Ok v
  | IsArray e =>
      let* v := eval env e in
      Ok (VBool (match v with VArr _ => true | _ => false end))
  | Find e body =>
      let* v := eval env e in
      match v with
      | VArr items => find_first (fun item => eval (("item", item) :: env) body) items
      | VUndef | VNull => Throw (TypeError "Cannot read property 'find' of undefined")
      | _ => Throw (TypeError "find is not a function")
      end
  | Test regex e =>
      let* v := eval env e in
      Ok (VBool (match regex_exec regex (to_string v) with
                 | Some _ => true
                 | None => false
                 end))
  | Exec regex e =>
      let* v := eval env e in
      Ok (match regex_exec regex (to_string v) with
          | Some execRes => VArr (map capture_value execRes)
          | None => VNull
          end)
  | Captures regex names e =>
      let* v := eval env e in
      match regex_exec regex (to_string v) with
      | Some execRes => Ok (captures_object names execRes)
      | None =>
          match names with
          | [] => Ok (VObj [])
          | _ => Throw (TypeError "Cannot read property '1' of null")
          end
      end
  | Object fields =>
      let* fs := eval_fields (eval env) fields [] in
      Ok (VObj fs)
  end.

(** [new Function('message', 'return ' + text)] applied to [message] *)
Definition call (t : text) (message : value) : outcome value :=
  match t with
  | Empty => Ok VUndef
  | Code e => eval [("message", message)] e
  | Malformed => Throw SyntaxError
  end.

End Run.

(** The object [_processMatch] hands back: the text of [test] and of
    [expand]. *)
Record matcher : Type := { test : text; expand : expr }.

Definition _processMatch (match_ : value) : outcome (option matcher) :=
  if negb (truthy match_) then Ok None
  else
    let* r := _compileMatch match_ [] (Var "message") NoField in
    match r.1 with
    | Malformed => Throw (Error "Invalid match object given!")
    | t =>
        let* code := _getMatchObjCode (BObj r.2) in
        Ok (Some {| test := t; expand := code |})
    end.

(** A binding object is well formed when it is an object none of whose
    fields, at any depth, is [null]: [null] is what the binder of a regular
    expression leaves where the expression did not match. *)
Fixpoint well_formed (b : value) : bool :=
  match b with
  | VNull => false
  | VObj fs => forallb (fun kv => well_formed kv.2) fs
  | _ => true
  end.

Definition is_object (v : value) : bool :=
  match v with VObj _ => true | _ => false end.

End Matcher.

(** ** rule.js: the [Rule] class *)

Module Rule.

Import RetryCondition Matcher.

Definition DEFAULT_RETRY_DELAY : Z := 60000.
Definition DEFAULT_RETRY_FACTOR : Z := 6.
Definition DEFAULT_RETRY_LIMIT : Z := 2.

Definition default_retry_on : value := VObj [("status", VArr [VStr "50x"])].
Definition default_ignore : value := VObj [("status", VArr [VNum 412])].

(** A compiled predicate of an option: the generated function, or one of
    the constant functions [() => true] and [() => false]. *)
Inductive predicate : Type :=
| Always (b : bool)
| Compiled (t : text).

Record option_ : Type := {
  exec : option (list value);
  match_ : predicate;
  expand : option expr;
  match_not : predicate
}.

Record t : Type := {
  name : string;
  spec : list (string * value);
  topic : value;
  shouldRetry : list clause;
  shouldIgnoreError : list clause;
  _options : list option_;
  noop : bool
}.

Definition own_fields (v : value) : list (string * value) :=
  match v with
  | VObj fs => fs
  | _ => []
  end.

Definition quote_mark : string := String "034" EmptyString.
Definition line_feed : string := String "010" EmptyString.

Definition exec_message (name : string) (idx : nat) : string :=
  "In rule " +:+ name +:+ ", request number "
  +:+ NilZero.string_of_uint (Nat.to_uint idx) +:+ line_feed
  +:+ "                    must be an object and must have the "
  +:+ quote_mark +:+ "uri" +:+ quote_mark +:+ " property".

(** The body of the loop of [_processExec] for one request: the request as
    it is handed to [new Template]. *)
Definition prepare_request (name : string) (decode_results : value)
    (idx : nat) (req : value) : outcome value :=
  match req with
  | VUndef => Throw (TypeError "Cannot read property 'constructor' of undefined")
  | VNull => Throw (TypeError "Cannot read property 'constructor' of null")
  | VObj fs =>
      if bool_decide (assoc "constructor" fs <> None) || negb (truthy (field fs "uri"))
      then Throw (Error (exec_message name idx))
      else
        let fs := assoc_set "method" (js_or (field fs "method") (VStr "get")) fs in
        let fs := assoc_set "headers" (js_or (field fs "headers") (VObj [])) fs in
        let fs := assoc_set "followRedirect" (VBool false) fs in
        let fs := assoc_set "retries" (VNum 0) fs in
        let fs := if negb (truthy decode_results)
                  then assoc_set "encoding" VNull fs else fs in
        Ok (VObj fs)
  | _ => Throw (Error (exec_message name idx))
  end.

Fixpoint prepare_requests (name : string) (decode_results : value)
    (idx : nat) (exec : list value) : outcome (list value) :=
  match exec with
  | [] => Ok []
  | req :: rest =>
      let* template := prepare_request name decode_results idx req in
      let* templates := prepare_requests name decode_results (S idx) rest in
      Ok (template :: templates)
  end.

(** [_processExec]: [None] is the [undefined] it returns for a rule without
    [exec], in which case it also sets [this.noop]. *)
Definition _processExec (name : string) (decode_results : value) (exec : value)
  : outcome (option (list value)) :=
  if negb (truthy exec) then Ok None
  else
    let exec := match exec with VArr reqs => reqs | req => [req] end in
    let* templates := prepare_requests name decode_results 0 exec in
    Ok (Some templates).

Definition compile_option (name : string) (decode_results : value)
    (option : value) : outcome option_ :=
  let* m := get_prop option "match" in
  let* matcher := _processMatch m in
  let* e := get_prop option "exec" in
  let* templates := _processExec name decode_results e in
  let* mn := get_prop option "match_not" in
  let* not_matcher := _processMatch mn in
  Ok {| exec := templates;
        match_ := match matcher with
                  | Some m => Compiled (test m)
                  | None => Always true
                  end;
        expand := match matcher with
                  | Some m => Some (Matcher.expand m)
                  | None => None
                  end;
        match_not := match not_matcher with
                     | Some m => Compiled (test m)
                     | None => Always false
                     end |}.

Section Construct.

Variable stringify : value -> option string.

(** [new Rule(name, spec)] *)
Definition new (name : string) (spec : value) : outcome t :=
  let spec := own_fields (js_or spec (VObj [])) in
  let topic := field spec "topic" in
  if negb (truthy topic)
  then Throw (Error ("No topic specified for rule " +:+ name))
  else
    let spec := assoc_set "retry_on"
                  (js_or (field spec "retry_on") default_retry_on) spec in
    let spec := assoc_set "ignore"
                  (js_or (field spec "ignore") default_ignore) spec in
    let spec := assoc_set "retry_delay"
                  (js_or (field spec "retry_delay") (VNum DEFAULT_RETRY_DELAY)) spec in
    let spec := assoc_set "retry_limit"
                  (js_or (field spec "retry_limit") (VNum DEFAULT_RETRY_LIMIT)) spec in
    let spec := assoc_set "retry_factor"
                  (js_or (field spec "retry_factor") (VNum DEFAULT_RETRY_FACTOR)) spec in
    let* shouldRetry := _compileErrorCheckCondition stringify (field spec "retry_on") in
    let* shouldIgnoreError := _compileErrorCheckCondition stringify (field spec "ignore") in
    match js_or (field spec "cases") (VArr [VObj spec]) with
    | VArr cases =>
        let* options :=
          map_outcome (compile_option name (field spec "decode_results")) cases in
        Ok {| name := name; spec := spec; topic := topic;
              shouldRetry := shouldRetry; shouldIgnoreError := shouldIgnoreError;
              _options := options;
              noop := existsb (fun o => bool_decide (exec o = None)) options |}
    | _ => Throw (TypeError "(this.spec.cases || [this.spec]).map is not a function")
    end.

End Construct.

Section Dispatch.

Variable regex_exec : string -> string -> option (list (option string)).

Definition apply (p : predicate) (message : value) : outcome value :=
  match p with
  | Always b => Ok (VBool b)
  | Compiled t => call regex_exec t message
  end.

(** The callback of [findIndex]:
    [option.match(message) && !option.match_not(message)] *)
Definition accepts (option : option_) (message : value) : outcome bool :=
  let* m := apply (match_ option) message in
  if truthy m then
    let* n := apply (match_not option) message in
    Ok (negb (truthy n))
  else Ok false.

(** [Array.prototype.findIndex], counting from [index] *)
Fixpoint findIndex (options : list option_) (message : value) (index : Z)
  : outcome Z :=
  match options with
  | [] => Ok (-1)
  | option :: rest =>
      let* hit := accepts option message in
      if hit then Ok index else findIndex rest message (index + 1)
  end.

Definition test (this : t) (message : value) : outcome Z :=
  findIndex (_options this) message 0.

Definition option_at (this : t) (index : Z) : outcome option_ :=
  match (if index <? 0 then None else nth_error (_options this) (Z.to_nat index)) with
  | Some o => Ok o
  | None => Throw (TypeError "Cannot read property of undefined")
  end.

Definition getExec (this : t) (index : Z) : outcome (option (list value)) :=
  let* o := option_at this index in Ok (exec o).

(** [option.expand && option.expand(message) || {}] *)
Definition expand_ (this : t) (index : Z) (message : value) : outcome value :=
  let* o := option_at this index in
  match expand o with
  | None => Ok (VObj [])
  | Some code =>
      let* b := eval regex_exec [("message", message)] code in
      Ok (js_or b (VObj []))
  end.

End Dispatch.

End Rule.

(** ** Notions used to state the properties *)

Module Facts.

Import RetryCondition Matcher.

(** A configuration that gives the shared and both specific DC names. *)
Definition both_names_conf : list (string * value) :=
  [("metadata_broker_list", VStr "localhost:9092");
   ("dc_name", VStr "dc1");
   ("consume_dc", VStr "dc2");
   ("produce_dc", VStr "dc3")].

(** The reason [produce] gives when it turns a call away before producing. *)
Definition refusal (topic key : value) : error :=
  if truthy key
  then Error ("Duplicate key: " +:+ GuaranteedProducer.reportKey_of topic key)
  else Error "Key is required for guaranteed delivery".

(** What a failed [super.produce] rejects the promise with. *)
Definition failure_reason (answer : value + error) : error :=
  match answer with
  | inl result => Thrown result
  | inr e => e
  end.

Definition digits_50x : list ascii := ["5"; "0"; "x"]%char.

(** The text [50\d] *)
Definition body_50d : string := string_of_list_ascii ["5"; "0"; "\"; "d"]%char.

(** A match tree that addresses the nested field [meta.uri]. *)
Definition nested_uri_match : value :=
  VObj [("meta", VObj [("uri", VStr "/sample/uri")])].

(** A match tree of one constant, and an event it does not match. *)
Definition message_test_match : value := VObj [("message", VStr "test")].
Definition message_no_event : value := VObj [("message", VStr "no")].

(** A regular-expression string with the named group [b] and an unnamed
    group, in which a third marker stands inside a character class. *)
Definition class_marker_regex : string := "/[(?<a>](?<b>x)(y)/".

(** A character that changes nothing in the scan of a regular-expression
    string outside a character class. *)
Definition is_plain (c : ascii) : bool :=
  negb (Ascii.eqb c "\") && negb (Ascii.eqb c "[") && negb (Ascii.eqb c "(").

(** Whether the parenthesis before [rest] opens a group in the string as
    written. *)
Definition opens_written (rest : list ascii) : bool :=
  match written_group rest with Some _ => true | None => false end.

(** The number of named groups among the groups written. *)
Definition count_named (groups : list (option string)) : nat :=
  length (List.filter is_named groups).

(** *** Sample inputs *)

(** A stand-in for [json-stable-stringify] on scalars. *)
Definition sample_stringify (v : value) : option string :=
  match v with
  | VUndef => None
  | v => Some (to_string v)
  end.

(** A stand-in for the engine on the literal [/^\/sample\/(.+)$/]: a subject
    that starts with [/sample/] matches, and the group captures what
    follows. *)
Definition sample_engine (literal subject : string)
  : option (list (option string)) :=
  if String.prefix "/sample/" subject && (8 <? String.length subject)%nat
  then Some [Some subject;
             Some (String.substring 8 (String.length subject - 8) subject)]
  else None.

Definition sample_match : value :=
  VObj [("meta", VObj [("uri", VStr "/^\/sample\/(?<page>.+)$/")]);
        ("message", VStr "test")].

Definition sample_event : value :=
  VObj [("meta", VObj [("uri", VStr "/sample/uri"); ("request_id", VStr "r1")]);
        ("message", VStr "test")].

Definition sample_matcher : matcher :=
  {| test := Code (And (Test "/^\/sample\/(.+)$/"
                          (Get (Get (Var "message") "meta") "uri"))
                       (Eq (Get (Var "message") "message") (CStr "test")));
     expand := Object [("meta", Object [("uri", Captures "/^\/sample\/(.+)$/" ["page"]
                                                 (Get (Get (Var "message") "meta") "uri"))]);
                       ("message", Const (CStr "test"))] |}.

Definition sample_stanza : value :=
  VObj [("status", VArr [VStr "50x"; VNum 404]); ("body", VStr "busy")].

Definition sample_classifier : list clause :=
  [AnyOf [StatusLike body_50d; StatusIs 404]; Single (FieldIs "body" "busy")].

Definition sample_spec : value :=
  VObj [("topic", VStr "simple_test_rule");
        ("retry_limit", VNum 0);
        ("retry_delay", VNum 0);
        ("match", VObj [("message", VStr "test")]);
        ("exec", VObj [("method", VStr "post"); ("uri", VStr "http://mock.com/")])].

Definition sample_rule : Rule.t :=
  match Rule.new sample_stringify "simple_test_rule" sample_spec with
  | Ok r => r
  | _ => {| Rule.name := ""; Rule.spec := []; Rule.topic := VUndef;
            Rule.shouldRetry := []; Rule.shouldIgnoreError := [];
            Rule._options := []; Rule.noop := false |}
  end.

(** An underlying producer whose queue is full. *)
Definition queue_full (topic partition message key : value) : value + error :=
  inr (Error "Local: Queue full").

(** An underlying producer that accepts every message. *)
Definition accepting (topic partition message key : value) : value + error :=
  inl (VBool true).

(** A producer with the key [k] of topic [t] in flight. *)
Definition producer_with_k_in_flight : GuaranteedProducer.t :=
  (GuaranteedProducer.produce accepting
     (VStr "t") (VNum 0) (VStr "m") (VStr "k") GuaranteedProducer.new).1.

Section Dispatch.

Variable regex_exec : string -> string -> option (list (option string)).

(** A predicate holds on a message when it returns a true value, and fails
    when it returns a false one; a predicate that throws does neither. *)
Definition holds (p : Rule.predicate) (message : value) : Prop :=
  exists v, Rule.apply regex_exec p message = Ok v /\ truthy v = true.

Definition fails (p : Rule.predicate) (message : value) : Prop :=
  exists v, Rule.apply regex_exec p message = Ok v /\ truthy v = false.

(** An option fires when its [match] holds and its [match_not] does not. *)
Definition fires (o : Rule.option_) (message : value) : Prop :=
  holds (Rule.match_ o) message /\ fails (Rule.match_not o) message.

(** An option is passed over when its [match] fails, or holds together with
    its [match_not]. *)
Definition passed (o : Rule.option_) (message : value) : Prop :=
  fails (Rule.match_ o) message
  \/ (holds (Rule.match_ o) message /\ holds (Rule.match_not o) message).

End Dispatch.

Section Binding.

Variable regex_exec : string -> string -> option (list (option string)).

(** A piece of generated text is true in an environment when it is an
    expression that evaluates to a true value there. *)
Definition text_true (env : list (string * value)) (t : text) : Prop :=
  exists e v, t = Code e /\ eval regex_exec env e = Ok v /\ truthy v = true.

(** What the compiler has stored is bound in an environment when every
    piece of text in it evaluates there to a well-formed value. *)
Fixpoint bound (env : list (string * value)) (b : binding) : Prop :=
  match b with
  | BExpr e => exists v, eval regex_exec env e = Ok v /\ well_formed v = true
  | BRaw _ => True
  | BObj fields =>
      (fix all (fields : list (string * binding)) : Prop :=
         match fields with
         | [] => True
         | (_, b) :: rest => bound env b /\ all rest
         end) fields
  end.

End Binding.

(** *** Induction through the fields of objects *)

Section NestedInduction.

(** Induction over values that reaches into the fields of objects. *)
Variable P : value -> Prop.
Hypothesis HUndef : P VUndef.
Hypothesis HNull : P VNull.
Hypothesis HBool : forall b, P (VBool b).
Hypothesis HNum : forall n, P (VNum n).
Hypothesis HStr : forall s, P (VStr s).
Hypothesis HArr : forall items, P (VArr items).
Hypothesis HObj : forall fs, Forall (fun kv => P kv.2) fs -> P (VObj fs).

Fixpoint value_fields_ind (v : value) : P v :=
  match v with
  | VUndef => HUndef
  | VNull => HNull
  | VBool b => HBool b
  | VNum n => HNum n
  | VStr s => HStr s
  | VArr items => HArr items
  | VObj fs =>
      HObj fs
        ((fix each (l : list (string * value)) : Forall (fun kv => P kv.2) l :=
            match l with
            | [] => List.Forall_nil _
            | (k, x) :: rest =>
                @List.Forall_cons _ (fun kv => P kv.2) (k, x) rest (value_fields_ind x) (each rest)
            end) fs)
  end.

End NestedInduction.

Section BindingInduction.

Import Matcher.

Variable P : binding -> Prop.
Hypothesis HExpr : forall e, P (BExpr e).
Hypothesis HRaw : forall v, P (BRaw v).
Hypothesis HObj : forall fs, Forall (fun kv => P kv.2) fs -> P (BObj fs).

Fixpoint binding_fields_ind (b : binding) : P b :=
  match b with
  | BExpr e => HExpr e
  | BRaw v => HRaw v
  | BObj fs =>
      HObj fs
        ((fix each (l : list (string * binding)) : Forall (fun kv => P kv.2) l :=
            match l with
            | [] => List.Forall_nil _
            | (k, x) :: rest =>
                @List.Forall_cons _ (fun kv => P kv.2) (k, x) rest (binding_fields_ind x) (each rest)
            end) fs)
  end.

End BindingInduction.

End Facts.

(** ** kafka_factory.js: the producer over time *)

Module ProducerRun.

Import GuaranteedProducer.

(** What happens to a producer: a call of [produce], to which the underlying
    producer gives [answer] (a value it returns or an error it throws); the
    next callback queued with [process.nextTick] running; a delivery report
    being emitted. *)
Inductive event : Type :=
| Produce (topic partition message key : value) (answer : value + error)
| Tick
| Report (report : value).

Definition set_ticks (queue : list (list action)) (this : t) : t :=
  {| _pending := _pending this; promises := promises this;
     ticks := queue; sent := sent this; logged := logged this |}.

(** The first queued callback runs and leaves the queue. *)
Definition run_tick (this : t) : t :=
  match ticks this with
  | [] => this
  | callback :: rest => run_callback callback (set_ticks rest this)
  end.

(** All queued callbacks run, in the order they were queued.  A callback of
    this producer queues no further callback. *)
Definition drain (this : t) : t :=
  fold_left (fun st callback => run_callback callback st) (ticks this)
            (set_ticks [] this).

Definition step (e : event) (this : t) : outcome t :=
  match e with
  | Produce topic partition message key answer =>
      Ok (produce (fun _ _ _ _ => answer) topic partition message key this).1
  | Tick => Ok (run_tick this)
  | Report report => on_delivery_report report this
  end.

(** The states a producer gets into, starting from a new one. *)
Inductive reachable : t -> Prop :=
| reachable_new : reachable new
| reachable_step (e : event) (this after : t) :
    reachable this -> step e this = Ok after -> reachable after.

(** The promise a queued callback rejects, and the report key it deletes
    before, if it deletes one. *)
Definition rejects (callback : list action) : option (option string * nat) :=
  match callback with
  | [Reject p _] => Some (None, p)
  | [DeletePending k; Reject p _] => Some (Some k, p)
  | _ => None
  end.

(** What the producer keeps true of itself: a promise stored in [_pending]
    is unsettled and stored under one key only, and a queued callback
    rejects a promise that exists and is stored, if at all, under the key the
    callback deletes first. *)
Record consistent (this : t) : Prop := {
  stored_unsettled :
    forall k p, _pending this !! k = Some p -> promises this !! p = Some Pending;
  stored_once :
    forall k k' p,
      _pending this !! k = Some p -> _pending this !! k' = Some p -> k = k';
  queued_known :
    forall callback, In callback (ticks this) ->
      exists deleted p,
        rejects callback = Some (deleted, p)
        /\ promises this !! p <> None
        /\ forall k, _pending this !! k = Some p -> deleted = Some k
}.

(** The reason with which a call of [produce] ends in a rejection, if it
    does: no key, a key already in flight, or an underlying [produce] that
    throws or returns something other than [true]. *)
Definition turned_down (topic key : value) (answer : value + error) (this : t)
  : option error :=
  if negb (truthy key) then Some (Error "Key is required for guaranteed delivery")
  else
    match _pending this !! reportKey_of topic key with
    | Some _ => Some (Error ("Duplicate key: " +:+ reportKey_of topic key))
    | None =>
        match answer with
        | inl (VBool true) => None
        | inl result => Some (Thrown result)
        | inr e => Some e
        end
    end.

(** A delivery report for the message of the given topic and key. *)
Definition report_for (topic key : value) (report : value) : Prop :=
  exists t k,
    get_prop report "topic" = Ok t /\ get_prop report "key" = Ok k
    /\ reportKey_of t k = reportKey_of topic key.

End ProducerRun.

(** ** rule.js: the options of a rule *)

Module RuleCases.

Import Rule.

(** The options of a rule as its spec gives them: [spec.cases || [ spec ]]. *)
Definition given_cases (spec : value) : list value :=
  match js_or (field (own_fields spec) "cases") (VArr [spec]) with
  | VArr cases => cases
  | _ => []
  end.

(** A request that [_processExec] takes: an object, without a [constructor]
    property of its own, that has a [uri]. *)
Definition is_request (req : value) : bool :=
  match req with
  | VObj fs =>
      negb (bool_decide (assoc "constructor" fs <> None)) && truthy (field fs "uri")
  | _ => false
  end.

Definition is_nullish (v : value) : bool :=
  match v with
  | VUndef | VNull => true
  | _ => false
  end.

End RuleCases.

(** ** rule.js: what a match tree of constants means *)

Module MatchMeaning.

Import Matcher RuleCases.

(** [v[k]] for a value that is not [undefined] or [null] *)
Definition prop (v : value) (k : string) : value :=
  match get_prop v k with
  | Ok x => x
  | _ => VUndef
  end.

(** The constant that a leaf of a match tree is compared with: a boolean, a
    number, a string that is no regular expression, or [undefined] for the
    string ['undefined']. *)
Definition scalar (leaf : value) : option constant :=
  match leaf with
  | VBool b => Some (CBool b)
  | VNum n => Some (CNum n)
  | VStr s =>
      if String.eqb s "undefined" then Some CUndefined
      else if is_regex_string s then None
      else Some (CStr s)
  | _ => None
  end.

Definition is_scalar (leaf : value) : bool :=
  match scalar leaf with Some _ => true | None => false end.

(** The names of the members that every object inherits from
    [Object.prototype].  Reading such a name from an object that has no
    property of its own under it answers with the inherited member, which
    the embedding of property reads leaves out. *)
Definition inherited (k : string) : bool :=
  existsb (String.eqb k)
    ["constructor"; "__defineGetter__"; "__defineSetter__"; "hasOwnProperty";
     "__lookupGetter__"; "__lookupSetter__"; "isPrototypeOf";
     "propertyIsEnumerable"; "toString"; "valueOf"; "__proto__";
     "toLocaleString"].

(** A tree of constants: objects whose keys are no inherited names, arrays
    of scalars, and scalars. *)
Fixpoint plain (tree : value) : bool :=
  match tree with
  | VObj fs => forallb (fun kv => negb (inherited kv.1) && plain kv.2) fs
  | VArr items => forallb is_scalar items
  | leaf => is_scalar leaf
  end.

(** An array has an item: one of its elements is strictly equal to it, and
    that element is a true value. *)
Definition has_item (elements : list value) (item : value) : bool :=
  match scalar item with
  | Some c => truthy (constant_value c) && existsb (fun x => strict_eq x c) elements
  | None => false
  end.

(** What a tree of constants asks of a value: every field of an object of
    the tree is matched by the property of that name, an array of the tree
    by an array that has every item, a scalar by a value strictly equal to
    it.  An object without fields is matched by nothing. *)
Fixpoint matches (tree v : value) {struct tree} : bool :=
  match tree with
  | VObj [] => false
  | VObj fs => forallb (fun kv => matches kv.2 (prop v kv.1)) fs
  | VArr items =>
      match v with
      | VArr elements => forallb (has_item elements) items
      | _ => false
      end
  | leaf =>
      match scalar leaf with
      | Some c => strict_eq v c
      | None => false
      end
  end.

(** The value has an object wherever the tree has one. *)
Fixpoint covers (tree v : value) {struct tree} : bool :=
  match tree with
  | VObj fs =>
      is_object v && forallb (fun kv => covers kv.2 (prop v kv.1)) fs
  | _ => true
  end.

(** No leaf of the objects of the tree is a regular expression. *)
Fixpoint regex_free (tree : value) : bool :=
  match tree with
  | VObj fs => forallb (fun kv => regex_free kv.2) fs
  | VStr s => negb (is_regex_string s)
  | _ => true
  end.

Fixpoint distinct_names (keys : list string) : bool :=
  match keys with
  | [] => true
  | k :: rest => negb (existsb (String.eqb k) rest) && distinct_names rest
  end.

(** The keys of every object of the tree are identifiers other than the
    inherited names, and no object has a key twice. *)
Fixpoint keyed (tree : value) : bool :=
  match tree with
  | VObj fs =>
      forallb (fun kv => is_identifier kv.1 && negb (inherited kv.1)) fs
      && distinct_names (map fst fs)
      && forallb (fun kv => keyed kv.2) fs
  | _ => true
  end.

(** What the compiler stores for a tree without regular expressions. *)
Fixpoint stored (tree : value) : option binding :=
  match tree with
  | VObj fs =>
      Some (BObj (flat_map (fun kv => match stored kv.2 with
                                      | Some b => [(kv.1, b)]
                                      | None => []
                                      end) fs))
  | VBool _ | VNum _ => Some (BRaw tree)
  | VStr s =>
      if String.eqb s "undefined" then None else Some (BExpr (Const (CStr s)))
  | _ => None
  end.

(** What the binder keeps of a tree without regular expressions: its
    objects and scalars, without the arrays and the ['undefined'] leaves. *)
Fixpoint kept (tree : value) : option value :=
  match tree with
  | VObj fs =>
      Some (VObj (flat_map (fun kv => match kept kv.2 with
                                      | Some x => [(kv.1, x)]
                                      | None => []
                                      end) fs))
  | VBool _ | VNum _ => Some tree
  | VStr s => if String.eqb s "undefined" then None else Some tree
  | _ => None
  end.

(** The compiler stores, under a key that is not taken, what [stored]
    says. *)
Definition stores (tree : value) : Prop :=
  regex_free tree = true -> keyed tree = true ->
  forall result name k t result',
    _compileMatch tree result name (Key k) = Ok (t, result') ->
    is_identifier k = true -> assoc k result = None ->
    result' = (result ++ match stored tree with
                         | Some b => [(k, b)]
                         | None => []
                         end)%list.

Section Meaning.

Variable regex_exec : string -> string -> option (list (option string)).

(** A piece of generated text means a boolean in an environment: as an
    expression it evaluates to a value that is true or false as the boolean
    says; the empty text, which makes a function that returns [undefined],
    means false. *)
Definition means (env : list (string * value)) (t : text) (b : bool) : Prop :=
  match t with
  | Code e => exists r, eval regex_exec env e = Ok r /\ truthy r = b
  | Empty => b = false
  | Malformed => True
  end.

(** The code written for what was stored evaluates to what [kept] says. *)
Definition answers (env : list (string * value)) (tree : value) : Prop :=
  regex_free tree = true -> keyed tree = true ->
  forall b code,
    stored tree = Some b -> _getMatchObjCode b = Ok code ->
    exists v, kept tree = Some v /\ eval regex_exec env code = Ok v.

End Meaning.

End MatchMeaning.

(** ** kafka_factory.js: the settings of the factory *)

Module FactorySettings.

Import RetryCondition.

Definition CONSUMER_DEFAULTS : list (string * value) :=
  [("enable.auto.commit", VStr "false")].

Definition CONSUMER_TOPIC_DEFAULTS : list (string * value) :=
  [("auto.offset.reset", VStr "largest")].

Definition PRODUCER_DEFAULTS : list (string * value) :=
  [("dr_cb", VBool true)].

Definition PRODUCER_TOPIC_DEFAULTS : list (string * value) :=
  [("request.required.acks", VNum 1)].

(** [Object.assign(target, source)]: the own properties of the source are
    set on the target one after the other; a source that is [undefined],
    [null], a number or a boolean has none. *)
Definition assign (target : list (string * value)) (source : value)
  : list (string * value) :=
  fold_left (fun acc kv => assoc_set kv.1 kv.2 acc) (entries source) target.

Fixpoint remove (k : string) (fs : list (string * value)) : list (string * value) :=
  match fs with
  | [] => []
  | (k', v) :: rest =>
      if String.eqb k k' then remove k rest else (k', v) :: remove k rest
  end.

(** [delete o[k]] for a key that is neither an index nor [length]: only an
    object can have the property. *)
Definition delete_prop (k : string) (o : value) : value :=
  match o with
  | VObj fs => VObj (remove k fs)
  | _ => o
  end.

(** The factory.  [_kafkaConf] is the object the constructor was given, as
    the constructor leaves it; the configuration is a tree, no object of it
    is shared between two places. *)
Record t : Type := {
  _kafkaConf : list (string * value);
  _consumerTopicConf : list (string * value);
  _producerTopicConf : list (string * value);
  _consumerConf : list (string * value);
  _producerConf : list (string * value);
  startup_delay : value
}.

(** [settings && settings.default_topic_conf || {}] *)
Definition topic_settings (settings : value) : outcome value :=
  let* given :=
    if truthy settings then get_prop settings "default_topic_conf" else Ok settings in
  Ok (js_or given (VObj [])).

(** [if (settings) { delete settings.default_topic_conf; }] for the
    settings under [key] of the configuration *)
Definition forget_topic_settings (key : string) (kafkaConf : list (string * value))
  : list (string * value) :=
  if truthy (field kafkaConf key)
  then assoc_set key (delete_prop "default_topic_conf" (field kafkaConf key)) kafkaConf
  else kafkaConf.

(** [new KafkaFactory(kafkaConf)] *)
Definition constructor (kafkaConf : list (string * value)) : outcome t :=
  if negb (truthy (field kafkaConf "metadata_broker_list"))
  then Throw (Error "metadata_broker_list property is required for the kafka config")
  else
    let* consumer_topic := topic_settings (field kafkaConf "consumer") in
    let consumerTopicConf := assign (assign [] (VObj CONSUMER_TOPIC_DEFAULTS)) consumer_topic in
    let kafkaConf := forget_topic_settings "consumer" kafkaConf in
    let* producer_topic := topic_settings (field kafkaConf "producer") in
    let producerTopicConf := assign (assign [] (VObj PRODUCER_TOPIC_DEFAULTS)) producer_topic in
    let kafkaConf := forget_topic_settings "producer" kafkaConf in
    let consumerConf :=
      assign (assign [] (VObj CONSUMER_DEFAULTS))
             (js_or (field kafkaConf "consumer") (VObj [])) in
    let consumerConf :=
      assoc_set "metadata.broker.list" (field kafkaConf "metadata_broker_list")
                consumerConf in
    let producerConf :=
      assign (assign [] (VObj PRODUCER_DEFAULTS))
             (js_or (field kafkaConf "producer") (VObj [])) in
    let producerConf :=
      assoc_set "metadata.broker.list" (field kafkaConf "metadata_broker_list")
                producerConf in
    Ok {| _kafkaConf := kafkaConf;
          _consumerTopicConf := consumerTopicConf;
          _producerTopicConf := producerTopicConf;
          _consumerConf := consumerConf;
          _producerConf := producerConf;
          startup_delay := js_or (field kafkaConf "startup_delay") (VNum 0) |}.

(** What [new kafka.KafkaConsumer(conf, topicConf)] is given and what it is
    subscribed to. *)
Record consumer : Type := {
  conf : list (string * value);
  topicConf : list (string * value);
  subscribed : list (list value)
}.

(** [createConsumer(groupId, topic)].  [drawn] is the number
    [Math.floor(Math.random() * 1000000)]; [err] is what the driver passes to
    the callback of [connect].  The result is the settlement of the promise:
    the consumer it resolves with, or the error it is rejected with. *)
Definition createConsumer (drawn : Z) (err : value) (this : t)
    (groupId topic : value) : consumer + value :=
  let conf := assign [] (VObj (_consumerConf this)) in
  let conf := assoc_set "group.id" groupId conf in
  let conf := assoc_set "client.id" (VStr (string_of_Z drawn)) conf in
  if truthy err then inr err
  else inl {| conf := conf; topicConf := _consumerTopicConf this;
              subscribed := [[topic]] |}.

(** The settings a user gives under a key, on top of defaults: the value of
    [k] is the user's where the user's settings have the property. *)
Definition layered (defaults : list (string * value)) (settings : value)
    (k : string) : value :=
  match assoc k (entries settings) with
  | Some v => v
  | None => field defaults k
  end.

(** Settings as a configuration file gives them: an object, or nothing. *)
Definition is_settings (settings : value) : bool :=
  match settings with
  | VObj fs => MatchMeaning.distinct_names (map fst fs)
  | v => negb (truthy v)
  end.

End FactorySettings.

(** ** Where the embedding prints and pastes exactly *)

Module Exact.

Import RetryCondition Matcher MatchMeaning.

Definition MAX_SAFE_INTEGER : Z := 9007199254740991.

(** [Number.isSafeInteger]: the integers a number holds exactly, which
    [Number.prototype.toString] prints as their decimal digits (from
    [1e21] on it prints an exponent). *)
Definition is_safe_integer (n : Z) : bool :=
  (- MAX_SAFE_INTEGER <=? n) && (n <=? MAX_SAFE_INTEGER).

(** The values of which [to_string] is the text that ToString gives: safe
    integers, and no object with a property [toString] of its own, for
    which ToString would call that property. *)
Fixpoint prints_exactly (v : value) : bool :=
  match v with
  | VNum n => is_safe_integer n
  | VArr items => forallb prints_exactly items
  | VObj fs => negb (existsb (fun kv => String.eqb kv.1 "toString") fs)
  | _ => true
  end.

(** A match tree that the compiler writes into code as it is: its keys are
    identifiers, which the code of the binder holds without quotes, and its
    strings have no apostrophe, backslash or line end, so that the text
    between single quotes denotes them. *)
Fixpoint pasted_exactly (tree : value) : bool :=
  match tree with
  | VStr s => quotable "'" s
  | VArr items => forallb pasted_exactly items
  | VObj fs => forallb (fun kv => is_identifier kv.1 && pasted_exactly kv.2) fs
  | _ => true
  end.

(** No name is [__proto__]: the assignment [res['__proto__'] = ...] makes no
    property. *)
Definition assignable (names : list string) : bool :=
  forallb (fun name => negb (String.eqb name "__proto__")) names.

(** The options of a field of a stanza: the elements of an array, or the
    one value. *)
Definition options_of (v : value) : list value :=
  match v with
  | VArr options => options
  | option => [option]
  end.

(** A status option that the compiler writes down exactly: its text is the
    one ToString gives, and where it is a run of digits they denote a safe
    integer. *)
Definition status_option_exact (option : value) : bool :=
  prints_exactly option
  && (negb (all_chars is_digit (to_string option))
      || is_safe_integer (numeric_literal (to_string option))).

Section Stanza.

Variable stringify : value -> option string.

(** The text of the option has no apostrophe, backslash or line end. *)
Definition option_unescaped (option : value) : bool :=
  quotable "'" (default "undefined" (stringify option)).

(** A field of a stanza that the compiler writes down exactly: [status] with
    exact options, or a name without a double quote, backslash or line end
    that is no inherited name, with options whose text is pasted as it
    is. *)
Definition entry_exact (entry : string * value) : bool :=
  if String.eqb entry.1 "status"
  then forallb status_option_exact (options_of entry.2)
  else quotable "034" entry.1 && negb (inherited entry.1)
       && forallb option_unescaped (options_of entry.2).

Definition stanza_exact (stanza : value) : bool :=
  forallb entry_exact (entries stanza).

End Stanza.

(** The JSON text of a string, as [JSON.stringify] writes it. *)
Definition hex_digit (n : N) : ascii :=
  if (n <? 10)%N then ascii_of_N (48 + n) else ascii_of_N (87 + n).

Definition json_char (c : ascii) : list ascii :=
  if Ascii.eqb c "034" then ["\"; "034"]%char
  else if Ascii.eqb c "\" then ["\"; "\"]%char
  else if Ascii.eqb c "008" then ["\"; "b"]%char
  else if Ascii.eqb c "009" then ["\"; "t"]%char
  else if Ascii.eqb c "010" then ["\"; "n"]%char
  else if Ascii.eqb c "012" then ["\"; "f"]%char
  else if Ascii.eqb c "013" then ["\"; "r"]%char
  else if (N_of_ascii c <? 32)%N
       then ["\"; "u"; "0"; "0"; hex_digit (N_of_ascii c / 16);
             hex_digit (N_of_ascii c mod 16)]%char
  else [c].

Definition json_string (s : string) : string :=
  string_of_list_ascii
    ("034"%char :: flat_map json_char (list_ascii_of_string s) ++ ["034"%char]).

End Exact.

(** ** sys/purge.js *)

Module PurgeService.

(** ToString of a value that events carry.  An object with a property
    [toString] of its own, which as data is no function, cannot be
    converted, nor can an array that holds one. *)
Fixpoint printable (v : value) : bool :=
  match v with
  | VArr items => forallb printable items
  | VObj fs => negb (existsb (fun kv => String.eqb kv.1 "toString") fs)
  | _ => true
  end.

Definition to_text (v : value) : outcome string :=
  if printable v then Ok (to_string v)
  else Throw (TypeError "Cannot convert object to primitive value").

Record t : Type := {
  options : value;
  routes : list value
}.

(** [new PurgeService(options)]; the [Purger] it makes is given the options
    as its one route. *)
Definition new (options : value) : outcome t :=
  let options := js_or options (VObj []) in
  let* host := get_prop options "host" in
  let* port := get_prop options "port" in
  if negb (truthy host) || negb (truthy port)
  then Throw (Error "Purging module must be configured with host and port")
  else Ok {| options := options; routes := [options] |}.

(** The settlement of the promise a call returns. *)
Inductive promise : Type :=
| Fulfilled (v : value)
| RejectedWith (e : error).

(** The [HTTPError] of a request that has no list of events, as the
    response it carries. *)
Definition bad_request : error :=
  Thrown (VObj [("status", VNum 400);
                ("body", VObj [("type", VStr "bad_request");
                               ("description",
                                VStr "Invalid request for purge service.")])]).

(** [hyper.log('error/events/purge', { message: ..., event: event })] *)
Definition invalid_event (event : value) : string * value :=
  ("error/events/purge",
   VObj [("message", VStr "Invalid event URI"); ("event", event)]).

(** [/^\/\//.test(text)] *)
Definition begins_with_slashes (text : string) : bool :=
  match text with
  | String c1 (String c2 _) => Ascii.eqb c1 "/" && Ascii.eqb c2 "/"
  | _ => false
  end.

(** The callback of [req.body.map]: what it returns and what it logs. *)
Definition convert (event : value) : outcome (value * list (string * value)) :=
  let* meta := get_prop event "meta" in
  if negb (truthy meta) then Ok (VUndef, [invalid_event event])
  else
    let* uri := get_prop meta "uri" in
    if negb (truthy uri) then Ok (VUndef, [invalid_event event])
    else
      let* text := to_text uri in
      if negb (begins_with_slashes text) then Ok (VUndef, [invalid_event event])
      else Ok (VStr ("http:" +:+ text), []).

(** [req.body.map(...)]: the log written, and the array made unless a call
    of the callback throws. *)
Fixpoint convert_all (events : list value)
  : list (string * value) * outcome (list value) :=
  match events with
  | [] => ([], Ok [])
  | event :: rest =>
      match convert event with
      | Ok (v, written) =>
          let (log, r) := convert_all rest in
          ((written ++ log)%list, let* vs := r in Ok (v :: vs))
      | Throw e => ([], Throw e)
      | Unmodelled => ([], Unmodelled)
      end
  end.

(** What a call of [purge] does: the entries it logs, the list it hands to
    [this.purger.purge] if it gets there, and what it returns or throws. *)
Record run : Type := {
  logged : list (string * value);
  purged : option (list value);
  answer : outcome promise
}.

Section Purge.

(** [this.purger.purge(urls)]: the settlement of the promise it returns, or
    the error it throws. *)
Variable purger_purge : list value -> promise + error.

Definition purge (req : value) : run :=
  match get_prop req "body" with
  | Ok (VArr events) =>
      let (log, r) := convert_all events in
      match r with
      | Ok mapped =>
          let urls := List.filter truthy mapped in
          {| logged := log; purged := Some urls;
             answer := match purger_purge urls with
                       | inl (Fulfilled _) =>
                           Ok (Fulfilled (VObj [("status", VNum 201)]))
                       | inl (RejectedWith e) => Ok (RejectedWith e)
                       | inr e => Throw e
                       end |}
      | Throw e => {| logged := log; purged := None; answer := Throw e |}
      | Unmodelled => {| logged := log; purged := None; answer := Unmodelled |}
      end
  | Ok _ => {| logged := []; purged := None; answer := Throw bad_request |}
  | Throw e => {| logged := []; purged := None; answer := Throw e |}
  | Unmodelled => {| logged := []; purged := None; answer := Unmodelled |}
  end.

End Purge.

End PurgeService.

(** ** Sample inputs *)

Module Samples.

Import RetryCondition Matcher Facts.

Definition no_rule : Rule.t :=
  {| Rule.name := ""; Rule.spec := []; Rule.topic := VUndef;
     Rule.shouldRetry := []; Rule.shouldIgnoreError := [];
     Rule._options := []; Rule.noop := false |}.

Definition rule_of (name : string) (spec : value) : Rule.t :=
  match Rule.new sample_stringify name spec with
  | Ok r => r
  | _ => no_rule
  end.

Definition mock_request : value := VObj [("uri", VStr "http://mock.com/")].

(** A rule without [match]. *)
Definition open_spec : value :=
  VObj [("topic", VStr "t"); ("exec", mock_request)].

(** A rule whose [match] is the empty object. *)
Definition empty_match_spec : value :=
  VObj [("topic", VStr "t"); ("match", VObj []); ("exec", mock_request)].

(** A rule of two cases, the second without [exec]. *)
Definition cases_spec : value :=
  VObj [("topic", VStr "t");
        ("cases", VArr [VObj [("match", VObj [("message", VStr "test")]);
                              ("exec", mock_request)];
                        VObj [("match", VObj [("message", VStr "other")])]])].

(** A rule with a [retry_on] stanza that has no field. *)
Definition empty_stanza_spec : value :=
  VObj [("topic", VStr "t"); ("retry_on", VObj []); ("exec", mock_request)].

(** A match tree of constants, and an event it matches. *)
Definition constants_tree : value :=
  VObj [("message", VStr "test");
        ("meta", VObj [("domain", VStr "en.wikipedia.org");
                       ("deleted", VStr "undefined")]);
        ("tags", VArr [VStr "a"; VNum 2]);
        ("rev", VNum 5)].

Definition constants_event : value :=
  VObj [("meta", VObj [("domain", VStr "en.wikipedia.org")]);
        ("message", VStr "test");
        ("rev", VNum 5);
        ("tags", VArr [VNum 1; VNum 2; VStr "a"])].

Definition no_matcher : matcher := {| test := Empty; expand := Object [] |}.

Definition matcher_of (tree : value) : matcher :=
  match _processMatch tree with
  | Ok (Some m) => m
  | _ => no_matcher
  end.

(** A regular expression with the named group [page]. *)
Definition page_regex : string := "/^\/sample\/(?<page>.+)$/".

Definition page_tree : value := VObj [("uri", VStr page_regex)].

(** The same expression without a name for the group. *)
Definition plain_regex : string := "/^\/sample\/(.+)$/".

Definition plain_tree : value := VObj [("uri", VStr plain_regex)].

(** A match tree with an empty object beside another field. *)
Definition beside_fields : list (string * value) :=
  [("a", VNum 1); ("b", VObj [])].

(** A Kafka configuration with settings of its own. *)
Definition kafka_conf : list (string * value) :=
  [("metadata_broker_list", VStr "localhost:9092");
   ("dc_name", VStr "dc1");
   ("consumer", VObj [("default_topic_conf",
                       VObj [("auto.offset.reset", VStr "smallest")]);
                      ("fetch.wait.max.ms", VNum 100);
                      ("metadata.broker.list", VStr "elsewhere:9092")]);
   ("producer", VObj [("dr_cb", VBool false)])].

Definition no_factory : FactorySettings.t :=
  {| FactorySettings._kafkaConf := [];
     FactorySettings._consumerTopicConf := [];
     FactorySettings._producerTopicConf := [];
     FactorySettings._consumerConf := [];
     FactorySettings._producerConf := [];
     FactorySettings.startup_delay := VUndef |}.

Definition factory : FactorySettings.t :=
  match FactorySettings.constructor kafka_conf with
  | Ok f => f
  | _ => no_factory
  end.

(** A purge request with one event to purge and two to log. *)
Definition purge_events : list value :=
  [VObj [("meta", VObj [("uri", VStr "//en.wikipedia.org/wiki/Main_Page")])];
   VObj [("meta", VObj [("uri", VStr "http://en.wikipedia.org/")])];
   VObj [("message", VStr "test")]].

Definition purge_request : value := VObj [("body", VArr purge_events)].

(** A purger that purges. *)
Definition purging (urls : list value) : PurgeService.promise + error :=
  inl (PurgeService.Fulfilled VUndef).

(** The string [say "hi"], and a stanza that asks for it as the body. *)
Definition said : string :=
  "say " +:+ Rule.quote_mark +:+ "hi" +:+ Rule.quote_mark.

Definition said_stanza : value := VObj [("body", VStr said)].

(** The string that the JSON text of [said] denotes between single quotes:
    the text without its backslashes. *)
Definition said_read : string :=
  Rule.quote_mark +:+ said +:+ Rule.quote_mark.

(** A stand-in for [json-stable-stringify] on scalars that writes strings
    as JSON text. *)
Definition json_stringify (v : value) : option string :=
  match v with
  | VStr s => Some (Exact.json_string s)
  | v => sample_stringify v
  end.

(** A rule whose [match] addresses the nested field [meta.uri], and one
    with a case without [match] after such a case. *)
Definition nested_spec : value :=
  VObj [("topic", VStr "t"); ("match", nested_uri_match); ("exec", mock_request)].

Definition nested_then_open_spec : value :=
  VObj [("topic", VStr "t");
        ("cases", VArr [VObj [("match", nested_uri_match); ("exec", mock_request)];
                        VObj [("exec", mock_request)]])].

(** An event without [meta]. *)
Definition bare_event : value := VObj [("message", VStr "test")].

(** A delivery report for the key [k] of topic [t]. *)
Definition report_t_k : value := VObj [("topic", VStr "t"); ("key", VStr "k")].

End Samples.

(** * Properties *)

(** ** The Kafka factory *)

Section KafkaFactoryFacts.

Import KafkaFactory Facts.

(** C6, as stated, fails.  With [dc_name], [consume_dc] and [produce_dc] all
    given, the claim makes the consume name [consume_dc] and the produce name
    [produce_dc]; both getters answer with [dc_name]. *)
Lemma dc_getters_ignore_specific_names :
  KafkaFactory.new both_names_conf = Ok {| _kafkaConf := both_names_conf |}
  /\ consumeDC {| _kafkaConf := both_names_conf |} = VStr "dc1"
  /\ claimed_dc "consume_dc" both_names_conf = VStr "dc2"
  /\ produceDC {| _kafkaConf := both_names_conf |} = VStr "dc1"
  /\ claimed_dc "produce_dc" both_names_conf = VStr "dc3"
  /\ consumeDC {| _kafkaConf := both_names_conf |}
     <> claimed_dc "consume_dc" both_names_conf.
Proof. repeat split; try reflexivity. discriminate. Qed.

(** C6, amended.  For every Kafka configuration the consume DC name is
    [dc_name] when given, otherwise [consume_dc] when given, otherwise
    ["datacenter1"]; the produce DC name is [dc_name] when given, otherwise
    [produce_dc], otherwise ["datacenter1"].  "Given" is JavaScript's truth
    test, so an empty name counts as absent. *)
Theorem dc_name_takes_precedence (this : KafkaFactory.t) :
  consumeDC this = shared_first_dc "consume_dc" (_kafkaConf this)
  /\ produceDC this = shared_first_dc "produce_dc" (_kafkaConf this).
Proof.
  unfold consumeDC, produceDC, shared_first_dc, js_or.
  split.
  - destruct (truthy (field (_kafkaConf this) "dc_name")); [reflexivity|].
    now destruct (truthy (field (_kafkaConf this) "consume_dc")).
  - destruct (truthy (field (_kafkaConf this) "dc_name")); [reflexivity|].
    now destruct (truthy (field (_kafkaConf this) "produce_dc")).
Qed.

(** The two orders agree exactly when the shared and the specific name are
    not both given. *)
Lemma getters_match_claim_unless_both_given (specific : string)
    (conf : list (string * value)) :
  truthy (field conf "dc_name") && truthy (field conf specific) = false ->
  shared_first_dc specific conf = claimed_dc specific conf.
Proof.
  unfold shared_first_dc, claimed_dc.
  destruct (truthy (field conf "dc_name")), (truthy (field conf specific));
    simpl; congruence.
Qed.

End KafkaFactoryFacts.

(** ** The guaranteed producer *)

Section GuaranteedProducerFacts.

Import GuaranteedProducer Facts.

Variable super_produce : value -> value -> value -> value -> value + error.

Lemma fresh_promise_unused (this : GuaranteedProducer.t) :
  promises this !! fresh_promise this = None.
Proof.
  apply not_elem_of_dom. unfold fresh_promise. apply is_fresh.
Qed.

Lemma reject_pending (p : nat) (reason : error) (this : GuaranteedProducer.t) :
  promises this !! p = Some Pending ->
  promises (run_callback [Reject p reason] this) !! p = Some (Rejected reason)
  /\ _pending (run_callback [Reject p reason] this) = _pending this.
Proof.
  intros Hp. unfold run_callback, run_action, settle. simpl. rewrite Hp. simpl.
  split; [apply lookup_insert_eq | reflexivity].
Qed.

(** C7.  A call of [produce] whose key is empty, or whose report key
    ["<topic>:<key>"] already has an entry in the pending map, hands nothing
    to the underlying producer and leaves the pending map as it was; the
    promise it returns is new, and the one callback it queued for the next
    tick rejects that promise: with the key-required error for an empty key,
    with the duplicate-key error otherwise. *)
Theorem produce_refuses_empty_and_duplicate_keys
    (topic partition message key : value) (this : GuaranteedProducer.t) :
  truthy key = false \/ is_Some (_pending this !! reportKey_of topic key) ->
  let after := (produce super_produce topic partition message key this).1 in
  let p := (produce super_produce topic partition message key this).2 in
  promises this !! p = None
  /\ _pending after = _pending this
  /\ sent after = sent this
  /\ ticks after = (ticks this ++ [[Reject p (refusal topic key)]])%list
  /\ promises after !! p = Some Pending
  /\ promises (run_callback [Reject p (refusal topic key)] after) !! p
     = Some (Rejected (refusal topic key))
  /\ _pending (run_callback [Reject p (refusal topic key)] after) = _pending this.
Proof.
  intros Hcase after p.
  assert (Hnew : promises this !! fresh_promise this = None)
    by apply fresh_promise_unused.
  assert (Hshape : produce super_produce topic partition message key this
                   = (nextTick [Reject (fresh_promise this) (refusal topic key)]
                        (open_promise (fresh_promise this) this),
                      fresh_promise this)).
  { unfold produce, refusal.
    destruct (truthy key) eqn:Hkey; simpl; [|reflexivity].
    destruct Hcase as [Hempty | [q Hq]]; [discriminate|].
    now rewrite Hq. }
  subst after p. rewrite Hshape. simpl.
  assert (Hopen : promises (nextTick [Reject (fresh_promise this) (refusal topic key)]
                     (open_promise (fresh_promise this) this))
                  !! fresh_promise this = Some Pending)
    by apply lookup_insert_eq.
  destruct (reject_pending _ (refusal topic key) _ Hopen) as [Hrej Hsame].
  repeat split; try assumption; try reflexivity.
Qed.

(** C10.  When the key is given, no entry is pending for the report key,
    and the underlying [produce] throws or returns something other than
    [true], the call registers the entry and queues one callback that first
    deletes the entry and then rejects the returned promise: after the
    deletion, and so when the promise is rejected, the pending map is exactly
    the map from before the call. *)
Theorem failed_produce_restores_pending
    (topic partition message key : value) (this : GuaranteedProducer.t) :
  truthy key = true ->
  _pending this !! reportKey_of topic key = None ->
  super_produce topic partition message key <> inl (VBool true) ->
  let after := (produce super_produce topic partition message key this).1 in
  let p := (produce super_produce topic partition message key this).2 in
  let reportKey := reportKey_of topic key in
  let reason := failure_reason (super_produce topic partition message key) in
  _pending after = <[reportKey := p]> (_pending this)
  /\ sent after = (sent this ++ [(topic, partition, message, key)])%list
  /\ ticks after = (ticks this ++ [[DeletePending reportKey; Reject p reason]])%list
  /\ _pending (run_action (DeletePending reportKey) after) = _pending this
  /\ promises (run_action (DeletePending reportKey) after) !! p = Some Pending
  /\ _pending (run_callback [DeletePending reportKey; Reject p reason] after)
     = _pending this
  /\ promises (run_callback [DeletePending reportKey; Reject p reason] after) !! p
     = Some (Rejected reason).
Proof.
  intros Hkey Hfree Hfail after p reportKey reason.
  subst reportKey.
  set (registered :=
         record_sent (topic, partition, message, key)
           (set_pending (<[reportKey_of topic key := fresh_promise this]> (_pending this))
              (open_promise (fresh_promise this) this))).
  assert (Hshape : produce super_produce topic partition message key this
                   = (nextTick [DeletePending (reportKey_of topic key);
                                Reject (fresh_promise this) reason] registered,
                      fresh_promise this)).
  { unfold produce, reason, failure_reason. rewrite Hkey. simpl.
    rewrite Hfree. fold registered.
    destruct (super_produce topic partition message key) as [result | e];
      [|reflexivity].
    destruct result as [| | [|] | | | |]; try reflexivity. now elim Hfail. }
  subst after p. rewrite Hshape. simpl.
  assert (Hdel : delete (reportKey_of topic key)
                   (<[reportKey_of topic key := fresh_promise this]> (_pending this))
                 = _pending this).
  { rewrite delete_insert_eq. now apply delete_id. }
  unfold run_callback, run_action, settle. simpl.
  rewrite lookup_insert_eq. simpl. rewrite Hdel.
  repeat split; try reflexivity; apply lookup_insert_eq.
Qed.

End GuaranteedProducerFacts.

(** ** Decimal text of integers *)

Section DecimalText.

Import RetryCondition.

Lemma uint_text_digits (d : Decimal.uint) :
  forallb is_digit (list_ascii_of_string (NilEmpty.string_of_uint d)) = true.
Proof. induction d; simpl; auto. Qed.

Lemma of_uint_acc_value (d : Decimal.uint) (acc : positive) :
  Z.pos (Pos.of_uint_acc d acc)
  = fold_left (fun a c => a * 10 + digit_value c)
      (list_ascii_of_string (NilEmpty.string_of_uint d)) (Z.pos acc).
Proof.
  revert acc. induction d; intros acc; simpl; try reflexivity;
    rewrite IHd; f_equal; unfold digit_value; simpl; lia.
Qed.

Lemma of_uint_value (d : Decimal.uint) :
  Z.of_N (Pos.of_uint d) = radix_value 10 (NilEmpty.string_of_uint d).
Proof.
  unfold radix_value.
  induction d; simpl; try reflexivity; try (rewrite of_uint_acc_value; reflexivity).
  exact IHd.
Qed.

Lemma to_uint_head (p : positive) :
  match Pos.to_uint p with
  | Decimal.Nil | Decimal.D0 _ => False
  | _ => True
  end.
Proof.
  pose proof (DecimalN.Unsigned.to_of (N.to_uint (N.pos p))) as Hnorm.
  rewrite DecimalN.Unsigned.of_to in Hnorm. simpl in Hnorm.
  pose proof (DecimalPos.Unsigned.to_uint_nonzero p) as Hnz.
  pose proof (DecimalFacts.nzhead_nonzero (Pos.to_uint p)) as Hhead.
  rewrite Hnorm. unfold Decimal.unorm.
  destruct (Decimal.nzhead (Pos.to_uint p)) eqn:E; try exact I.
  - apply Hnz. rewrite Hnorm. unfold Decimal.unorm. now rewrite E.
  - now apply (Hhead u).
Qed.

(** The text of a number that is not negative: digits only, and read back
    as a numeric literal it is the number. *)
Lemma text_of_natural (n : Z) :
  0 <= n ->
  all_chars is_digit (string_of_Z n) = true
  /\ numeric_literal (string_of_Z n) = n.
Proof.
  intros Hn. destruct n as [|p|p]; [split; reflexivity| |lia].
  unfold string_of_Z. simpl.
  pose proof (to_uint_head p) as Hhead.
  pose proof (uint_text_digits (Pos.to_uint p)) as Hdigits.
  pose proof (of_uint_value (Pos.to_uint p)) as Hvalue.
  rewrite DecimalPos.Unsigned.of_to in Hvalue. simpl in Hvalue.
  unfold NilZero.string_of_uint.
  destruct (Pos.to_uint p) as [|u|u|u|u|u|u|u|u|u|u] eqn:E;
    try contradiction;
    (split;
     [ unfold all_chars; simpl; simpl in Hdigits; exact Hdigits
     | unfold numeric_literal; simpl; symmetry; exact Hvalue ]).
Qed.

Lemma string_of_Z_inj (n m : Z) : string_of_Z n = string_of_Z m -> n = m.
Proof.
  unfold string_of_Z. intros Heq.
  apply DecimalZ.to_int_inj.
  assert (Hgood : forall z, Z.to_int z <> Decimal.Pos Decimal.Nil
                            /\ Z.to_int z <> Decimal.Neg Decimal.Nil).
  { intros [|q|q]; simpl; split; try discriminate;
      intros Hq; injection Hq as Hq;
      now apply (DecimalPos.Unsigned.to_uint_nonnil q). }
  pose proof (NilZero.isi (Z.to_int n) (proj1 (Hgood n)) (proj2 (Hgood n))) as Hn.
  pose proof (NilZero.isi (Z.to_int m) (proj1 (Hgood m)) (proj2 (Hgood m))) as Hm.
  rewrite Heq in Hn. rewrite Hn in Hm. now injection Hm.
Qed.

End DecimalText.

(** ** The retry-condition compiler *)

Section RetryConditionFacts.

Import RetryCondition Facts Exact Samples.

Variable stringify : value -> option string.

Lemma map_outcome_ok {A B} (f : A -> outcome B) (l : list A) (r : list B) :
  map_outcome f l = Ok r -> Forall2 (fun x y => f x = Ok y) l r.
Proof.
  revert r. induction l as [|x l IH]; simpl; intros r H.
  - injection H as <-. constructor.
  - destruct (f x) as [y| |] eqn:Hx; simpl in H; try discriminate.
    destruct (map_outcome f l) as [ys| |] eqn:Hl; simpl in H; try discriminate.
    injection H as <-. constructor; auto.
Qed.

Lemma toString_ok (option : value) (opt : string) :
  toString option = Ok opt -> opt = to_string option.
Proof. destruct option; simpl; intros H; try discriminate; now injection H. Qed.

(** Text without an apostrophe, a backslash or a line end is read back
    from between single quotes as it is. *)
Lemma single_quoted_plain (body : list ascii) :
  forallb (fun c => negb (Ascii.eqb c "'" || Ascii.eqb c "\"
                          || Ascii.eqb c "010" || Ascii.eqb c "013")) body = true ->
  single_quoted body = Some body.
Proof.
  induction body as [|c body IH]; [reflexivity|].
  cbn [forallb]. intros H. apply andb_true_iff in H as [Hc Hbody].
  apply negb_true_iff in Hc.
  apply orb_false_iff in Hc as [Hc Hcr].
  apply orb_false_iff in Hc as [Hc Hlf].
  apply orb_false_iff in Hc as [Hquote Hslash].
  cbn [single_quoted]. rewrite Hslash, Hquote, Hlf, Hcr. cbn [orb].
  now rewrite (IH Hbody).
Qed.

Lemma single_quoted_quotable (text : string) :
  quotable "'" text = true ->
  single_quoted (list_ascii_of_string text) = Some (list_ascii_of_string text).
Proof. apply single_quoted_plain. Qed.

(** One generated comparison computes the reading of its option, where the
    text of the option is pasted as it is. *)
Lemma createCondition_sound (name : string) (option : value) (a : atom)
    (res : list (string * value)) :
  (String.eqb name "status" = false -> option_unescaped stringify option = true) ->
  createCondition stringify name option = Ok a ->
  run_atom stringify a (VObj res) = Ok (option_holds stringify name option res).
Proof.
  unfold createCondition, option_holds, option_unescaped.
  destruct (String.eqb name "status") eqn:Hname.
  - intros _.
    destruct (toString option) as [opt| |] eqn:Hopt; simpl; try discriminate.
    apply toString_ok in Hopt. subst opt.
    destruct (all_chars is_digit (to_string option)).
    + intros H. injection H as <-. reflexivity.
    + destruct (all_chars is_digit_or_x (to_string option)); [|discriminate].
      intros H. injection H as <-. reflexivity.
  - intros Htext. specialize (Htext eq_refl).
    destruct (quotable "034" name); [|discriminate].
    rewrite (single_quoted_quotable _ Htext), string_of_list_ascii_of_string.
    intros H. injection H as <-. reflexivity.
Qed.

Lemma run_or_sound (name : string) (options : list value) (atoms : list atom)
    (res : list (string * value)) :
  (String.eqb name "status" = false ->
   forallb (option_unescaped stringify) options = true) ->
  Forall2 (fun o a => createCondition stringify name o = Ok a) options atoms ->
  run_or stringify atoms (VObj res)
  = Ok (existsb (fun o => option_holds stringify name o res) options).
Proof.
  intros Htext Hall.
  induction Hall as [|o a options atoms Ha Hrest IH]; [reflexivity|].
  assert (Ho : String.eqb name "status" = false ->
               option_unescaped stringify o = true).
  { intros Hname. specialize (Htext Hname). cbn [forallb] in Htext.
    now apply andb_true_iff in Htext as [Ho _]. }
  assert (Hoptions : String.eqb name "status" = false ->
                     forallb (option_unescaped stringify) options = true).
  { intros Hname. specialize (Htext Hname). cbn [forallb] in Htext.
    now apply andb_true_iff in Htext as [_ Hoptions]. }
  apply (createCondition_sound _ _ _ res Ho) in Ha.
  simpl. destruct atoms as [|a' atoms'].
  - inversion Hrest; subst. simpl. rewrite Ha. now rewrite orb_false_r.
  - rewrite Ha. simpl.
    destruct (option_holds stringify name o res); [reflexivity|exact (IH Hoptions)].
Qed.

Lemma entry_exact_options (entry : string * value) :
  entry_exact stringify entry = true ->
  String.eqb entry.1 "status" = false ->
  forallb (option_unescaped stringify) (options_of entry.2) = true.
Proof.
  unfold entry_exact. intros H Hname. rewrite Hname in H.
  now apply andb_true_iff in H as [_ H].
Qed.

Lemma compile_clause_sound (entry : string * value) (c : clause)
    (res : list (string * value)) :
  entry_exact stringify entry = true ->
  compile_clause stringify entry = Ok c ->
  run_clause stringify c (VObj res) = Ok (field_holds stringify res entry).
Proof.
  intros Hexact. pose proof (entry_exact_options entry Hexact) as Htext.
  clear Hexact. destruct entry as [name v]. cbn [fst snd] in Htext.
  unfold compile_clause, field_holds. simpl.
  destruct v;
    try (destruct (createCondition stringify name _) as [a| |] eqn:Ha;
         simpl; try discriminate;
         intros H; injection H as <-; simpl;
         apply createCondition_sound; [|exact Ha];
         intros Hname; specialize (Htext Hname); cbn [options_of forallb] in Htext;
         now apply andb_true_iff in Htext as [Ho _]).
  destruct (map_outcome (createCondition stringify name) items) as [atoms| |] eqn:Hm;
    simpl; try discriminate.
  intros H. injection H as <-. simpl.
  apply run_or_sound; [exact Htext|]. now apply map_outcome_ok.
Qed.

Lemma run_sound (fields : list (string * value)) (condition : list clause)
    (res : list (string * value)) :
  forallb (entry_exact stringify) fields = true ->
  Forall2 (fun entry c => compile_clause stringify entry = Ok c) fields condition ->
  run stringify condition (VObj res) = Ok (forallb (field_holds stringify res) fields).
Proof.
  intros Hexact Hall.
  induction Hall as [|entry c fields condition Hc Hrest IH]; [reflexivity|].
  cbn [forallb] in Hexact. apply andb_true_iff in Hexact as [Hentry Hfields].
  apply (compile_clause_sound _ _ res Hentry) in Hc.
  simpl. destruct condition as [|c' condition'].
  - inversion Hrest; subst. simpl. rewrite Hc. now rewrite andb_true_r.
  - rewrite Hc. simpl.
    destruct (field_holds stringify res entry); [exact (IH Hfields)|reflexivity].
Qed.


(** C4, at a failing input.  The stanza [{body: 'say "hi"'}] asks for a
    result whose body is the string [say "hi"].  The JSON text of the
    option, ["say \"hi\""], is pasted between single quotes without
    escaping, and the literal denotes the text without the backslashes:
    on the result whose body is that very string the classifier answers
    [false], where the per-field condition holds. *)
Theorem quoted_option_misses_its_own_value :
  stringify (VStr said) = Some (json_string said) ->
  _compileErrorCheckCondition stringify said_stanza
  = Ok [Single (FieldIs "body" said_read)]
  /\ run stringify [Single (FieldIs "body" said_read)] (VObj [("body", VStr said)])
     = Ok false
  /\ stanza_holds stringify said_stanza [("body", VStr said)] = true.
Proof.
  intros Hjson. split; [|split].
  - unfold _compileErrorCheckCondition, said_stanza.
    cbn [entries map_outcome compile_clause bind].
    unfold createCondition.
    change (String.eqb "body" "status") with false. cbv iota.
    rewrite Hjson. reflexivity.
  - cbn [run run_clause run_atom].
    change (get_prop (VObj [("body", VStr said)]) "body") with (Ok (VStr said)).
    cbn [bind]. rewrite Hjson. reflexivity.
  - unfold stanza_holds, said_stanza. cbn [entries forallb].
    unfold field_holds. cbn [fst snd]. unfold option_holds.
    change (String.eqb "body" "status") with false. cbv iota.
    change (field [("body", VStr said)] "body") with (VStr said).
    rewrite Hjson. cbn [default]. now rewrite String.eqb_refl.
Qed.

(** *** Status options *)

Lemma wildcard_is_replaced_pattern (pattern subject : list ascii) :
  forallb is_digit_or_x pattern = true ->
  rx_match (rx_items (replace_x (string_of_list_ascii pattern))) subject
  = wildcard_match pattern subject.
Proof.
  revert subject. induction pattern as [|p pattern IH]; intros subject Hp.
  - reflexivity.
  - simpl in Hp. apply andb_true_iff in Hp as [Hp Hrest].
    simpl. destruct (Ascii.eqb p "x") eqn:Hx.
    + simpl. destruct subject as [|c subject]; [reflexivity|].
      now rewrite IH.
    + unfold is_digit_or_x in Hp. rewrite Hx, orb_false_r in Hp.
      assert (Hrx : rx_items (String p (replace_x (string_of_list_ascii pattern)))
                    = RChar p :: rx_items (replace_x (string_of_list_ascii pattern))).
      { simpl. destruct p as [[|] [|] [|] [|] [|] [|] [|] [|]];
          try discriminate Hp; reflexivity. }
      rewrite Hrx. simpl. destruct subject as [|c subject]; [reflexivity|].
      now rewrite IH.
Qed.

Lemma fifty_x_shape (subject : list ascii) :
  wildcard_match digits_50x subject = true ->
  exists c, subject = ["5"; "0"; c]%char /\ is_digit c = true.
Proof.
  unfold digits_50x.
  destruct subject as [|c1 [|c2 [|c3 [|c4 rest]]]];
    cbn [wildcard_match];
    change (Ascii.eqb "5" "x") with false;
    change (Ascii.eqb "0" "x") with false;
    change (Ascii.eqb "x" "x") with true;
    cbv iota; intros Hw;
    repeat match type of Hw with
           | (_ && _) = true => apply andb_true_iff in Hw as [? Hw]
           end;
    try discriminate.
  exists c3.
  repeat match goal with
         | H : Ascii.eqb _ _ = true |- _ => apply Ascii.eqb_eq in H
         end.
  subst. split; [reflexivity|assumption].
Qed.

Lemma fifty_x_range (n : Z) :
  wildcard_match digits_50x (list_ascii_of_string (string_of_Z n))
  = (500 <=? n) && (n <=? 509).
Proof.
  destruct ((500 <=? n) && (n <=? 509)) eqn:Hr.
  - apply andb_true_iff in Hr as [Hlo Hhi].
    apply Z.leb_le in Hlo. apply Z.leb_le in Hhi.
    assert (Hcases : n = 500 \/ n = 501 \/ n = 502 \/ n = 503 \/ n = 504
                     \/ n = 505 \/ n = 506 \/ n = 507 \/ n = 508 \/ n = 509) by lia.
    repeat (destruct Hcases as [-> | Hcases]; [reflexivity|]).
    subst n. reflexivity.
  - destruct (wildcard_match digits_50x (list_ascii_of_string (string_of_Z n)))
      eqn:Hw; [|reflexivity].
    exfalso.
    apply fifty_x_shape in Hw as (c & Hs & Hc).
    assert (Htext : string_of_Z n = String "5" (String "0" (String c EmptyString))).
    { rewrite <- (string_of_list_ascii_of_string (string_of_Z n)), Hs. reflexivity. }
    assert (Hn : 500 <= n <= 509).
    { destruct c as [[|] [|] [|] [|] [|] [|] [|] [|]]; try discriminate Hc;
        match type of Htext with
        | string_of_Z n = ?s =>
            let m := eval vm_compute in (numeric_literal s) in
            apply (string_of_Z_inj n m) in Htext; lia
        end. }
    apply andb_false_iff in Hr as [Hr | Hr]; apply Z.leb_gt in Hr; lia.
Qed.

(** C2, as stated, fails.  The pattern ["50x"] compiles to the test
    [/^50\d$/], not [/^5\d\d$/]: the classifier answers [false] on status
    510, which lies between 500 and 599. *)
Lemma fifty_x_rejects_510 :
  _compileErrorCheckCondition (fun _ => None) (VObj [("status", VStr "50x")])
  = Ok [Single (StatusLike body_50d)]
  /\ run (fun _ => None)
       [Single (StatusLike body_50d)]
       (VObj [("status", VNum 510)])
     = Ok false
  /\ (500 <=? 510) && (510 <=? 599) = true.
Proof. repeat split; reflexivity. Qed.

(** C2, amended.  In a stanza, (1) a status option that is a number
    [0 <= n <= 2^53 - 1], a safe integer, compiles to a test that is true
    exactly when the result's status is that number; (2) a status option of
    digits and at least one [x] compiles to the test of the option with [\d]
    written for every [x], which on a status that prints exactly (a safe
    integer, a string) is true exactly when the text of the status has the
    option's length and agrees with it character by character, any digit
    standing where the option has [x]; (3) in particular ["50x"] is true of a numeric status exactly from
    500 to 509; (4) a status option whose text is neither digits nor digits
    and [x] makes compilation throw. *)
Theorem status_option_semantics :
  (forall (n : Z) (res : list (string * value)),
      0 <= n ->
      is_safe_integer n = true ->
      _compileErrorCheckCondition stringify (VObj [("status", VNum n)])
      = Ok [Single (StatusIs n)]
      /\ run stringify [Single (StatusIs n)] (VObj res)
         = Ok (match field res "status" with
               | VNum m => m =? n
               | _ => false
               end))
  /\ (forall (pattern : string) (res : list (string * value)),
         all_chars is_digit pattern = false ->
         all_chars is_digit_or_x pattern = true ->
         prints_exactly (field res "status") = true ->
         _compileErrorCheckCondition stringify (VObj [("status", VStr pattern)])
         = Ok [Single (StatusLike (replace_x pattern))]
         /\ run stringify [Single (StatusLike (replace_x pattern))] (VObj res)
            = Ok (wildcard_match (list_ascii_of_string pattern)
                    (list_ascii_of_string (to_string (field res "status")))))
  /\ (forall (n : Z),
         _compileErrorCheckCondition stringify (VObj [("status", VStr "50x")])
         = Ok [Single (StatusLike (replace_x "50x"))]
         /\ run stringify [Single (StatusLike (replace_x "50x"))]
              (VObj [("status", VNum n)])
            = Ok ((500 <=? n) && (n <=? 509)))
  /\ (forall (option : value),
         all_chars is_digit (to_string option) = false ->
         all_chars is_digit_or_x (to_string option) = false ->
         (exists e, createCondition stringify "status" option = Throw e)
         /\ (exists e, _compileErrorCheckCondition stringify
                         (VObj [("status", VArr [option])]) = Throw e)
         /\ ((forall items, option <> VArr items) ->
             exists e, _compileErrorCheckCondition stringify
                         (VObj [("status", option)]) = Throw e)).
Proof.
  split; [|split; [|split]].
  - intros n res Hn _. destruct (text_of_natural n Hn) as [Hdigits Hvalue].
    unfold _compileErrorCheckCondition. simpl.
    unfold createCondition. simpl.
    change (to_string (VNum n)) with (string_of_Z n).
    rewrite Hdigits, Hvalue. simpl. split; reflexivity.
  - intros pattern res Hnd Hdx _.
    unfold _compileErrorCheckCondition. simpl.
    unfold createCondition. simpl. rewrite Hnd, Hdx. simpl.
    split; [reflexivity|].
    unfold anchored_test. f_equal.
    rewrite <- (string_of_list_ascii_of_string pattern) at 1.
    apply wildcard_is_replaced_pattern.
    unfold all_chars in Hdx.
    destruct (list_ascii_of_string pattern); [discriminate|exact Hdx].
  - intros n. split; [reflexivity|].
    simpl. unfold anchored_test. f_equal.
    change (to_string (field [("status", VNum n)] "status")) with (string_of_Z n).
    rewrite <- fifty_x_range.
    apply (wildcard_is_replaced_pattern digits_50x). reflexivity.
  - intros option Hnd Hdx.
    assert (Hthrow : exists e, createCondition stringify "status" option = Throw e).
    { unfold createCondition. simpl.
      destruct option; simpl; try (eexists; reflexivity);
        simpl in Hnd, Hdx; rewrite ?Hnd, ?Hdx; try (eexists; reflexivity). }
    destruct Hthrow as [e He].
    split; [now exists e|]. split.
    + exists e. unfold _compileErrorCheckCondition. simpl. now rewrite He.
    + intros Hscalar. exists e. unfold _compileErrorCheckCondition. simpl.
      destruct option; try (now rewrite He). now elim (Hscalar items).
Qed.

End RetryConditionFacts.

(** ** The match compiler *)

Section MatcherFacts.

Import RetryCondition Matcher Facts.

Variable regex_exec : string -> string -> option (list (option string)).

Local Abbreviation eval := (Matcher.eval regex_exec).
Local Abbreviation bound := (Facts.bound regex_exec).
Local Abbreviation text_true := (Facts.text_true regex_exec).

(** C1, at a failing input.  The predicate compiled from the match tree
    [{meta: {uri: '/sample/uri'}}] is [message['meta']['uri'] === ...]; on
    an event without [meta] it does not return [false], it throws. *)
Theorem missing_nested_field_throws :
  _processMatch nested_uri_match
  = Ok (Some {| test := Code (Eq (Get (Get (Var "message") "meta") "uri")
                                 (CStr "/sample/uri"));
                expand := Object [("meta", Object [("uri", Const (CStr "/sample/uri"))])] |})
  /\ call regex_exec
       (Code (Eq (Get (Get (Var "message") "meta") "uri") (CStr "/sample/uri")))
       (VObj [("message", VStr "test")])
     = Throw (TypeError "Cannot read property 'uri' of undefined").
Proof. split; reflexivity. Qed.

(** The same for every tree of that shape: reading a field of a parent
    that the event lacks throws, whatever is tested below it. *)
Lemma missing_parent_throws (parent child : string) (c : constant)
    (fields : list (string * value)) :
  assoc parent fields = None ->
  call regex_exec (Code (Eq (Get (Get (Var "message") parent) child) c)) (VObj fields)
  = Throw (TypeError ("Cannot read property '" +:+ child +:+ "' of undefined")).
Proof.
  intros Hmissing. unfold call. cbn [Matcher.eval]. unfold lookup_var.
  change (assoc "message" [("message", VObj fields)]) with (Some (VObj fields)).
  cbn [bind get_prop]. rewrite Hmissing. reflexivity.
Qed.

(** A field missing at the top level, by contrast, makes a constant test
    answer [false]. *)
Lemma missing_top_field_is_false (key s : string) (fields : list (string * value)) :
  assoc key fields = None ->
  String.eqb "constructor" key = false ->
  String.eqb s "undefined" = false ->
  is_regex_string s = false ->
  quotable "'" s = true ->
  quotable "'" key = true ->
  _compileMatch (VObj [(key, VStr s)]) [] (Var "message") NoField
  = Ok (Code (Eq (Get (Var "message") key) (CStr s)),
        [(key, BExpr (Const (CStr s)))])
  /\ call regex_exec (Code (Eq (Get (Var "message") key) (CStr s))) (VObj fields)
     = Ok (VBool false).
Proof.
  intros Hmissing Hctor Hundef Hregex Hs Hkey. split.
  - cbn [_compileMatch assoc]. rewrite Hctor.
    cbn [given compile_fields]. rewrite Hkey.
    cbn [negb _compileMatch]. rewrite Hundef, Hregex, Hs. reflexivity.
  - unfold call. cbn [Matcher.eval]. unfold lookup_var.
    change (assoc "message" [("message", VObj fields)]) with (Some (VObj fields)).
    cbn [bind get_prop]. rewrite Hmissing. reflexivity.
Qed.

(** C8, at a failing input.  The string [/[(?<a>](?<b>x)(y)/] has the named
    group [b] and an unnamed group.  The marker inside the character class is
    counted as a name although it opens no group there, the two counts agree,
    and the tree compiles: the binder names the groups [a] and [b]. *)
Theorem marker_in_class_hides_mixing :
  written_groups false (list_ascii_of_string class_marker_regex) = [Some "b"; None]
  /\ mixes_named_and_unnamed class_marker_regex = true
  /\ replace_markers 0 (list_ascii_of_string class_marker_regex)
     = (["a"; "b"], list_ascii_of_string "/[(](x)(y)/")
  /\ numGroups_of (list_ascii_of_string "/[(](x)(y)/") = Some 2%nat
  /\ _processMatch (VObj [("f", VStr class_marker_regex)])
     = Ok (Some {| test := Code (Test "/[(](x)(y)/" (Get (Var "message") "f"));
                   expand := Object [("f", Captures "/[(](x)(y)/" ["a"; "b"]
                                             (Get (Var "message") "f"))] |}).
Proof. repeat split; reflexivity. Qed.

(** Where the markers are the groups, the guard does reject the mix. *)
Lemma plain_mixing_is_rejected :
  mixes_named_and_unnamed "/(?<b>x)(y)/" = true
  /\ _processMatch (VObj [("f", VStr "/(?<b>x)(y)/")])
     = Throw (Error (mixing_message "/(?<b>x)(y)/")).
Proof. split; reflexivity. Qed.

(** *** The binder of a tree whose predicate is true *)

Lemma bound_object (env : list (string * value)) (fields : list (string * binding)) :
  bound env (BObj fields) <-> Forall (fun kv => bound env kv.2) fields.
Proof.
  simpl. induction fields as [|[k b] fields IH].
  - split; constructor.
  - split.
    + intros [Hb Hrest]. constructor; [exact Hb|now apply IH].
    + intros H. inversion H; subst. split; [assumption|now apply IH].
Qed.

Lemma assoc_set_Forall {A} (P : A -> Prop) (k : string) (x : A)
    (fs : list (string * A)) :
  P x -> Forall (fun kv => P kv.2) fs -> Forall (fun kv => P kv.2) (assoc_set k x fs).
Proof.
  intros Hx. induction 1 as [|[k' x'] fs Hh Ht IH]; simpl.
  - constructor; [exact Hx|constructor].
  - destruct (String.eqb k k'); constructor; auto.
Qed.

Lemma assoc_set_forallb {A} (p : A -> bool) (k : string) (x : A)
    (fs : list (string * A)) :
  p x = true -> forallb (fun kv => p kv.2) fs = true ->
  forallb (fun kv => p kv.2) (assoc_set k x fs) = true.
Proof.
  intros Hx. induction fs as [|[k' x'] fs IH]; simpl.
  - now rewrite Hx.
  - intros H. apply andb_true_iff in H as [Hh Ht].
    destruct (String.eqb k k'); simpl.
    + now rewrite Hx, Ht.
    + now rewrite Hh, IH.
Qed.

Lemma and_true (env : list (string * value)) (a b : expr) (v : value) :
  eval env (And a b) = Ok v -> truthy v = true ->
  (exists va, eval env a = Ok va /\ truthy va = true) /\ eval env b = Ok v.
Proof.
  simpl. destruct (eval env a) as [va| |]; simpl; try discriminate.
  destruct (truthy va) eqn:Hva.
  - intros Hb Hv. split; [now exists va|exact Hb].
  - intros H Hv. injection H as <-. congruence.
Qed.

Lemma and_all_true (env : list (string * value)) (others : list text)
    (first : expr) (v : value) :
  forallb is_code others = true ->
  eval env (and_all first others) = Ok v -> truthy v = true ->
  text_true env (Code first) /\ Forall (text_true env) others.
Proof.
  revert first v. induction others as [|t others IH]; intros first v Hcode Hv Ht.
  - split; [|constructor]. now exists first, v.
  - simpl in Hcode. apply andb_true_iff in Hcode as [Hc Hcode].
    destruct t as [|e|]; try discriminate.
    unfold and_all in Hv. simpl in Hv.
    destruct (IH (And first e) v Hcode Hv Ht) as [(e0 & v0 & He0 & Hev & Htr) Hrest].
    injection He0 as <-.
    destruct (and_true env first e v0 Hev Htr) as [(va & Ha & Hta) Hb].
    split; [now exists first, va|].
    constructor; [now exists e, v0|exact Hrest].
Qed.

Lemma join_and_single (t : text) : join_and [t] = t.
Proof. now destruct t. Qed.

Lemma join_and_many (t t' : text) (parts : list text) :
  join_and (t :: t' :: parts)
  = match t with
    | Code e =>
        if forallb is_code (t' :: parts)
        then Code (and_all e (t' :: parts)) else Malformed
    | _ => Malformed
    end.
Proof. now destruct t. Qed.

Lemma join_and_true (env : list (string * value)) (parts : list text) :
  text_true env (join_and parts) -> Forall (text_true env) parts.
Proof.
  destruct parts as [|t [|t' parts]].
  - intros (e & v & H & _). discriminate.
  - rewrite join_and_single. intros H. now constructor.
  - rewrite join_and_many.
    destruct t as [|e|]; try (intros (e0 & v & H & _); discriminate).
    destruct (forallb is_code (t' :: parts)) eqn:Hcode;
      [|intros (e0 & v & H & _); discriminate].
    intros (e0 & v & He0 & Hev & Htr). injection He0 as <-.
    destruct (and_all_true env (t' :: parts) e v Hcode Hev Htr) as [Hfirst Hrest].
    now constructor.
Qed.

Lemma constant_bound (env : list (string * value)) (c : constant) :
  bound env (BExpr (Const c)).
Proof. exists (constant_value c). split; [reflexivity|now destruct c]. Qed.

Lemma captures_well_formed (names : list string) (execRes : list (option string)) :
  well_formed (captures_object names execRes) = true.
Proof.
  unfold captures_object.
  change (well_formed (VObj ?fs)) with (forallb (fun kv => well_formed kv.2) fs).
  generalize (imap (fun i n => (i, n)) names).
  intros entries.
  assert (Hacc : forallb (fun kv : string * value => well_formed kv.2) [] = true)
    by reflexivity.
  revert Hacc. generalize (@nil (string * value)).
  induction entries as [|[i n] entries IH]; intros acc Hacc; simpl; [exact Hacc|].
  apply IH. apply assoc_set_forallb; [|exact Hacc].
  now destruct (nth (S i) execRes None).
Qed.

Lemma named_regex_bound (env : list (string * value)) (obj : string)
    (result : list (string * binding)) (name : expr) (fieldName : field_name)
    (t : text) (result' : list (string * binding)) :
  _compileNamedRegex obj result name fieldName = Ok (t, result') ->
  text_true env t ->
  Forall (fun kv => bound env kv.2) result ->
  Forall (fun kv => bound env kv.2) result'.
Proof.
  unfold _compileNamedRegex.
  destruct (replace_markers 0 (list_ascii_of_string obj)) as [captureNames normal].
  destruct (numGroups_of normal) as [numGroups|]; [|discriminate].
  destruct (negb (Nat.eqb (length captureNames) 0) && _); [discriminate|].
  destruct (negb (literal_closed normal)); [discriminate|].
  intros H Htrue Hresult. injection H as <- <-.
  destruct (flags_distinct normal);
    [|destruct Htrue as (e & v & H & _); discriminate].
  destruct Htrue as (e & v & He & Hev & Htr). injection He as <-.
  simpl in Hev.
  destruct (eval env name) as [subject| |] eqn:Hname; simpl in Hev; try discriminate.
  injection Hev as <-.
  destruct (regex_exec (string_of_list_ascii normal) (to_string subject))
    as [execRes|] eqn:Hexec; [|discriminate].
  apply assoc_set_Forall; [|exact Hresult].
  destruct captureNames as [|n names].
  - exists (VArr (map capture_value execRes)). simpl.
    rewrite Hname. simpl. rewrite Hexec. split; reflexivity.
  - exists (captures_object (n :: names) execRes). simpl.
    rewrite Hname. simpl. rewrite Hexec.
    split; [reflexivity|exact (captures_well_formed (n :: names) execRes)].
Qed.

Lemma compile_fields_bound (env : list (string * value)) (name : expr)
    (fs : list (string * value)) :
  Forall (fun kv =>
            forall result name fieldName t result',
              _compileMatch kv.2 result name fieldName = Ok (t, result') ->
              text_true env t ->
              Forall (fun kb => bound env kb.2) result ->
              Forall (fun kb => bound env kb.2) result') fs ->
  forall subObj parts subObj',
    compile_fields _compileMatch name fs subObj = Ok (parts, subObj') ->
    Forall (text_true env) parts ->
    Forall (fun kb => bound env kb.2) subObj ->
    Forall (fun kb => bound env kb.2) subObj'.
Proof.
  induction 1 as [|[key v] fs Hv Hfs IH]; intros subObj parts subObj' Hc Hparts Hsub.
  - simpl in Hc. injection Hc as <- <-. exact Hsub.
  - simpl in Hc. destruct (negb (quotable "'" key)); [discriminate|].
    destruct (_compileMatch v subObj (Get name key) (Key key)) as [[t1 r1]| |] eqn:H1;
      simpl in Hc; try discriminate.
    destruct (compile_fields _compileMatch name fs r1) as [[ts r2]| |] eqn:H2;
      simpl in Hc; try discriminate.
    injection Hc as <- <-.
    inversion Hparts as [|? ? Ht1 Hts]; subst.
    apply (IH r1 ts r2 H2 Hts).
    apply (Hv subObj (Get name key) (Key key) t1 r1 H1 Ht1 Hsub).
Qed.

(** The compiler keeps the stored text bound wherever the test it returns
    is true. *)
Lemma compileMatch_bound (env : list (string * value)) (obj : value) :
  forall result name fieldName t result',
    _compileMatch obj result name fieldName = Ok (t, result') ->
    text_true env t ->
    Forall (fun kv => bound env kv.2) result ->
    Forall (fun kv => bound env kv.2) result'.
Proof.
  induction obj as [| |b|n|s|items|fs IH] using value_fields_ind;
    intros result name fieldName t result' Hc Htrue Hresult; simpl in Hc;
    try discriminate.
  - injection Hc as <- <-. apply assoc_set_Forall; [exact I|exact Hresult].
  - injection Hc as <- <-. apply assoc_set_Forall; [exact I|exact Hresult].
  - destruct (String.eqb s "undefined").
    + injection Hc as <- <-. exact Hresult.
    + destruct (negb (is_regex_string s)).
      * destruct (quotable "'" s); [|discriminate].
        injection Hc as <- <-. apply assoc_set_Forall; [|exact Hresult].
        apply constant_bound.
      * now apply (named_regex_bound env s result name fieldName t result').
  - destruct (compile_items _compileMatch items 0) as [checks| |];
      simpl in Hc; try discriminate.
    injection Hc as <- <-. exact Hresult.
  - destruct (assoc "constructor" fs).
    { injection Hc as <- <-. destruct Htrue as (e0 & v0 & H0 & _). discriminate. }
    destruct (compile_fields _compileMatch name fs
                (if given fieldName then [] else result)) as [[parts subObj']| |] eqn:Hf;
      simpl in Hc; try discriminate.
    injection Hc as <- <-.
    apply join_and_true in Htrue.
    destruct (given fieldName).
    + apply assoc_set_Forall; [|exact Hresult].
      apply bound_object.
      apply (compile_fields_bound env name fs IH [] parts subObj' Hf Htrue).
      constructor.
    + apply (compile_fields_bound env name fs IH result parts subObj' Hf Htrue Hresult).
Qed.

Lemma eval_fields_bound (env : list (string * value))
    (fields : list (string * binding)) :
  Forall (fun kv =>
            forall e, _getMatchObjCode kv.2 = Ok e -> bound env kv.2 ->
                      exists v, eval env e = Ok v /\ well_formed v = true) fields ->
  forall code acc,
    fields_code _getMatchObjCode fields = Ok code ->
    Forall (fun kv => bound env kv.2) fields ->
    forallb (fun kv => well_formed kv.2) acc = true ->
    exists fs, eval_fields (eval env) code acc = Ok fs
               /\ forallb (fun kv => well_formed kv.2) fs = true.
Proof.
  induction 1 as [|[key b] fields Hb Hfields IH]; intros code acc Hc Hbound Hacc.
  - simpl in Hc. injection Hc as <-. now exists acc.
  - simpl in Hc. destruct (negb (is_identifier key)); [discriminate|].
    destruct (_getMatchObjCode b) as [e| |] eqn:He; simpl in Hc; try discriminate.
    destruct (fields_code _getMatchObjCode fields) as [es| |] eqn:Hes;
      simpl in Hc; try discriminate.
    injection Hc as <-.
    inversion Hbound as [|? ? Hb1 Hrest]; subst.
    destruct (Hb e He Hb1) as (v & Hv & Hwf).
    simpl. rewrite Hv. simpl.
    apply (IH es (assoc_set key v acc) eq_refl Hrest).
    now apply assoc_set_forallb.
Qed.

(** The text written for what is bound evaluates to a well-formed value. *)
Lemma getMatchObjCode_bound (env : list (string * value)) (b : binding) :
  forall e, _getMatchObjCode b = Ok e -> bound env b ->
            exists v, eval env e = Ok v /\ well_formed v = true.
Proof.
  induction b as [e0|raw|fields IH] using binding_fields_ind; intros e Hc Hb.
  - simpl in Hc. injection Hc as <-. exact Hb.
  - destruct raw; simpl in Hc; try discriminate; injection Hc as <-;
      eexists; split; reflexivity.
  - simpl in Hc.
    destruct (fields_code _getMatchObjCode fields) as [code| |] eqn:Hcode;
      simpl in Hc; try discriminate.
    injection Hc as <-.
    apply bound_object in Hb.
    destruct (eval_fields_bound env fields IH code [] Hcode Hb eq_refl)
      as (fs & Hfs & Hwf).
    exists (VObj fs). simpl. rewrite Hfs. simpl. split; [reflexivity|exact Hwf].
Qed.



End MatcherFacts.

(** ** The [Rule] class *)

Section ObjectFacts.

Lemma field_assoc_set_same (k : string) (v : value) (fs : list (string * value)) :
  field (assoc_set k v fs) k = v.
Proof.
  unfold field. induction fs as [|[k' v'] fs IH]; simpl.
  - now rewrite String.eqb_refl.
  - destruct (String.eqb k k') eqn:E; simpl.
    + now rewrite String.eqb_refl.
    + now rewrite E.
Qed.

Lemma field_assoc_set_other (k k' : string) (v : value) (fs : list (string * value)) :
  String.eqb k' k = false ->
  field (assoc_set k v fs) k' = field fs k'.
Proof.
  intros Hne. unfold field. induction fs as [|[k0 v0] fs IH]; simpl.
  - now rewrite Hne.
  - destruct (String.eqb k k0) eqn:E; simpl.
    + apply String.eqb_eq in E. subst k0. now rewrite Hne.
    + destruct (String.eqb k' k0); [reflexivity|exact IH].
Qed.

Lemma js_or_truthy (a b : value) : truthy b = true -> truthy (js_or a b) = true.
Proof. unfold js_or. intros Hb. now destruct (truthy a) eqn:E. Qed.

Lemma js_or_falsy (a b : value) : truthy a = false -> js_or a b = b.
Proof. unfold js_or. now intros ->. Qed.

End ObjectFacts.

Section RuleFacts.

Import RetryCondition Matcher Rule Facts Samples.

Variable stringify : value -> option string.
Variable regex_exec : string -> string -> option (list (option string)).

(** The [spec] of a constructed rule is the given one with the five retry
    settings written over in turn. *)
Lemma constructed_spec (name : string) (spec : value) (r : Rule.t) :
  Rule.new stringify name spec = Ok r ->
  let given_spec := own_fields (js_or spec (VObj [])) in
  let s1 := assoc_set "retry_on" (js_or (field given_spec "retry_on") default_retry_on) given_spec in
  let s2 := assoc_set "ignore" (js_or (field s1 "ignore") default_ignore) s1 in
  let s3 := assoc_set "retry_delay"
              (js_or (field s2 "retry_delay") (VNum DEFAULT_RETRY_DELAY)) s2 in
  let s4 := assoc_set "retry_limit"
              (js_or (field s3 "retry_limit") (VNum DEFAULT_RETRY_LIMIT)) s3 in
  let s5 := assoc_set "retry_factor"
              (js_or (field s4 "retry_factor") (VNum DEFAULT_RETRY_FACTOR)) s4 in
  Rule.spec r = s5
  /\ _compileErrorCheckCondition stringify (field s5 "retry_on") = Ok (shouldRetry r)
  /\ _compileErrorCheckCondition stringify (field s5 "ignore") = Ok (shouldIgnoreError r)
  /\ truthy (field given_spec "topic") = true.
Proof.
  intros H given_spec s1 s2 s3 s4 s5. unfold Rule.new in H.
  fold given_spec in H.
  destruct (truthy (field given_spec "topic")) eqn:Htopic; [|discriminate].
  simpl in H. fold s1 s2 s3 s4 s5 in H.
  destruct (_compileErrorCheckCondition stringify (field s5 "retry_on"))
    as [retry| |]; try discriminate.
  destruct (_compileErrorCheckCondition stringify (field s5 "ignore"))
    as [ignore| |]; try discriminate.
  simpl in H.
  destruct (js_or (field s5 "cases") (VArr [VObj s5])); try discriminate.
  destruct (map_outcome _ items) as [options| |]; try discriminate.
  simpl in H. injection H as <-. simpl. auto.
Qed.

(** C9.  In every constructed rule, each of [retry_on], [ignore],
    [retry_delay], [retry_limit] and [retry_factor] that the given spec
    carries with a false value (absent, [0], [null], the empty string) is
    replaced by its default, and the two classifiers are compiled from the
    replaced stanzas; so the constructed rule never carries a zero delay,
    limit or factor. *)
Theorem falsy_retry_settings_become_defaults
    (name : string) (spec : value) (r : Rule.t) :
  Rule.new stringify name spec = Ok r ->
  (truthy (field (own_fields spec) "retry_on") = false ->
     field (Rule.spec r) "retry_on" = VObj [("status", VArr [VStr "50x"])]
     /\ shouldRetry r = [AnyOf [StatusLike body_50d]])
  /\ (truthy (field (own_fields spec) "ignore") = false ->
        field (Rule.spec r) "ignore" = VObj [("status", VArr [VNum 412])]
        /\ shouldIgnoreError r = [AnyOf [StatusIs 412]])
  /\ (truthy (field (own_fields spec) "retry_delay") = false ->
        field (Rule.spec r) "retry_delay" = VNum 60000)
  /\ (truthy (field (own_fields spec) "retry_limit") = false ->
        field (Rule.spec r) "retry_limit" = VNum 2)
  /\ (truthy (field (own_fields spec) "retry_factor") = false ->
        field (Rule.spec r) "retry_factor" = VNum 6)
  /\ field (Rule.spec r) "retry_delay" <> VNum 0
  /\ field (Rule.spec r) "retry_limit" <> VNum 0
  /\ field (Rule.spec r) "retry_factor" <> VNum 0.
Proof.
  intros Hnew.
  destruct (constructed_spec name spec r Hnew) as (Hspec & Hretry & Hignore & Htopic).
  assert (Hgiven : own_fields (js_or spec (VObj [])) = own_fields spec).
  { unfold js_or. destruct (truthy spec) eqn:E; [reflexivity|].
    unfold js_or in Htopic. rewrite E in Htopic. discriminate. }
  rewrite Hgiven in Hspec, Hretry, Hignore.
  rewrite Hspec. clear Hspec.
  repeat first [ rewrite field_assoc_set_same in *
               | rewrite field_assoc_set_other in * by reflexivity ].
  assert (Hnonzero : forall a d, truthy d = true -> js_or a d <> VNum 0).
  { intros a d Hd Hz. apply (js_or_truthy a) in Hd. rewrite Hz in Hd. discriminate. }
  split; [|split; [|split; [|split; [|split; [|split; [|split]]]]]].
  - intros Hfalse. rewrite (js_or_falsy _ _ Hfalse) in Hretry |- *.
    split; [reflexivity|]. now injection Hretry.
  - intros Hfalse. rewrite (js_or_falsy _ _ Hfalse) in Hignore |- *.
    split; [reflexivity|]. now injection Hignore.
  - intros Hfalse. now rewrite (js_or_falsy _ _ Hfalse).
  - intros Hfalse. now rewrite (js_or_falsy _ _ Hfalse).
  - intros Hfalse. now rewrite (js_or_falsy _ _ Hfalse).
  - now apply Hnonzero.
  - now apply Hnonzero.
  - now apply Hnonzero.
Qed.

(** *** Dispatch *)

Lemma accepts_true (o : option_) (message : value) :
  accepts regex_exec o message = Ok true <-> fires regex_exec o message.
Proof.
  unfold accepts, fires, holds, fails. split.
  - destruct (apply regex_exec (match_ o) message) as [m| |]; simpl; try discriminate.
    destruct (truthy m) eqn:Hm; [|discriminate].
    destruct (apply regex_exec (match_not o) message) as [n| |]; simpl; try discriminate.
    intros H. injection H as H. apply negb_true_iff in H.
    split; [exists m|exists n]; auto.
  - intros [(m & -> & Hm) (n & -> & Hn)]. simpl. now rewrite Hm, Hn.
Qed.

Lemma accepts_false (o : option_) (message : value) :
  accepts regex_exec o message = Ok false <-> passed regex_exec o message.
Proof.
  unfold accepts, passed, holds, fails. split.
  - destruct (apply regex_exec (match_ o) message) as [m| |]; simpl; try discriminate.
    destruct (truthy m) eqn:Hm; [|intros _; left; exists m; auto].
    destruct (apply regex_exec (match_not o) message) as [n| |]; simpl; try discriminate.
    intros H. injection H as H. apply negb_false_iff in H.
    right. split; [exists m|exists n]; auto.
  - intros [(m & -> & Hm) | [(m & -> & Hm) (n & -> & Hn)]]; simpl; rewrite Hm.
    + reflexivity.
    + now rewrite Hn.
Qed.

Lemma findIndex_range (options : list option_) (message : value) (start z : Z) :
  findIndex regex_exec options message start = Ok z ->
  z = -1 \/ start <= z < start + Z.of_nat (length options).
Proof.
  revert start. induction options as [|o options IH]; intros start; simpl.
  - intros H. injection H as <-. now left.
  - destruct (accepts regex_exec o message) as [[|]| |]; simpl; try discriminate.
    + intros H. injection H as <-. right. lia.
    + intros H. apply IH in H. lia.
Qed.

Lemma findIndex_hit (options : list option_) (message : value) (start : Z) (i : nat) :
  0 <= start ->
  findIndex regex_exec options message start = Ok (start + Z.of_nat i)
  <-> (exists o, nth_error options i = Some o /\ fires regex_exec o message)
      /\ (forall j o', (j < i)%nat -> nth_error options j = Some o' ->
                       passed regex_exec o' message).
Proof.
  intros Hstart. revert start Hstart i.
  induction options as [|o options IH]; intros start Hstart i; simpl.
  - split.
    + intros H. injection H as H. lia.
    + intros [(o & Ho & _) _]. now destruct i.
  - destruct (accepts regex_exec o message) as [[|]| |] eqn:Hacc; simpl.
    + apply accepts_true in Hacc. split.
      * intros H. injection H as H. assert (i = 0%nat) by lia. subst i.
        split; [exists o; auto|]. intros j o' Hj. lia.
      * intros [(o1 & Ho1 & Hfire) Hbefore].
        destruct i as [|i]; [f_equal; lia|].
        exfalso. specialize (Hbefore 0%nat o ltac:(lia) eq_refl).
        apply accepts_false in Hbefore. apply accepts_true in Hacc. congruence.
    + apply accepts_false in Hacc. split.
      * intros H. destruct i as [|i].
        -- apply findIndex_range in H. lia.
        -- replace (start + Z.of_nat (S i)) with (start + 1 + Z.of_nat i) in H by lia.
           apply IH in H; [|lia]. destruct H as [Hfire Hbefore].
           split; [exact Hfire|].
           intros [|j] o' Hj Ho'; simpl in Ho'.
           ++ now injection Ho' as <-.
           ++ apply (Hbefore j); [lia|exact Ho'].
      * intros [(o1 & Ho1 & Hfire) Hbefore]. destruct i as [|i].
        -- simpl in Ho1. injection Ho1 as <-.
           apply accepts_true in Hfire. apply accepts_false in Hacc. congruence.
        -- replace (start + Z.of_nat (S i)) with (start + 1 + Z.of_nat i) by lia.
           apply IH; [lia|]. split; [exists o1; auto|].
           intros j o' Hj Ho'. apply (Hbefore (S j)); [lia|exact Ho'].
    + split; [discriminate|].
      intros [(o1 & Ho1 & Hfire) Hbefore]. exfalso. destruct i as [|i].
      * simpl in Ho1. injection Ho1 as <-. apply accepts_true in Hfire. congruence.
      * specialize (Hbefore 0%nat o ltac:(lia) eq_refl).
        apply accepts_false in Hbefore. congruence.
    + split; [discriminate|].
      intros [(o1 & Ho1 & Hfire) Hbefore]. exfalso. destruct i as [|i].
      * simpl in Ho1. injection Ho1 as <-. apply accepts_true in Hfire. congruence.
      * specialize (Hbefore 0%nat o ltac:(lia) eq_refl).
        apply accepts_false in Hbefore. congruence.
Qed.

Lemma findIndex_miss (options : list option_) (message : value) (start : Z) :
  0 <= start ->
  findIndex regex_exec options message start = Ok (-1)
  <-> Forall (fun o => passed regex_exec o message) options.
Proof.
  revert start. induction options as [|o options IH]; intros start Hstart; simpl.
  - split; [constructor|reflexivity].
  - destruct (accepts regex_exec o message) as [[|]| |] eqn:Hacc; simpl.
    + split.
      * intros H. injection H as H. lia.
      * intros H. inversion H as [|? ? Ho _]; subst.
        apply accepts_false in Ho. congruence.
    + apply accepts_false in Hacc. rewrite IH by lia. split.
      * intros H. now constructor.
      * intros H. now inversion H.
    + split; [discriminate|].
      intros H. inversion H as [|? ? Ho _]; subst.
      apply accepts_false in Ho. congruence.
    + split; [discriminate|].
      intros H. inversion H as [|? ? Ho _]; subst.
      apply accepts_false in Ho. congruence.
Qed.

Lemma findIndex_returns (options : list option_) (message : value) (start : Z) :
  Forall (fun o => fires regex_exec o message \/ passed regex_exec o message) options ->
  exists z, findIndex regex_exec options message start = Ok z.
Proof.
  intros Hall. revert start.
  induction Hall as [|o options Ho _ IH]; intros start; simpl.
  - now exists (-1).
  - destruct Ho as [Ho | Ho].
    + apply accepts_true in Ho. rewrite Ho. simpl. now exists start.
    + apply accepts_false in Ho. rewrite Ho. simpl. apply IH.
Qed.

(** What [test] answers.  For every rule and every event, [test] returns
    the index [i] exactly when option [i] is the first, in declaration
    order, whose [match] predicate holds on the event while its [match_not]
    predicate does not, every earlier option being passed over (its
    predicates returned, and it did not fire); it returns [-1] exactly when
    every option is passed over; it returns nothing else; and it does
    return whenever the predicates of every option return.  Where a
    predicate throws before an option fires, [test] returns nothing. *)
Theorem test_returns_first_firing_option (this : Rule.t) (message : value) :
  (forall i : nat,
      Rule.test regex_exec this message = Ok (Z.of_nat i)
      <-> (exists o, nth_error (_options this) i = Some o
                     /\ fires regex_exec o message)
          /\ (forall j o', (j < i)%nat -> nth_error (_options this) j = Some o' ->
                           passed regex_exec o' message))
  /\ (Rule.test regex_exec this message = Ok (-1)
      <-> Forall (fun o => passed regex_exec o message) (_options this))
  /\ (forall z : Z,
         Rule.test regex_exec this message = Ok z ->
         z = -1 \/ 0 <= z < Z.of_nat (length (_options this)))
  /\ (Forall (fun o => fires regex_exec o message \/ passed regex_exec o message)
             (_options this) ->
      exists z, Rule.test regex_exec this message = Ok z).
Proof.
  unfold Rule.test. split; [|split; [|split]].
  - intros i. apply (findIndex_hit (_options this) message 0 i). lia.
  - apply findIndex_miss. lia.
  - intros z H. apply findIndex_range in H. lia.
  - apply findIndex_returns.
Qed.

(** C5, at a failing input.  The rule with the match tree
    [{meta: {uri: '/sample/uri'}}] has one option, whose [match] predicate
    does not hold on the event [{message: 'test'}]: [test] does not return
    [-1], it throws.  With a case without [match] after that case, the
    second option fires on the event, and [test] does not return [1]: it
    throws as well. *)
Theorem test_throws_where_the_event_lacks_a_parent :
  (exists this,
      Rule.new stringify "r" nested_spec = Ok this
      /\ length (_options this) = 1%nat
      /\ Forall (fun o => ~ holds regex_exec (Rule.match_ o) bare_event)
                (_options this)
      /\ Rule.test regex_exec this bare_event
         = Throw (TypeError "Cannot read property 'uri' of undefined"))
  /\ (exists this o,
         Rule.new stringify "r" nested_then_open_spec = Ok this
         /\ nth_error (_options this) 1 = Some o
         /\ fires regex_exec o bare_event
         /\ Rule.test regex_exec this bare_event
            = Throw (TypeError "Cannot read property 'uri' of undefined")).
Proof.
  split.
  - eexists. split; [reflexivity|]. split; [reflexivity|]. split; [|reflexivity].
    constructor; [|constructor].
    intros (v & Hv & _). discriminate Hv.
  - eexists. eexists. split; [reflexivity|]. split; [reflexivity|].
    split; [|reflexivity].
    split; eexists; (split; [reflexivity|reflexivity]).
Qed.

End RuleFacts.

(** ** The properties at sample inputs *)

Section Samples.

Import RetryCondition Matcher Facts Exact Samples.

Lemma produce_refuses_empty_and_duplicate_keys_witness :
  GuaranteedProducer._pending
    (GuaranteedProducer.produce accepting
       (VStr "t") (VNum 0) (VStr "m") (VStr "") GuaranteedProducer.new).1
  = GuaranteedProducer._pending GuaranteedProducer.new
  /\ GuaranteedProducer.sent
       (GuaranteedProducer.produce accepting
          (VStr "t") (VNum 0) (VStr "m") (VStr "k") producer_with_k_in_flight).1
     = GuaranteedProducer.sent producer_with_k_in_flight.
Proof.
  split.
  - apply (produce_refuses_empty_and_duplicate_keys accepting
             (VStr "t") (VNum 0) (VStr "m") (VStr "") GuaranteedProducer.new).
    left. reflexivity.
  - apply (produce_refuses_empty_and_duplicate_keys accepting
             (VStr "t") (VNum 0) (VStr "m") (VStr "k") producer_with_k_in_flight).
    right. exists 0%nat. vm_compute. reflexivity.
Defined.

Lemma failed_produce_restores_pending_witness :
  GuaranteedProducer._pending
    (GuaranteedProducer.run_callback
       [GuaranteedProducer.DeletePending "t:k2";
        GuaranteedProducer.Reject
          (GuaranteedProducer.produce queue_full
             (VStr "t") (VNum 0) (VStr "m") (VStr "k2") producer_with_k_in_flight).2
          (Error "Local: Queue full")]
       (GuaranteedProducer.produce queue_full
          (VStr "t") (VNum 0) (VStr "m") (VStr "k2") producer_with_k_in_flight).1)
  = GuaranteedProducer._pending producer_with_k_in_flight.
Proof.
  apply (failed_produce_restores_pending queue_full
           (VStr "t") (VNum 0) (VStr "m") (VStr "k2") producer_with_k_in_flight).
  - reflexivity.
  - vm_compute. reflexivity.
  - discriminate.
Defined.


Lemma quoted_option_misses_its_own_value_witness :
  run json_stringify [Single (FieldIs "body" said_read)]
    (VObj [("body", VStr said)])
  = Ok false
  /\ stanza_holds json_stringify said_stanza [("body", VStr said)] = true.
Proof.
  apply (quoted_option_misses_its_own_value json_stringify). reflexivity.
Defined.

Lemma status_option_semantics_witness :
  run sample_stringify [Single (StatusIs 412)] (VObj [("status", VNum 412)])
  = Ok (412 =? 412)
  /\ run sample_stringify [Single (StatusLike (replace_x "4x4"))]
       (VObj [("status", VNum 404)])
     = Ok (wildcard_match (list_ascii_of_string "4x4")
             (list_ascii_of_string (to_string (VNum 404))))
  /\ (exists e, createCondition sample_stringify "status" (VStr "5yy") = Throw e).
Proof.
  destruct (status_option_semantics sample_stringify) as (Hnum & Hpat & _ & Hbad).
  split; [|split].
  - apply (Hnum 412 [("status", VNum 412)]); [lia|reflexivity].
  - apply (Hpat "4x4" [("status", VNum 404)]); reflexivity.
  - apply (Hbad (VStr "5yy")); reflexivity.
Defined.

Lemma falsy_retry_settings_become_defaults_witness :
  field (Rule.spec sample_rule) "retry_limit" = VNum 2
  /\ field (Rule.spec sample_rule) "retry_delay" = VNum 60000
  /\ Rule.shouldRetry sample_rule = [AnyOf [StatusLike body_50d]].
Proof.
  destruct (falsy_retry_settings_become_defaults sample_stringify
              "simple_test_rule" sample_spec sample_rule eq_refl)
    as (Hretry & _ & Hdelay & Hlimit & _).
  split; [|split].
  - apply Hlimit. reflexivity.
  - apply Hdelay. reflexivity.
  - apply Hretry. reflexivity.
Defined.


(** The sample rule dispatches the sample event to its only option, and
    lets an event with another message pass. *)
Lemma sample_rule_dispatch :
  Rule.test sample_engine sample_rule sample_event = Ok 0
  /\ Rule.test sample_engine sample_rule message_no_event = Ok (-1)
  /\ Rule.expand_ sample_engine sample_rule 0 sample_event
     = Ok (VObj [("message", VStr "test")]).
Proof. repeat split; reflexivity. Qed.

End Samples.

(** ** Further properties *)

Section DeliveryFacts.

Import GuaranteedProducer Facts.

Variable super_produce : value -> value -> value -> value -> value + error.

(** A call of [produce] with a key, no pending entry for the report key and
    an underlying [produce] that returns [true] registers the promise under
    the report key, hands the message over once and queues nothing: the
    promise stays pending until a delivery report comes. *)
Theorem accepted_produce_waits_for_report
    (topic partition message key : value) (this : GuaranteedProducer.t) :
  truthy key = true ->
  _pending this !! reportKey_of topic key = None ->
  super_produce topic partition message key = inl (VBool true) ->
  let after := (produce super_produce topic partition message key this).1 in
  let p := (produce super_produce topic partition message key this).2 in
  _pending after = <[reportKey_of topic key := p]> (_pending this)
  /\ sent after = (sent this ++ [(topic, partition, message, key)])%list
  /\ ticks after = ticks this
  /\ promises this !! p = None
  /\ promises after !! p = Some Pending.
Proof.
  intros Hkey Hfree Hanswer after p. subst after p.
  unfold produce. rewrite Hkey. simpl. rewrite Hfree, Hanswer. simpl.
  repeat split; try reflexivity.
  - apply fresh_promise_unused.
  - apply lookup_insert_eq.
Qed.

(** The handler of a delivery report whose report key has a pending entry
    deletes the entry and resolves the promise stored there with the report;
    a report with no entry is logged and changes nothing else. *)
Theorem delivery_report_resolves_and_clears
    (report topic key : value) (this : GuaranteedProducer.t) :
  get_prop report "topic" = Ok topic ->
  get_prop report "key" = Ok key ->
  (forall p, _pending this !! reportKey_of topic key = Some p ->
             promises this !! p = Some Pending ->
             exists after,
               on_delivery_report report this = Ok after
               /\ _pending after = delete (reportKey_of topic key) (_pending this)
               /\ promises after !! p = Some (Resolved report)
               /\ logged after = logged this)
  /\ (_pending this !! reportKey_of topic key = None ->
      exists after,
        on_delivery_report report this = Ok after
        /\ _pending after = _pending this
        /\ promises after = promises this
        /\ logged after = (logged this ++ [report])%list).
Proof.
  intros Htopic Hkey. unfold on_delivery_report. rewrite Htopic, Hkey. simpl.
  split.
  - intros p Hp Hpending. rewrite Hp. eexists. split; [reflexivity|].
    unfold settle. simpl. rewrite Hpending. simpl.
    repeat split; try reflexivity. apply lookup_insert_eq.
  - intros Hnone. rewrite Hnone. eexists. split; [reflexivity|].
    simpl. repeat split; reflexivity.
Qed.

End DeliveryFacts.

Section ExecFacts.

Import RetryCondition Matcher Rule Facts.

Variable stringify : value -> option string.

(** A rule needs a topic: without one the constructor throws. *)
Theorem rule_without_topic_is_refused (name : string) (spec : value) :
  truthy (field (own_fields spec) "topic") = false ->
  Rule.new stringify name spec
  = Throw (Error ("No topic specified for rule " +:+ name)).
Proof.
  intros Htopic. unfold Rule.new.
  assert (Hgiven : truthy (field (own_fields (js_or spec (VObj []))) "topic") = false).
  { unfold js_or. destruct (truthy spec); [exact Htopic|reflexivity]. }
  now rewrite Hgiven.
Qed.

(** What [_processExec] hands to [new Template] for a request object with a
    [uri]: the method defaults to [get], the headers to an empty object,
    redirects are not followed, the client does not retry, and the body is
    left undecoded unless the rule asks for decoding. *)
Theorem exec_request_defaults
    (name : string) (decode_results : value) (idx : nat)
    (req : list (string * value)) :
  assoc "constructor" req = None ->
  truthy (field req "uri") = true ->
  exists template,
    prepare_request name decode_results idx (VObj req) = Ok (VObj template)
    /\ field template "uri" = field req "uri"
    /\ field template "method" = js_or (field req "method") (VStr "get")
    /\ field template "headers" = js_or (field req "headers") (VObj [])
    /\ field template "followRedirect" = VBool false
    /\ field template "retries" = VNum 0
    /\ (truthy decode_results = false -> field template "encoding" = VNull)
    /\ (truthy decode_results = true ->
        field template "encoding" = field req "encoding").
Proof.
  intros Hctor Huri. unfold prepare_request. rewrite Hctor, Huri. simpl.
  eexists. split; [reflexivity|].
  destruct (truthy decode_results); simpl;
    repeat first [ rewrite field_assoc_set_same
                 | rewrite field_assoc_set_other by reflexivity ];
    repeat split; try reflexivity; discriminate.
Qed.

(** A rule built without [retry_on] and [ignore] retries exactly the
    statuses 500 to 509 and ignores exactly the status 412. *)
Theorem default_classifiers (name : string) (spec : value) (r : Rule.t) (n : Z) :
  Rule.new stringify name spec = Ok r ->
  truthy (field (own_fields spec) "retry_on") = false ->
  truthy (field (own_fields spec) "ignore") = false ->
  run stringify (shouldRetry r) (VObj [("status", VNum n)])
  = Ok ((500 <=? n) && (n <=? 509))
  /\ run stringify (shouldIgnoreError r) (VObj [("status", VNum n)])
     = Ok (n =? 412).
Proof.
  intros Hnew Hretry Hignore.
  destruct (constructed_spec stringify name spec r Hnew)
    as (_ & Hr & Hi & Htopic).
  assert (Hgiven : own_fields (js_or spec (VObj [])) = own_fields spec).
  { unfold js_or. destruct (truthy spec) eqn:E; [reflexivity|].
    unfold js_or in Htopic. rewrite E in Htopic. discriminate. }
  rewrite Hgiven in Hr, Hi.
  repeat first [ rewrite field_assoc_set_same in Hr
               | rewrite field_assoc_set_other in Hr by reflexivity ].
  repeat first [ rewrite field_assoc_set_same in Hi
               | rewrite field_assoc_set_other in Hi by reflexivity ].
  rewrite (js_or_falsy _ _ Hretry) in Hr. rewrite (js_or_falsy _ _ Hignore) in Hi.
  injection Hr as <-. injection Hi as <-.
  split; [|reflexivity].
  simpl. unfold anchored_test. f_equal.
  change (to_string (VNum n)) with (string_of_Z n).
  rewrite <- fifty_x_range.
  apply (wildcard_is_replaced_pattern digits_50x). reflexivity.
Qed.

End ExecFacts.

Section ExtraSamples.

Import RetryCondition Matcher Facts.

Lemma accepted_produce_waits_for_report_witness :
  GuaranteedProducer.ticks
    (GuaranteedProducer.produce accepting
       (VStr "t") (VNum 0) (VStr "m") (VStr "k") GuaranteedProducer.new).1
  = GuaranteedProducer.ticks GuaranteedProducer.new.
Proof.
  apply (accepted_produce_waits_for_report accepting
           (VStr "t") (VNum 0) (VStr "m") (VStr "k") GuaranteedProducer.new);
    reflexivity.
Defined.

Lemma delivery_report_resolves_and_clears_witness :
  exists after,
    GuaranteedProducer.on_delivery_report
      (VObj [("topic", VStr "t"); ("key", VStr "k")]) producer_with_k_in_flight
    = Ok after
    /\ GuaranteedProducer._pending after
       = delete (GuaranteedProducer.reportKey_of (VStr "t") (VStr "k"))
           (GuaranteedProducer._pending producer_with_k_in_flight)
    /\ GuaranteedProducer.promises after !! 0%nat
       = Some (GuaranteedProducer.Resolved (VObj [("topic", VStr "t"); ("key", VStr "k")]))
    /\ GuaranteedProducer.logged after
       = GuaranteedProducer.logged producer_with_k_in_flight.
Proof.
  apply (delivery_report_resolves_and_clears
           (VObj [("topic", VStr "t"); ("key", VStr "k")]) (VStr "t") (VStr "k")
           producer_with_k_in_flight eq_refl eq_refl);
    vm_compute; reflexivity.
Defined.

Lemma rule_without_topic_is_refused_witness :
  Rule.new sample_stringify "r" (VObj [("match", VObj [("message", VStr "test")])])
  = Throw (Error "No topic specified for rule r").
Proof.
  apply (rule_without_topic_is_refused sample_stringify "r"
           (VObj [("match", VObj [("message", VStr "test")])])).
  reflexivity.
Defined.

Lemma exec_request_defaults_witness :
  exists template,
    Rule.prepare_request "r" VUndef 0 (VObj [("uri", VStr "http://mock.com/")])
    = Ok (VObj template)
    /\ field template "uri" = VStr "http://mock.com/"
    /\ field template "method" = VStr "get"
    /\ field template "followRedirect" = VBool false
    /\ field template "encoding" = VNull.
Proof.
  destruct (exec_request_defaults "r" VUndef 0 [("uri", VStr "http://mock.com/")]
              eq_refl eq_refl)
    as (template & Hreq & Huri & Hmethod & _ & Hredirect & _ & Hraw & _).
  exists template. repeat split; try assumption. now apply Hraw.
Defined.

Lemma default_classifiers_witness :
  run sample_stringify (Rule.shouldRetry sample_rule) (VObj [("status", VNum 503)])
  = Ok ((500 <=? 503) && (503 <=? 509))
  /\ run sample_stringify (Rule.shouldIgnoreError sample_rule)
       (VObj [("status", VNum 503)])
     = Ok (503 =? 412).
Proof.
  apply (default_classifiers sample_stringify "simple_test_rule"
           sample_spec sample_rule 503); reflexivity.
Defined.

End ExtraSamples.

(** ** Named and unnamed groups in tidy regular-expression strings *)

Section RegexFacts.

Import Matcher Facts.

Local Open Scope list_scope.

Lemma take_word_spec (s : list ascii) :
  s = (take_word s).1 ++ (take_word s).2
  /\ forallb is_word_char (take_word s).1 = true.
Proof.
  induction s as [|c s [IHs IHw]]; simpl; [split; reflexivity|].
  destruct (is_word_char c) eqn:Hc; simpl; [|split; reflexivity].
  destruct (take_word s) as [w after]. simpl in *.
  split; [now f_equal|now rewrite Hc].
Qed.

Lemma skip_markers (l rest : list ascii) :
  replace_markers (length l) (l ++ rest) = replace_markers 0 rest.
Proof. induction l as [|c l IH]; [reflexivity|exact IH]. Qed.

Lemma named_marker_head (c : ascii) (rest : list ascii) :
  Ascii.eqb c "(" = false -> named_marker (c :: rest) = None.
Proof.
  intros Hc. unfold named_marker.
  destruct rest as [|c2 [|c3 rest]]; try reflexivity. now rewrite Hc.
Qed.

(** A marker is the text [(?<], a name of word characters, and [>]. *)
Lemma named_marker_shape (s : list ascii) (name : string) (len : nat) :
  named_marker s = Some (name, len) ->
  exists w rest,
    s = "("%char :: "?"%char :: "<"%char :: w ++ ">"%char :: rest
    /\ w <> []
    /\ forallb is_word_char w = true
    /\ name = string_of_list_ascii w
    /\ len = (length w + 4)%nat.
Proof.
  unfold named_marker.
  destruct s as [|c1 [|c2 [|c3 rest]]]; try discriminate.
  destruct (Ascii.eqb c1 "(") eqn:H1; [|discriminate].
  destruct (Ascii.eqb c2 "?") eqn:H2; [|discriminate].
  destruct (Ascii.eqb c3 "<") eqn:H3; [|discriminate].
  apply Ascii.eqb_eq in H1, H2, H3. subst. simpl.
  destruct (take_word_spec rest) as [Hrest Hword].
  destruct (take_word rest) as [w after]. simpl in *.
  destruct w as [|c w]; [discriminate|].
  destruct after as [|d after]; [discriminate|].
  destruct (Ascii.eqb d ">") eqn:Hd; [|discriminate].
  apply Ascii.eqb_eq in Hd. subst d.
  intros H. injection H as <- <-.
  exists (c :: w), after.
  split; [now rewrite Hrest|]. split; [discriminate|].
  split; [exact Hword|]. split; reflexivity.
Qed.

Lemma replace_step (c : ascii) (rest : list ascii) :
  replace_markers 0 (c :: rest)
  = match named_marker (c :: rest) with
    | Some (name, len) =>
        (name :: (replace_markers (len - 1) rest).1,
         "("%char :: (replace_markers (len - 1) rest).2)
    | None => ((replace_markers 0 rest).1, c :: (replace_markers 0 rest).2)
    end.
Proof.
  cbn [replace_markers].
  destruct (named_marker (c :: rest)) as [[name len]|].
  - now destruct (replace_markers (len - 1) rest).
  - now destruct (replace_markers 0 rest).
Qed.

Lemma replace_plain (c : ascii) (rest : list ascii) :
  named_marker (c :: rest) = None ->
  replace_markers 0 (c :: rest)
  = ((replace_markers 0 rest).1, c :: (replace_markers 0 rest).2).
Proof.
  intros Hnone. rewrite replace_step. now rewrite Hnone.
Qed.

Lemma replace_marker (w rest : list ascii) :
  w <> [] -> forallb is_word_char w = true ->
  named_marker ("("%char :: "?"%char :: "<"%char :: w ++ ">"%char :: rest)
  = Some (string_of_list_ascii w, (length w + 4)%nat)
  /\ replace_markers 0 ("("%char :: "?"%char :: "<"%char :: w ++ ">"%char :: rest)
     = (string_of_list_ascii w :: (replace_markers 0 rest).1,
        "("%char :: (replace_markers 0 rest).2).
Proof.
  intros Hne Hword.
  assert (Htake : take_word (w ++ ">"%char :: rest) = (w, ">"%char :: rest)).
  { clear Hne. induction w as [|c w IH]; [reflexivity|].
    simpl in Hword. apply andb_true_iff in Hword as [Hc Hw].
    simpl. rewrite Hc. now rewrite (IH Hw). }
  assert (Hmarker :
            named_marker ("("%char :: "?"%char :: "<"%char :: w ++ ">"%char :: rest)
            = Some (string_of_list_ascii w, (length w + 4)%nat)).
  { unfold named_marker. simpl. rewrite Htake.
    destruct w as [|c w]; [contradiction|reflexivity]. }
  split; [exact Hmarker|].
  rewrite replace_step, Hmarker.
  replace (length w + 4 - 1)%nat
    with (length ("?"%char :: "<"%char :: w ++ [">"%char])).
  2:{ simpl. rewrite length_app. simpl. lia. }
  replace ("?"%char :: "<"%char :: w ++ ">"%char :: rest)
    with (("?"%char :: "<"%char :: w ++ [">"%char]) ++ rest).
  2:{ simpl. now rewrite <- app_assoc. }
  now rewrite skip_markers.
Qed.

(** The rewriting keeps the first character. *)
Lemma replace_head (s : list ascii) :
  match s with
  | [] => (replace_markers 0 s).2 = []
  | c :: _ => exists out, (replace_markers 0 s).2 = c :: out
  end.
Proof.
  destruct s as [|c rest]; [reflexivity|].
  destruct (named_marker (c :: rest)) as [[name len]|] eqn:Hm.
  - destruct (named_marker_shape _ _ _ Hm) as (w & rest' & Hs & Hne & Hword & _).
    injection Hs as -> ->.
    destruct (replace_marker w rest' Hne Hword) as [_ Hr].
    rewrite Hr. simpl. eauto.
  - rewrite (replace_plain c rest Hm). simpl. eauto.
Qed.

Lemma word_char_plain (c : ascii) : is_word_char c = true -> is_plain c = true.
Proof.
  destruct c as [[|] [|] [|] [|] [|] [|] [|] [|]]; try discriminate; reflexivity.
Qed.

Lemma written_plain (l rest : list ascii) :
  forallb is_plain l = true ->
  written_groups false (l ++ rest) = written_groups false rest.
Proof.
  induction l as [|c l IH]; [reflexivity|].
  simpl. intros H. apply andb_true_iff in H as [Hc Hl].
  unfold is_plain in Hc.
  apply andb_true_iff in Hc as [Hc H3]. apply andb_true_iff in Hc as [H1 H2].
  apply negb_true_iff in H1, H2, H3. rewrite H1, H2, H3. now apply IH.
Qed.

Lemma tidy_plain (l rest : list ascii) :
  forallb is_plain l = true ->
  tidy false (l ++ rest) = tidy false rest.
Proof.
  induction l as [|c l IH]; [reflexivity|].
  simpl. intros H. apply andb_true_iff in H as [Hc Hl].
  unfold is_plain in Hc.
  apply andb_true_iff in Hc as [Hc H3]. apply andb_true_iff in Hc as [H1 H2].
  apply negb_true_iff in H1, H2, H3. rewrite H1, H2, H3. now apply IH.
Qed.

Lemma marker_interior_plain (w : list ascii) :
  forallb is_word_char w = true ->
  forallb is_plain ("?"%char :: "<"%char :: w ++ [">"%char]) = true.
Proof.
  intros Hw. simpl. rewrite forallb_app. simpl. rewrite andb_true_r.
  induction w as [|c w IH]; [reflexivity|].
  simpl in Hw |- *. apply andb_true_iff in Hw as [Hc Hw].
  now rewrite (word_char_plain c Hc), IH.
Qed.

(** Apart from a string that ends in [(?<], the rewritten text opens a
    capturing group exactly where the written text opens a group. *)
Lemma capture_agrees (rest : list ascii) :
  rest <> ["?"%char; "<"%char] ->
  opens_capture ((replace_markers 0 rest).2 ++ ["|"%char]) = opens_written rest.
Proof.
  intros Hedge. unfold opens_written.
  destruct rest as [|c1 after]; [reflexivity|].
  destruct (Ascii.eqb c1 "?") eqn:H1.
  - apply Ascii.eqb_eq in H1. subst c1.
    rewrite (replace_plain "?" after (named_marker_head "?" after eq_refl)).
    cbn [snd app opens_capture written_group].
    change (Ascii.eqb "?" "?") with true. cbv iota.
    destruct after as [|c2 [|d r3]].
    + reflexivity.
    + rewrite (replace_plain c2 [] eq_refl). simpl.
      destruct (Ascii.eqb c2 "<") eqn:H2; [|reflexivity].
      apply Ascii.eqb_eq in H2. subst c2. now elim Hedge.
    + destruct (named_marker (c2 :: d :: r3)) as [[name len]|] eqn:Hm.
      * destruct (named_marker_shape _ _ _ Hm) as (w & rest' & Hs & Hne & Hword & _).
        injection Hs as -> -> ->.
        destruct (replace_marker w rest' Hne Hword) as [_ Hr].
        rewrite Hr. cbn [snd app].
        change (Ascii.eqb "(" "<") with false. cbn [andb].
        destruct ((replace_markers 0 rest').2 ++ ["|"%char]); reflexivity.
      * rewrite (replace_plain c2 (d :: r3) Hm). cbn [snd app].
        pose proof (replace_head (d :: r3)) as (out & Hout).
        rewrite Hout. cbn [app].
        now destruct (Ascii.eqb c2 "<" && negb (Ascii.eqb d "=" || Ascii.eqb d "!")).
  - pose proof (replace_head (c1 :: after)) as (out & Hout).
    rewrite Hout. cbn [app opens_capture written_group]. now rewrite H1.
Qed.

(** On a tidy string, the names pushed are the named groups, and the groups
    counted in the rewritten text are the groups written. *)
Lemma tidy_counts (bound : nat) :
  forall (s : list ascii), (length s <= bound)%nat ->
  forall (in_class : bool) (depth groups : nat),
    tidy in_class s = true ->
    pattern_groups in_class depth ((replace_markers 0 s).2 ++ ["|"%char]) = Some groups ->
    groups = length (written_groups in_class s)
    /\ length (replace_markers 0 s).1 = count_named (written_groups in_class s).
Proof.
  induction bound as [|bound IH]; intros s Hlen in_class depth groups Htidy Hcount.
  - destruct s; [|simpl in Hlen; lia].
    simpl in Hcount. destruct in_class; [discriminate|].
    destruct depth; [|discriminate]. injection Hcount as <-. now split.
  - destruct s as [|c rest].
    { simpl in Hcount. destruct in_class; [discriminate|].
      destruct depth; [|discriminate]. injection Hcount as <-. now split. }
    simpl in Hlen.
    destruct (Ascii.eqb c "\") eqn:Hback.
    + (* an escaped character *)
      assert (Hc : Ascii.eqb c "(" = false).
      { apply Ascii.eqb_eq in Hback. now subst c. }
      rewrite (replace_plain c rest (named_marker_head c rest Hc)) in Hcount |- *.
      cbn [fst snd app] in Hcount |- *.
      cbn [tidy] in Htidy. rewrite Hback in Htidy.
      cbn [written_groups]. rewrite Hback.
      destruct rest as [|c2 rest2].
      * cbn [replace_markers snd app pattern_groups] in Hcount.
        rewrite Hback in Hcount.
        destruct in_class; [discriminate|].
        destruct depth; [|discriminate]. injection Hcount as <-. now split.
      * destruct (named_marker (c2 :: rest2)) eqn:Hm; [discriminate|].
        rewrite (replace_plain c2 rest2 Hm) in Hcount |- *.
        cbn [fst snd app pattern_groups] in Hcount |- *.
        rewrite Hback in Hcount.
        apply (IH rest2 ltac:(simpl in Hlen; lia) in_class depth groups Htidy Hcount).
    + cbn [tidy] in Htidy. rewrite Hback in Htidy.
      cbn [written_groups]. rewrite Hback.
      destruct in_class.
      * (* inside a character class *)
        destruct (named_marker (c :: rest)) eqn:Hm; [discriminate|].
        rewrite (replace_plain c rest Hm) in Hcount |- *.
        cbn [fst snd app pattern_groups] in Hcount |- *.
        rewrite Hback in Hcount.
        apply (IH rest ltac:(lia) _ depth groups Htidy Hcount).
      * destruct (Ascii.eqb c "[") eqn:Hopen.
        { assert (Hc : Ascii.eqb c "(" = false).
          { apply Ascii.eqb_eq in Hopen. now subst c. }
          rewrite (replace_plain c rest (named_marker_head c rest Hc)) in Hcount |- *.
          cbn [fst snd app pattern_groups] in Hcount |- *.
          rewrite Hback, Hopen in Hcount.
          apply (IH rest ltac:(lia) true depth groups Htidy Hcount). }
        destruct (Ascii.eqb c "(") eqn:Hparen.
        { (* a parenthesis *)
          apply Ascii.eqb_eq in Hparen. subst c.
          destruct (named_marker ("("%char :: rest)) as [[name len]|] eqn:Hm.
          - (* a marker *)
            destruct (named_marker_shape _ _ _ Hm)
              as (w & rest' & Hs & Hne & Hword & Hname & Hlength).
            injection Hs as ->.
            destruct (replace_marker w rest' Hne Hword) as [_ Hr].
            rewrite Hr in Hcount |- *. cbn [fst snd app] in Hcount |- *.
            apply andb_true_iff in Htidy as [Hnext Htidy].
            replace ("?"%char :: "<"%char :: w ++ ">"%char :: rest')
              with (("?"%char :: "<"%char :: w ++ [">"%char]) ++ rest') in *
              by (simpl; now rewrite <- app_assoc).
            rewrite (tidy_plain _ rest' (marker_interior_plain w Hword)) in Htidy.
            rewrite (written_plain _ rest' (marker_interior_plain w Hword)).
            assert (Hskip : skipn (len - 1)
                              (("?"%char :: "<"%char :: w ++ [">"%char]) ++ rest')
                            = rest').
            { subst len.
              replace (length w + 4 - 1)%nat
                with (length ("?"%char :: "<"%char :: w ++ [">"%char]))
                by (simpl; rewrite length_app; simpl; lia).
              now rewrite skipn_app, skipn_all, Nat.sub_diag. }
            rewrite Hskip in Hnext.
            cbn [pattern_groups] in Hcount.
            change (Ascii.eqb "(" "\") with false in Hcount.
            change (Ascii.eqb "(" "[") with false in Hcount.
            change (Ascii.eqb "(" ")") with false in Hcount.
            change (Ascii.eqb "(" "(") with true in Hcount. cbv iota in Hcount.
            destruct (pattern_groups false (S depth)
                        ((replace_markers 0 rest').2 ++ ["|"%char]))
              as [inner|] eqn:Hinner; [|discriminate].
            assert (Hlen' : (length rest' <= bound)%nat).
            { simpl in Hlen. rewrite !length_app in Hlen. simpl in Hlen. lia. }
            destruct (IH rest' Hlen' false (S depth) inner Htidy Hinner)
              as [Hgroups Hnames].
            assert (Hopens : opens_capture ((replace_markers 0 rest').2 ++ ["|"%char])
                             = true).
            { pose proof (replace_head rest') as Hhead.
              destruct rest' as [|d rest''].
              - rewrite Hhead. reflexivity.
              - destruct Hhead as (out & ->). cbn [app opens_capture].
                apply negb_true_iff in Hnext. now rewrite Hnext. }
            rewrite Hopens in Hcount. injection Hcount as <-.
            assert (Hgroup : written_group
                               (("?"%char :: "<"%char :: w ++ [">"%char]) ++ rest')
                             = Some (Some (string_of_list_ascii
                                             (take_word ((w ++ [">"%char]) ++ rest')).1))).
            { destruct w as [|d w]; [contradiction|].
              simpl in Hword. apply andb_true_iff in Hword as [Hd _].
              cbn [app written_group].
              change (Ascii.eqb "?" "?") with true.
              change (Ascii.eqb "<" "<") with true. cbv iota. cbn [andb].
              assert (Hnot : Ascii.eqb d "=" || Ascii.eqb d "!" = false).
              { destruct d as [[|] [|] [|] [|] [|] [|] [|] [|]];
                  try discriminate Hd; reflexivity. }
              now rewrite Hnot. }
            cbn [written_groups].
            change (Ascii.eqb "(" "\") with false.
            change (Ascii.eqb "(" "[") with false.
            change (Ascii.eqb "(" "(") with true. cbv iota.
            rewrite Hgroup.
            unfold count_named in *. simpl. split; lia.
          - (* a parenthesis that is no marker *)
            rewrite (replace_plain _ rest Hm) in Hcount |- *.
            cbn [fst snd app pattern_groups] in Hcount |- *.
            change (Ascii.eqb "(" "\") with false in Hcount.
            change (Ascii.eqb "(" "[") with false in Hcount.
            change (Ascii.eqb "(" ")") with false in Hcount.
            change (Ascii.eqb "(" "(") with true in Hcount. cbv iota in Hcount.
            change (Ascii.eqb "(" "[") with false.
            change (Ascii.eqb "(" "(") with true. cbv iota.
            destruct (pattern_groups false (S depth)
                        ((replace_markers 0 rest).2 ++ ["|"%char]))
              as [inner|] eqn:Hinner; [|discriminate].
            change (Ascii.eqb "(" "[") with false in Htidy.
            change (Ascii.eqb "(" "(") with true in Htidy. cbv iota in Htidy.
            assert (Hedge : rest <> ["?"%char; "<"%char]).
            { intros ->. simpl in Hinner. discriminate. }
            rewrite (capture_agrees rest Hedge) in Hcount.
            unfold opens_written in Hcount.
            destruct (written_group rest) as [[named|]|] eqn:Hgroup;
              [discriminate| |];
              destruct (IH rest ltac:(lia) false (S depth) inner Htidy Hinner)
                as [Hgroups Hnames];
              injection Hcount as <-; unfold count_named in *; simpl; split; lia. }
        (* any other character *)
        rewrite (replace_plain c rest (named_marker_head c rest Hparen)) in Hcount |- *.
        cbn [fst snd app pattern_groups] in Hcount |- *.
        rewrite Hback, Hopen, Hparen in Hcount.
        destruct (Ascii.eqb c ")").
        { destruct depth as [|d]; [discriminate|].
          apply (IH rest ltac:(lia) false d groups Htidy Hcount). }
        apply (IH rest ltac:(lia) false depth groups Htidy Hcount).
Qed.

Lemma existsb_filter_length {A} (p : A -> bool) (l : list A) :
  existsb p l = true -> (0 < length (List.filter p l))%nat.
Proof.
  induction l as [|x l IH]; simpl; [discriminate|].
  destruct (p x); simpl; [lia|exact IH].
Qed.

Lemma filter_length_strict {A} (p : A -> bool) (l : list A) :
  existsb (fun x => negb (p x)) l = true ->
  (length (List.filter p l) < length l)%nat.
Proof.
  assert (Hle : forall l', (length (List.filter p l') <= length l')%nat).
  { induction l' as [|x l' IH]; simpl; [lia|]. destruct (p x); simpl; lia. }
  induction l as [|x l IH]; simpl; [discriminate|].
  specialize (Hle l).
  destruct (p x); simpl; [intros H; apply IH in H; lia|lia].
Qed.

(** The guard of [_compileNamedRegex] on tidy strings.  For every
    regular-expression string in which each [(?<name>] marker opens a
    group, a string that has both a named and an unnamed capture group
    makes the compiler throw: the error that names the mix, or the syntax
    error of [new RegExp] where the brackets do not balance. *)
Theorem tidy_mixing_is_rejected
    (obj : string) (result : list (string * binding)) (name : expr)
    (fieldName : field_name) :
  tidy false (list_ascii_of_string obj) = true ->
  mixes_named_and_unnamed obj = true ->
  _compileNamedRegex obj result name fieldName = Throw SyntaxError
  \/ _compileNamedRegex obj result name fieldName
     = Throw (Error (mixing_message obj)).
Proof.
  intros Htidy Hmix. unfold _compileNamedRegex.
  pose proof (tidy_counts (length (list_ascii_of_string obj))
                (list_ascii_of_string obj) (Nat.le_refl _) false 0%nat) as Hcounts.
  destruct (replace_markers 0 (list_ascii_of_string obj)) as [captureNames normal].
  unfold numGroups_of. simpl in Hcounts.
  destruct (pattern_groups false 0 (normal ++ ["|"%char])) as [numGroups|];
    [|now left].
  destruct (Hcounts numGroups Htidy eq_refl) as [Hgroups Hnames].
  unfold mixes_named_and_unnamed in Hmix.
  apply andb_true_iff in Hmix as [Hnamed Hunnamed].
  apply existsb_filter_length in Hnamed.
  apply filter_length_strict in Hunnamed.
  unfold count_named in Hnames.
  assert (H0 : Nat.eqb (length captureNames) 0 = false) by (apply Nat.eqb_neq; lia).
  assert (H1 : Nat.eqb (length captureNames) numGroups = false)
    by (apply Nat.eqb_neq; lia).
  rewrite H0, H1. now right.
Qed.

End RegexFacts.

Section RegexSamples.

Import Matcher Facts.

Lemma tidy_mixing_is_rejected_witness :
  _compileNamedRegex "/(?<=x)(?<b>y)(z)/" [] (Var "message") (Key "f")
  = Throw SyntaxError
  \/ _compileNamedRegex "/(?<=x)(?<b>y)(z)/" [] (Var "message") (Key "f")
     = Throw (Error (mixing_message "/(?<=x)(?<b>y)(z)/")).
Proof.
  apply (tidy_mixing_is_rejected "/(?<=x)(?<b>y)(z)/" [] (Var "message") (Key "f"));
    reflexivity.
Defined.

End RegexSamples.

(** ** The producer over time *)

Section ProducerRunFacts.

Import GuaranteedProducer ProducerRun.

Lemma settle_keeps (p : nat) (s : settlement) (this : t) :
  _pending (settle p s this) = _pending this
  /\ ticks (settle p s this) = ticks this
  /\ sent (settle p s this) = sent this
  /\ logged (settle p s this) = logged this.
Proof.
  unfold settle. destruct (promises this !! p) as [[]|]; repeat split.
Qed.

Lemma settle_other (p q : nat) (s : settlement) (this : t) :
  q <> p -> promises (settle p s this) !! q = promises this !! q.
Proof.
  intros Hq. unfold settle. destruct (promises this !! p) as [[]|]; try reflexivity.
  simpl. now apply lookup_insert_ne.
Qed.

Lemma settle_known (p q : nat) (s : settlement) (this : t) :
  promises this !! q <> None -> promises (settle p s this) !! q <> None.
Proof.
  intros Hq. destruct (decide (q = p)) as [->|Hne].
  - unfold settle. destruct (promises this !! p) as [[]|] eqn:Hp; try (now rewrite Hp).
    simpl. now rewrite lookup_insert_eq.
  - now rewrite settle_other.
Qed.

Lemma settle_pending (p : nat) (s : settlement) (this : t) :
  promises this !! p = Some Pending -> promises (settle p s this) !! p = Some s.
Proof.
  intros Hp. unfold settle. rewrite Hp. simpl. apply lookup_insert_eq.
Qed.

(** A state with fewer stored promises and fewer queued callbacks, in which
    the promises still stored are as they were, is consistent as well. *)
Lemma consistent_shrink (this after : t) :
  consistent this ->
  (forall k p, _pending after !! k = Some p -> _pending this !! k = Some p) ->
  (forall p, promises this !! p <> None -> promises after !! p <> None) ->
  (forall k p, _pending after !! k = Some p ->
               promises after !! p = promises this !! p) ->
  (forall callback, In callback (ticks after) -> In callback (ticks this)) ->
  consistent after.
Proof.
  intros [Hunsettled Honce Hqueued] Hstored Hknown Hsame Hticks. split.
  - intros k p Hk. rewrite (Hsame k p Hk). eauto.
  - intros k k' p Hk Hk'. eauto.
  - intros callback Hin.
    destruct (Hqueued callback (Hticks callback Hin)) as (deleted & p & Hr & Hp & Hat).
    exists deleted, p. repeat split; eauto.
Qed.

Lemma consistent_new : consistent new.
Proof.
  split; simpl.
  - intros k p Hk. now rewrite lookup_empty in Hk.
  - intros k k' p Hk. now rewrite lookup_empty in Hk.
  - intros callback [].
Qed.

(** Rejecting or resolving a promise that is not stored keeps the state
    consistent. *)
Lemma consistent_settle (p : nat) (s : settlement) (this : t) :
  consistent this ->
  (forall k, _pending this !! k <> Some p) ->
  consistent (settle p s this).
Proof.
  intros Hc Hfree. destruct (settle_keeps p s this) as (Hpend & Hticks & _).
  apply (consistent_shrink this); try assumption.
  - intros k q. now rewrite Hpend.
  - intros q. apply settle_known.
  - intros k q Hk. rewrite Hpend in Hk. apply settle_other.
    intros ->. exact (Hfree k Hk).
  - intros callback. now rewrite Hticks.
Qed.

Lemma consistent_delete (k : string) (this : t) :
  consistent this -> consistent (set_pending (delete k (_pending this)) this).
Proof.
  intros Hc. apply (consistent_shrink this); try assumption; simpl; try tauto.
  intros k' p Hk'. apply lookup_delete_Some in Hk'. tauto.
Qed.

Lemma consistent_set_ticks (queue : list (list action)) (this : t) :
  consistent this ->
  (forall callback, In callback queue -> In callback (ticks this)) ->
  consistent (set_ticks queue this).
Proof.
  intros Hc Hsub. apply (consistent_shrink this); try assumption; simpl; tauto.
Qed.

(** A queued callback of a consistent state leaves it consistent. *)
Lemma consistent_callback (callback : list action) (this : t) :
  consistent this ->
  (exists deleted p,
      rejects callback = Some (deleted, p)
      /\ forall k, _pending this !! k = Some p -> deleted = Some k) ->
  consistent (run_callback callback this).
Proof.
  intros Hc (deleted & p & Hr & Hat).
  destruct callback as [|[k|q reason] [|[k'|q' reason'] [|]]]; try discriminate.
  - injection Hr as <- <-. simpl.
    apply consistent_settle; [now apply consistent_delete|].
    simpl. intros k' Hk'. apply lookup_delete_Some in Hk' as [Hne Hk'].
    specialize (Hat k' Hk'). congruence.
  - injection Hr as <- <-. simpl.
    apply consistent_settle; [assumption|].
    intros k Hk. now specialize (Hat k Hk).
Qed.

Lemma consistent_tick (this : t) : consistent this -> consistent (run_tick this).
Proof.
  intros Hc. unfold run_tick. destruct (ticks this) as [|callback rest] eqn:Hq;
    [assumption|].
  apply consistent_callback.
  - apply consistent_set_ticks; [assumption|].
    intros c Hin. rewrite Hq. now right.
  - destruct (queued_known this Hc callback) as (deleted & p & Hr & _ & Hat).
    { rewrite Hq. now left. }
    now exists deleted, p.
Qed.

Lemma consistent_report (report : value) (this after : t) :
  consistent this -> on_delivery_report report this = Ok after -> consistent after.
Proof.
  intros Hc. unfold on_delivery_report.
  destruct (get_prop report "topic") as [topic| |]; try discriminate.
  destruct (get_prop report "key") as [key| |]; try discriminate. simpl.
  destruct (_pending this !! reportKey_of topic key) as [p|] eqn:Hp.
  - intros H. injection H as <-.
    apply consistent_settle; [now apply consistent_delete|].
    simpl. intros k Hk. apply lookup_delete_Some in Hk as [Hne Hk].
    apply Hne. exact (stored_once this Hc _ _ _ Hp Hk).
  - intros H. injection H as <-.
    apply (consistent_shrink this); try assumption; simpl; tauto.
Qed.

Lemma consistent_queue (callback : list action) (this : t) :
  consistent this ->
  (exists deleted p,
      rejects callback = Some (deleted, p)
      /\ promises this !! p <> None
      /\ forall k, _pending this !! k = Some p -> deleted = Some k) ->
  consistent (nextTick callback this).
Proof.
  intros [Hunsettled Honce Hqueued] Hnew. split; simpl; try assumption.
  intros c Hin. apply in_app_or in Hin as [Hin|[<-|[]]]; eauto.
Qed.

Lemma consistent_open (p : nat) (this : t) :
  consistent this -> promises this !! p = None -> consistent (open_promise p this).
Proof.
  intros [Hunsettled Honce Hqueued] Hfresh. split; simpl; try assumption.
  - intros k q Hk. specialize (Hunsettled k q Hk).
    rewrite lookup_insert_ne; [assumption|]. intros ->. congruence.
  - intros c Hin. destruct (Hqueued c Hin) as (deleted & q & Hr & Hq & Hat).
    exists deleted, q. repeat split; try assumption.
    rewrite lookup_insert_ne; [assumption|]. intros ->. congruence.
Qed.

Lemma consistent_store (k : string) (p : nat) (this : t) :
  consistent this -> promises this !! p = None ->
  consistent (set_pending (<[k := p]> (_pending this)) (open_promise p this)).
Proof.
  intros Hc Hfresh.
  assert (Hfree : forall k', _pending this !! k' <> Some p).
  { intros k' Hk'. rewrite (stored_unsettled this Hc k' p Hk') in Hfresh.
    discriminate. }
  destruct (consistent_open p this Hc Hfresh) as [Hunsettled Honce Hqueued].
  simpl in *. split; simpl.
  - intros k' q Hk'. apply lookup_insert_Some in Hk' as [[<- <-]|[Hne Hk']].
    + apply lookup_insert_eq.
    + eauto.
  - intros k1 k2 q Hk1 Hk2.
    apply lookup_insert_Some in Hk1 as [[<- <-]|[Hne1 Hk1]];
      apply lookup_insert_Some in Hk2 as [[<- Heq]|[Hne2 Hk2]];
      try reflexivity; subst; try (now elim (Hfree _ Hk1)); try (now elim (Hfree _ Hk2)).
    eauto.
  - intros c Hin. destruct (Hqueued c Hin) as (deleted & q & Hr & Hq & Hat).
    exists deleted, q. repeat split; try assumption.
    intros k' Hk'. apply lookup_insert_Some in Hk' as [[<- <-]|[Hne Hk']]; [|eauto].
    destruct (queued_known this Hc c Hin) as (deleted' & q' & Hr' & Hq' & _).
    rewrite Hr in Hr'. injection Hr' as <- <-. contradiction.
Qed.

Lemma consistent_sent (call : value * value * value * value) (this : t) :
  consistent this -> consistent (record_sent call this).
Proof.
  intros Hc. apply (consistent_shrink this); try assumption; simpl; tauto.
Qed.

Lemma consistent_produce
    (super_produce : value -> value -> value -> value -> value + error)
    (topic partition message key : value) (this : t) :
  consistent this ->
  consistent (produce super_produce topic partition message key this).1.
Proof.
  intros Hc. pose proof (fresh_promise_unused this) as Hfresh.
  assert (Hfree : forall k, _pending this !! k <> Some (fresh_promise this)).
  { intros k Hk. rewrite (stored_unsettled this Hc k _ Hk) in Hfresh. discriminate. }
  pose proof (consistent_open _ this Hc Hfresh) as Hopen.
  assert (Hrefuse : forall reason,
             consistent (nextTick [Reject (fresh_promise this) reason]
                           (open_promise (fresh_promise this) this))).
  { intros reason. apply consistent_queue; [assumption|].
    exists None, (fresh_promise this). simpl. repeat split.
    - now rewrite lookup_insert_eq.
    - intros k Hk. now elim (Hfree k). }
  unfold produce. destruct (truthy key); simpl; [|apply Hrefuse].
  destruct (_pending this !! reportKey_of topic key) eqn:Hk; simpl; [apply Hrefuse|].
  pose proof (consistent_sent (topic, partition, message, key) _
                (consistent_store (reportKey_of topic key) _ this Hc Hfresh)) as Hsent.
  assert (Hfail : forall reason,
             consistent
               (nextTick [DeletePending (reportKey_of topic key);
                          Reject (fresh_promise this) reason]
                  (record_sent (topic, partition, message, key)
                     (set_pending (<[reportKey_of topic key := fresh_promise this]>
                                     (_pending this))
                        (open_promise (fresh_promise this) this))))).
  { intros reason. apply consistent_queue; [assumption|].
    exists (Some (reportKey_of topic key)), (fresh_promise this). simpl.
    repeat split.
    - now rewrite lookup_insert_eq.
    - intros k Hk'. apply lookup_insert_Some in Hk' as [[<- _]|[_ Hk']];
        [reflexivity|now elim (Hfree k)]. }
  destruct (super_produce topic partition message key) as [[| |[|]| | | |]|e];
    simpl; first [apply Hfail | exact Hsent].
Qed.

Lemma reachable_consistent (this : t) : reachable this -> consistent this.
Proof.
  intros Hreach.
  induction Hreach as [|e this after _ IH Hstep]; [apply consistent_new|].
  destruct e as [topic partition message key answer| |report]; simpl in Hstep.
  - injection Hstep as <-. now apply consistent_produce.
  - injection Hstep as <-. now apply consistent_tick.
  - now apply (consistent_report report this).
Qed.

(** The producer stays consistent.  In every state a producer gets into,
    by calls of [produce] with any answers of the underlying producer,
    queued callbacks running and delivery reports of any content arriving
    in any order, a promise whose [resolve] is stored in [_pending] is
    unsettled, and it is stored under one report key only. *)
Theorem stored_promises_are_unsettled (this : t) :
  reachable this ->
  (forall k p, _pending this !! k = Some p -> promises this !! p = Some Pending)
  /\ (forall k k' p,
         _pending this !! k = Some p -> _pending this !! k' = Some p -> k = k').
Proof.
  intros Hreach. pose proof (reachable_consistent this Hreach) as Hc.
  split; [exact (stored_unsettled this Hc)|exact (stored_once this Hc)].
Qed.

Lemma callback_other (callback : list action) (p : nat) (this : t) :
  (exists deleted q, rejects callback = Some (deleted, q) /\ q <> p) ->
  promises (run_callback callback this) !! p = promises this !! p.
Proof.
  intros (deleted & q & Hr & Hq).
  destruct callback as [|[k|q0 reason] [|[k'|q' reason'] [|]]]; try discriminate;
    injection Hr as <- <-; simpl; rewrite settle_other; auto.
Qed.

Lemma callbacks_other (queue : list (list action)) (p : nat) (this : t) :
  (forall callback, In callback queue ->
     exists deleted q, rejects callback = Some (deleted, q) /\ q <> p) ->
  promises (fold_left (fun st callback => run_callback callback st) queue this) !! p
  = promises this !! p.
Proof.
  revert this. induction queue as [|callback rest IH]; intros this Hq; [reflexivity|].
  simpl. rewrite IH.
  - apply callback_other. apply Hq. now left.
  - intros c Hin. apply Hq. now right.
Qed.

Lemma drain_queued (callback : list action) (this : t) :
  drain (nextTick callback this)
  = run_callback callback (drain this).
Proof.
  unfold drain. simpl. now rewrite fold_left_app.
Qed.

Lemma callback_ticks (callback : list action) (this : t) :
  ticks (run_callback callback this) = ticks this.
Proof.
  unfold run_callback. revert this.
  induction callback as [|a rest IH]; intros this; [reflexivity|].
  simpl. rewrite IH. destruct a as [k|q e]; simpl; [reflexivity|].
  now destruct (settle_keeps q (Rejected e) this) as (_ & -> & _).
Qed.

Lemma drain_ticks (this : t) : ticks (drain this) = [].
Proof.
  unfold drain.
  assert (H : forall queue st,
             ticks (fold_left (fun st callback => run_callback callback st) queue st)
             = ticks st).
  { induction queue as [|c rest IH]; intros st; [reflexivity|].
    simpl. now rewrite IH, callback_ticks. }
  now rewrite H.
Qed.

(** A refused message is rejected.  When [produce] turns a call down, for
    want of a key, for a key in flight, or because the underlying producer
    does not take the message, the promise it returned is rejected with the
    reason of the refusal once the queued callbacks have run, whatever
    callbacks were queued before. *)
Theorem refused_produce_is_rejected
    (topic partition message key : value) (answer : value + error)
    (reason : error) (this : t) :
  reachable this ->
  turned_down topic key answer this = Some reason ->
  let produced := produce (fun _ _ _ _ => answer) topic partition message key this in
  promises this !! produced.2 = None
  /\ promises (drain produced.1) !! produced.2 = Some (Rejected reason)
  /\ ticks (drain produced.1) = [].
Proof.
  intros Hreach Hturned produced.
  pose proof (reachable_consistent this Hreach) as Hc.
  pose proof (fresh_promise_unused this) as Hfresh.
  assert (Hp : produced.2 = fresh_promise this).
  { subst produced. unfold produce. destruct (truthy key); [|reflexivity]. simpl.
    destruct (_pending this !! reportKey_of topic key); [reflexivity|].
    now destruct answer as [[| |[|]| | | |]|e]. }
  split; [now rewrite Hp|]. split; [|apply drain_ticks].
  rewrite Hp.
  assert (Hold : forall st,
             promises st = <[fresh_promise this := Pending]> (promises this) ->
             ticks st = ticks this ->
             promises (drain st) !! fresh_promise this = Some Pending).
  { intros st Hpromises Hticks. unfold drain. rewrite callbacks_other.
    - simpl. rewrite Hpromises. apply lookup_insert_eq.
    - intros c Hin. rewrite Hticks in Hin.
      destruct (queued_known this Hc c Hin) as (deleted & q & Hr & Hq & _).
      exists deleted, q. split; [assumption|]. intros ->. contradiction. }
  assert (Hreject : forall st cb deleted,
             promises st = <[fresh_promise this := Pending]> (promises this) ->
             ticks st = ticks this ->
             rejects cb = Some (deleted, fresh_promise this) ->
             (forall e, In (Reject (fresh_promise this) e) cb -> e = reason) ->
             promises (drain (nextTick cb st)) !! fresh_promise this
             = Some (Rejected reason)).
  { intros st cb deleted Hpromises Hticks Hr Hreason.
    rewrite drain_queued. specialize (Hold st Hpromises Hticks).
    destruct cb as [|[k|q0 e] [|[k'|q' e'] [|]]]; try discriminate;
      injection Hr as _ ->; simpl.
    - rewrite (Hreason e') by (right; now left). now apply settle_pending.
    - rewrite (Hreason e) by now left. now apply settle_pending. }
  subst produced. unfold turned_down in Hturned. unfold produce.
  destruct (truthy key); simpl in *.
  2:{ injection Hturned as <-. eapply Hreject; try reflexivity.
      intros e [H|[]]. now injection H as <-. }
  destruct (_pending this !! reportKey_of topic key) eqn:Hk.
  { injection Hturned as <-. eapply Hreject; try reflexivity.
    intros e [H|[]]. now injection H as <-. }
  destruct answer as [[| |[|]| | | |]|e0]; try discriminate;
    injection Hturned as <-; simpl;
    (eapply Hreject; try reflexivity;
     intros e [H|[H|[]]]; [discriminate|now injection H as <-]).
Qed.

(** From [produce] to the delivery report and back.  When a message with a
    key that is not in flight is taken by the underlying producer and its
    delivery report arrives, the promise [produce] returned is resolved with
    the report, [_pending] is again what it was before the call, no other
    promise is touched, nothing is queued or logged, and the message was
    handed over once. *)
Theorem delivered_message_round_trip
    (super_produce : value -> value -> value -> value -> value + error)
    (topic partition message key report : value) (this : t) :
  truthy key = true ->
  _pending this !! reportKey_of topic key = None ->
  super_produce topic partition message key = inl (VBool true) ->
  report_for topic key report ->
  let produced := produce super_produce topic partition message key this in
  exists after,
    on_delivery_report report produced.1 = Ok after
    /\ promises after !! produced.2 = Some (Resolved report)
    /\ _pending after = _pending this
    /\ (forall q, q <> produced.2 -> promises after !! q = promises this !! q)
    /\ ticks after = ticks this
    /\ logged after = logged this
    /\ sent after = (sent this ++ [(topic, partition, message, key)])%list.
Proof.
  intros Hkey Hfree Hanswer (t' & k' & Htopic & Hk & Hsame) produced.
  subst produced. unfold produce. rewrite Hkey. simpl. rewrite Hfree, Hanswer.
  simpl. unfold on_delivery_report. rewrite Htopic, Hk. simpl. rewrite Hsame.
  rewrite lookup_insert_eq. eexists. split; [reflexivity|].
  unfold settle. simpl. rewrite lookup_insert_eq. simpl.
  repeat split.
  - apply lookup_insert_eq.
  - rewrite delete_insert_eq. now apply delete_id.
  - intros q Hq. now rewrite !lookup_insert_ne by congruence.
Qed.

End ProducerRunFacts.

(** ** The options of a rule *)

Section RuleCasesFacts.

Import RetryCondition Matcher Rule Facts RuleCases.

Variable stringify : value -> option string.
Variable regex_exec : string -> string -> option (list (option string)).

Lemma map_outcome_nth {A B} (f : A -> outcome B) (l : list A) (out : list B) :
  map_outcome f l = Ok out ->
  length out = length l
  /\ forall i x, nth_error l i = Some x ->
       exists y, nth_error out i = Some y /\ f x = Ok y.
Proof.
  revert out. induction l as [|a l IH]; intros out H; simpl in H.
  - injection H as <-. split; [reflexivity|]. intros [|i] x Hx; discriminate.
  - destruct (f a) as [b| |] eqn:Hb; try discriminate. simpl in H.
    destruct (map_outcome f l) as [bs| |]; try discriminate. simpl in H.
    injection H as <-. destruct (IH bs eq_refl) as [Hlen Hnth].
    split; [simpl; now rewrite Hlen|].
    intros [|i] x Hx; simpl in *.
    + injection Hx as <-. eauto.
    + eauto.
Qed.

Lemma own_fields_or (spec : value) :
  own_fields (js_or spec (VObj [])) = own_fields spec.
Proof. unfold js_or. destruct spec as [| |[|]|n|s|items|fs]; try reflexivity.
  - simpl. now destruct (negb (n =? 0)).
  - simpl. now destruct (negb (String.eqb s "")).
Qed.

(** The options of a constructed rule are the compiled cases of its spec. *)
Lemma constructed_options (name : string) (spec : value) (r : Rule.t) :
  Rule.new stringify name spec = Ok r ->
  map_outcome (compile_option name (field (own_fields spec) "decode_results"))
              (given_cases spec)
  = Ok (_options r)
  /\ noop r = existsb (fun o => bool_decide (exec o = None)) (_options r).
Proof.
  intros H. unfold Rule.new in H. rewrite own_fields_or in H.
  destruct (truthy (field (own_fields spec) "topic")) eqn:Htopic; [|discriminate].
  simpl in H.
  destruct (_compileErrorCheckCondition stringify _) as [retry| |]; try discriminate.
  simpl in H.
  destruct (_compileErrorCheckCondition stringify _) as [ignore| |]; try discriminate.
  simpl in H.
  repeat rewrite field_assoc_set_other in H by reflexivity.
  unfold given_cases.
  destruct spec as [| |b|n|s|items|fs]; try discriminate. simpl own_fields in *.
  unfold js_or in *. destruct (truthy (field fs "cases")) eqn:Hcases.
  - destruct (field fs "cases") as [| |b|n|s|cases|fs']; try discriminate.
    destruct (map_outcome _ cases) as [options| |]; try discriminate.
    simpl in H. injection H as <-. split; reflexivity.
  - cbn [map_outcome] in H |- *.
    match type of H with
    | bind (bind (compile_option _ _ (VObj ?s5)) _) _ = _ =>
        assert (Hsame : compile_option name (field fs "decode_results") (VObj s5)
                        = compile_option name (field fs "decode_results") (VObj fs))
    end.
    { unfold compile_option, get_prop. fold (field fs "match") (field fs "exec")
        (field fs "match_not").
      match goal with
      | |- context [assoc "match" ?s5] =>
          fold (field s5 "match") (field s5 "exec") (field s5 "match_not")
      end.
      now repeat rewrite field_assoc_set_other by reflexivity. }
    rewrite Hsame in H.
    destruct (compile_option name (field fs "decode_results") (VObj fs))
      as [o| |]; try discriminate.
    simpl in H. injection H as <-. split; reflexivity.
Qed.

Lemma options_nth (name : string) (spec : value) (r : Rule.t) (i : nat) :
  Rule.new stringify name spec = Ok r ->
  (forall c, nth_error (given_cases spec) i = Some c ->
     exists o, nth_error (_options r) i = Some o
               /\ compile_option name (field (own_fields spec) "decode_results") c
                  = Ok o)
  /\ (forall o, nth_error (_options r) i = Some o ->
        exists c, nth_error (given_cases spec) i = Some c
                  /\ compile_option name (field (own_fields spec) "decode_results") c
                     = Ok o).
Proof.
  intros H. destruct (constructed_options name spec r H) as [Hmap _].
  destruct (map_outcome_nth _ _ _ Hmap) as [Hlen Hnth].
  split; [intros c Hc; eauto|].
  intros o Ho.
  destruct (nth_error (given_cases spec) i) as [c|] eqn:Hc.
  - destruct (Hnth i c Hc) as (o' & Ho' & Hcomp).
    exists c. split; [reflexivity|]. congruence.
  - apply nth_error_None in Hc.
    assert (i < length (_options r))%nat by (apply nth_error_Some; congruence).
    lia.
Qed.

Lemma processMatch_absent (m : value) :
  truthy m = false -> _processMatch m = Ok None.
Proof. intros Hm. unfold _processMatch. now rewrite Hm. Qed.

Lemma processMatch_expand (m : value) (compiled : matcher) :
  _processMatch m = Ok (Some compiled) ->
  exists fs, Matcher.expand compiled = Object fs.
Proof.
  unfold _processMatch. destruct (negb (truthy m)); [discriminate|].
  destruct (_compileMatch m [] (Var "message") NoField) as [[t result]| |];
    try discriminate.
  cbn [bind fst snd _getMatchObjCode].
  destruct (fields_code _getMatchObjCode result) as [fs| |];
    destruct t; try discriminate; cbn [bind];
    intros H; injection H as <-; eauto.
Qed.

(** What [compile_option] makes of the three settings of a case. *)
Lemma compile_option_parts (name : string) (decode_results c : value) (o : option_) :
  compile_option name decode_results c = Ok o ->
  exists m e mn,
    get_prop c "match" = Ok m /\ get_prop c "exec" = Ok e
    /\ get_prop c "match_not" = Ok mn
    /\ (truthy m = false -> match_ o = Always true /\ Rule.expand o = None)
    /\ (m = VObj [] -> match_ o = Compiled Empty)
    /\ (truthy mn = false -> match_not o = Always false)
    /\ (exec o = None <-> truthy e = false)
    /\ (Rule.expand o = None \/ exists fs, Rule.expand o = Some (Object fs)).
Proof.
  unfold compile_option.
  destruct (get_prop c "match") as [m| |]; try discriminate. cbn [bind].
  destruct (_processMatch m) as [compiled| |] eqn:Hm; try discriminate. cbn [bind].
  destruct (get_prop c "exec") as [e| |]; try discriminate. cbn [bind].
  destruct (_processExec name decode_results e) as [templates| |] eqn:He;
    try discriminate. cbn [bind].
  destruct (get_prop c "match_not") as [mn| |]; try discriminate. cbn [bind].
  destruct (_processMatch mn) as [not_compiled| |] eqn:Hmn; try discriminate.
  cbn [bind]. intros H. injection H as <-. exists m, e, mn. cbn.
  repeat split; try reflexivity.
  - rewrite (processMatch_absent m H) in Hm. now injection Hm as <-.
  - rewrite (processMatch_absent m H) in Hm. now injection Hm as <-.
  - intros ->. vm_compute in Hm. now injection Hm as <-.
  - intros H. rewrite (processMatch_absent mn H) in Hmn. now injection Hmn as <-.
  - intros ->. unfold _processExec in He. destruct (negb (truthy e)) eqn:Ht.
    + now apply negb_true_iff in Ht.
    + destruct (prepare_requests _ _ _ _); discriminate.
  - intros Ht. unfold _processExec in He. rewrite Ht in He. simpl in He.
    now injection He as <-.
  - destruct compiled as [compiled|]; [right|now left].
    destruct (processMatch_expand m compiled Hm) as [fs ->]. eauto.
Qed.

(** The answer of [test] used as an index.  What [test] returns is -1 or
    the index of an option that fires on the message, and for such an index
    [getExec] returns that option's templates; with the answer -1, [getExec]
    and [expand] throw a TypeError. *)
Theorem test_answer_selects_an_option (this : Rule.t) (message : value) (z : Z) :
  Rule.test regex_exec this message = Ok z ->
  (z = -1
   /\ (exists msg, getExec this z = Throw (TypeError msg))
   /\ (exists msg, expand_ regex_exec this z message = Throw (TypeError msg)))
  \/ (0 <= z
      /\ exists o,
           nth_error (_options this) (Z.to_nat z) = Some o
           /\ fires regex_exec o message
           /\ getExec this z = Ok (exec o)).
Proof.
  intros Htest. unfold Rule.test in Htest.
  destruct (findIndex_range regex_exec _ _ _ _ Htest) as [->|Hrange].
  - left. split; [reflexivity|]. split; eexists; reflexivity.
  - right. split; [lia|].
    replace z with (0 + Z.of_nat (Z.to_nat z)) in Htest by lia.
    apply findIndex_hit in Htest as [(o & Ho & Hfires) _]; [|lia].
    exists o. repeat split; try assumption; try apply Hfires.
    unfold getExec, option_at.
    destruct (z <? 0) eqn:Hneg; [lia|]. now rewrite Ho.
Qed.

(** A case without [match] and [match_not] takes every message: [test]
    never passes beyond it, and where it is the first case, [test] returns 0
    and [expand] the empty object. *)
Theorem case_without_match_takes_everything
    (name : string) (spec : value) (r : Rule.t) (i : nat) (c m mn message : value) :
  Rule.new stringify name spec = Ok r ->
  nth_error (given_cases spec) i = Some c ->
  get_prop c "match" = Ok m -> truthy m = false ->
  get_prop c "match_not" = Ok mn -> truthy mn = false ->
  (forall z, Rule.test regex_exec r message = Ok z -> 0 <= z <= Z.of_nat i)
  /\ (i = 0%nat ->
      Rule.test regex_exec r message = Ok 0
      /\ expand_ regex_exec r 0 message = Ok (VObj [])).
Proof.
  intros Hnew Hc Hm Hfalsy Hmn Hnot.
  destruct (options_nth name spec r i Hnew) as [Hcase _].
  destruct (Hcase c Hc) as (o & Ho & Hcomp).
  destruct (compile_option_parts _ _ _ _ Hcomp)
    as (m' & e & mn' & Hm' & _ & Hmn' & Habsent & _ & Hnone & _).
  rewrite Hm in Hm'. injection Hm' as <-. rewrite Hmn in Hmn'. injection Hmn' as <-.
  destruct (Habsent Hfalsy) as [Hmatch Hexpand]. specialize (Hnone Hnot).
  assert (Hfires : fires regex_exec o message).
  { unfold fires, holds, fails. rewrite Hmatch, Hnone. simpl. split; eauto. }
  assert (Hnot_passed : ~ passed regex_exec o message).
  { unfold passed, holds, fails. rewrite Hmatch, Hnone. simpl.
    intros [(v & Hv & Ht)|[_ (v & Hv & Ht)]]; injection Hv as <-; discriminate. }
  split.
  - intros z Htest. unfold Rule.test in Htest.
    destruct (findIndex_range regex_exec _ _ _ _ Htest) as [->|Hrange].
    + apply findIndex_miss in Htest; [|lia].
      rewrite List.Forall_forall in Htest.
      elim Hnot_passed. apply Htest. eapply nth_error_In. exact Ho.
    + split; [lia|].
      replace z with (0 + Z.of_nat (Z.to_nat z)) in Htest by lia.
      apply findIndex_hit in Htest as [_ Hbefore]; [|lia].
      destruct (Nat.lt_ge_cases i (Z.to_nat z)) as [Hlt|Hge]; [|lia].
      elim Hnot_passed. exact (Hbefore i o Hlt Ho).
  - intros ->. split.
    + unfold Rule.test. apply (findIndex_hit regex_exec _ message 0 0); [lia|].
      split; [eauto|]. intros j o' Hj. lia.
    + unfold expand_, option_at. simpl. simpl in Ho. rewrite Ho. simpl.
      now rewrite Hexpand.
Qed.

(** A case whose [match] is the empty object takes no message: the text of
    its predicate is empty, the function built from it returns [undefined],
    and [test] never answers with the index of the case. *)
Theorem case_with_empty_match_takes_nothing
    (name : string) (spec : value) (r : Rule.t) (i : nat) (c message : value) :
  Rule.new stringify name spec = Ok r ->
  nth_error (given_cases spec) i = Some c ->
  get_prop c "match" = Ok (VObj []) ->
  Rule.test regex_exec r message <> Ok (Z.of_nat i).
Proof.
  intros Hnew Hc Hm Htest.
  destruct (options_nth name spec r i Hnew) as [Hcase _].
  destruct (Hcase c Hc) as (o & Ho & Hcomp).
  destruct (compile_option_parts _ _ _ _ Hcomp)
    as (m' & e & mn' & Hm' & _ & _ & _ & Hempty & _).
  rewrite Hm in Hm'. injection Hm' as <-. specialize (Hempty eq_refl).
  unfold Rule.test in Htest.
  apply (findIndex_hit regex_exec _ message 0 i) in Htest as [(o' & Ho' & Hf) _];
    [|lia].
  rewrite Ho in Ho'. injection Ho' as <-.
  destruct Hf as [(v & Hv & Ht) _]. rewrite Hempty in Hv. simpl in Hv.
  injection Hv as <-. discriminate.
Qed.

(** A rule is marked as a no-op exactly when one of its cases has no
    [exec], whatever the other cases execute. *)
Theorem rule_is_noop_when_a_case_has_no_exec
    (name : string) (spec : value) (r : Rule.t) :
  Rule.new stringify name spec = Ok r ->
  (noop r = true
   <-> exists c e, In c (given_cases spec)
                   /\ get_prop c "exec" = Ok e /\ truthy e = false).
Proof.
  intros Hnew. destruct (constructed_options name spec r Hnew) as [_ ->].
  rewrite existsb_exists. split.
  - intros (o & Hin & Hnone). apply bool_decide_eq_true in Hnone.
    apply In_nth_error in Hin as [i Ho].
    destruct (options_nth name spec r i Hnew) as [_ Hoption].
    destruct (Hoption o Ho) as (c & Hc & Hcomp).
    destruct (compile_option_parts _ _ _ _ Hcomp)
      as (m & e & mn & _ & He & _ & _ & _ & _ & Hexec & _).
    exists c, e. repeat split; try assumption.
    + eapply nth_error_In. exact Hc.
    + now apply Hexec.
  - intros (c & e & Hin & He & Hfalsy).
    apply In_nth_error in Hin as [i Hc].
    destruct (options_nth name spec r i Hnew) as [Hcase _].
    destruct (Hcase c Hc) as (o & Ho & Hcomp).
    destruct (compile_option_parts _ _ _ _ Hcomp)
      as (m & e' & mn & _ & He' & _ & _ & _ & _ & Hexec & _).
    rewrite He in He'. injection He' as <-.
    exists o. split; [eapply nth_error_In; exact Ho|].
    apply bool_decide_eq_true. now apply Hexec.
Qed.

Lemma eval_object (env : list (string * value)) (fields : list (string * expr))
    (v : value) :
  eval regex_exec env (Object fields) = Ok v -> exists fs, v = VObj fs.
Proof.
  simpl. destruct (eval_fields _ fields []) as [fs| |]; try discriminate.
  simpl. intros H. injection H as <-. eauto.
Qed.


Lemma prepare_request_taken (name : string) (decode_results : value) (idx : nat)
    (req : value) :
  is_request req = true ->
  exists template, prepare_request name decode_results idx req = Ok (VObj template).
Proof.
  destruct req as [| |b|n|s|items|fs]; try discriminate. simpl.
  intros H. apply andb_true_iff in H as [Hctor Huri].
  apply negb_true_iff in Hctor. rewrite Hctor, Huri. simpl. eauto.
Qed.

Lemma prepare_request_refused (name : string) (decode_results : value) (idx : nat)
    (req : value) :
  is_request req = false -> is_nullish req = false ->
  prepare_request name decode_results idx req = Throw (Error (exec_message name idx)).
Proof.
  destruct req as [| |b|n|s|items|fs]; try discriminate; try reflexivity. simpl.
  intros H _. apply andb_false_iff in H as [H|H].
  - apply negb_false_iff in H. now rewrite H.
  - rewrite H. now rewrite orb_true_r.
Qed.

Lemma prepare_requests_taken (name : string) (decode_results : value)
    (reqs : list value) (idx : nat) :
  forallb is_request reqs = true ->
  exists templates,
    prepare_requests name decode_results idx reqs = Ok templates
    /\ length templates = length reqs.
Proof.
  revert idx. induction reqs as [|req rest IH]; intros idx H; simpl in *.
  - eauto.
  - apply andb_true_iff in H as [Hreq Hrest].
    destruct (prepare_request_taken name decode_results idx req Hreq) as [t ->].
    destruct (IH (S idx) Hrest) as (ts & -> & Hlen). simpl.
    eexists. split; [reflexivity|]. simpl. now rewrite Hlen.
Qed.

Lemma prepare_requests_refused (name : string) (decode_results : value)
    (reqs : list value) (i idx : nat) (req : value) :
  nth_error reqs i = Some req ->
  is_request req = false -> is_nullish req = false ->
  forallb is_request (firstn i reqs) = true ->
  prepare_requests name decode_results idx reqs
  = Throw (Error (exec_message name (idx + i))).
Proof.
  revert i idx. induction reqs as [|first rest IH]; intros [|i] idx Hnth Hbad Hnull Hbefore;
    try discriminate; simpl in *.
  - injection Hnth as ->.
    rewrite (prepare_request_refused name decode_results idx req Hbad Hnull).
    now rewrite Nat.add_0_r.
  - apply andb_true_iff in Hbefore as [Hfirst Hbefore].
    destruct (prepare_request_taken name decode_results idx first Hfirst) as [t ->].
    simpl. rewrite (IH i (S idx) Hnth Hbad Hnull Hbefore). simpl.
    now replace (S (idx + i))%nat with (idx + S i)%nat by lia.
Qed.

(** The requests of [exec].  [_processExec] makes one template of every
    request when all are objects with a [uri]; otherwise the error it throws
    carries the number of the first request that is not, counted from 0; a
    request that is not in an array is treated as an array of one. *)
Theorem exec_error_names_first_bad_request
    (name : string) (decode_results : value) (reqs : list value) :
  (forallb is_request reqs = true ->
   exists templates,
     _processExec name decode_results (VArr reqs) = Ok (Some templates)
     /\ length templates = length reqs)
  /\ (forall i req,
        nth_error reqs i = Some req ->
        is_request req = false -> is_nullish req = false ->
        forallb is_request (firstn i reqs) = true ->
        _processExec name decode_results (VArr reqs)
        = Throw (Error (exec_message name i)))
  /\ (forall req,
        truthy req = true -> (forall items, req <> VArr items) ->
        _processExec name decode_results req
        = _processExec name decode_results (VArr [req])).
Proof.
  split; [|split].
  - intros Hall. unfold _processExec. simpl.
    destruct (prepare_requests_taken name decode_results reqs 0 Hall)
      as (templates & -> & Hlen).
    simpl. eauto.
  - intros i req Hnth Hbad Hnull Hbefore. unfold _processExec. simpl.
    now rewrite (prepare_requests_refused name decode_results reqs i 0 req).
  - intros req Htruthy Hnot. unfold _processExec. rewrite Htruthy. simpl.
    destruct req; try reflexivity. now elim (Hnot items).
Qed.


End RuleCasesFacts.

(** ** What a match tree of constants means *)

Section MatchMeaningFacts.

Import RetryCondition Matcher Facts RuleCases MatchMeaning Exact.

Variable regex_exec : string -> string -> option (list (option string)).

Local Abbreviation eval := (Matcher.eval regex_exec).
Local Abbreviation means := (MatchMeaning.means regex_exec).
Local Abbreviation answers := (MatchMeaning.answers regex_exec).

Lemma strict_eq_value (x : value) (c : constant) :
  strict_eq x c = true -> x = constant_value c.
Proof.
  destruct x as [| |b|n|s|items|fs], c as [|b'|n'|s']; try discriminate; simpl.
  - reflexivity.
  - intros H. apply Bool.eqb_prop in H. now subst.
  - intros H. apply Z.eqb_eq in H. now subst.
  - intros H. apply String.eqb_eq in H. now subst.
Qed.

Lemma scalar_compiles (leaf : value) (c : constant)
    (result : list (string * binding)) (name : expr) (fieldName : field_name)
    (t : text) (result' : list (string * binding)) :
  scalar leaf = Some c ->
  _compileMatch leaf result name fieldName = Ok (t, result') ->
  t = Code (Eq name c).
Proof.
  destruct leaf as [| |b|n|s|items|fs]; try discriminate; simpl.
  - intros H1 H2. injection H1 as <-. now injection H2 as <- _.
  - intros H1 H2. injection H1 as <-. now injection H2 as <- _.
  - destruct (String.eqb s "undefined").
    + intros H1 H2. injection H1 as <-. now injection H2 as <- _.
    + destruct (is_regex_string s); [discriminate|]. simpl.
      destruct (quotable "'" s); [|discriminate].
      intros H1 H2. injection H1 as <-. now injection H2 as <- _.
Qed.

Lemma and_all_falsy (env : list (string * value)) (others : list text)
    (first : expr) (r0 : value) :
  eval env first = Ok r0 -> truthy r0 = false ->
  eval env (and_all first others) = Ok r0.
Proof.
  unfold and_all. revert first.
  induction others as [|t rest IH]; intros first Hfirst Hfalsy; [exact Hfirst|].
  simpl. apply IH; [|exact Hfalsy].
  destruct t; try exact Hfirst. simpl. rewrite Hfirst. simpl. now rewrite Hfalsy.
Qed.

Lemma and_all_values (env : list (string * value)) (others : list text)
    (bs : list bool) :
  Forall2 (fun t b => exists e r, t = Code e /\ eval env e = Ok r /\ truthy r = b)
          others bs ->
  forall first r0,
    eval env first = Ok r0 ->
    exists r, eval env (and_all first others) = Ok r
              /\ truthy r = truthy r0 && forallb id bs.
Proof.
  unfold and_all.
  induction 1 as [|t b others bs (e & r1 & -> & He & Hb) _ IH]; intros first r0 Hfirst.
  - exists r0. split; [exact Hfirst|]. simpl. now rewrite andb_true_r.
  - simpl. destruct (truthy r0) eqn:Ht.
    + destruct (IH (And first e) r1) as (r & Hr & Htr).
      { simpl. rewrite Hfirst. simpl. now rewrite Ht. }
      exists r. split; [exact Hr|]. rewrite Htr, Hb. reflexivity.
    + destruct (IH (And first e) r0) as (r & Hr & Htr).
      { simpl. rewrite Hfirst. simpl. now rewrite Ht. }
      exists r. split; [exact Hr|]. rewrite Htr, Ht. reflexivity.
Qed.

Lemma forallb_map_id {A} (f : A -> bool) (l : list A) :
  forallb id (map f l) = forallb f l.
Proof. induction l as [|y l IH]; [reflexivity|]. simpl. now rewrite IH. Qed.

(** What the joined text of the parts means, when each part means what a
    function says of the item it was compiled from. *)
Lemma join_and_means {A} (env : list (string * value)) (f : A -> bool)
    (xs : list A) (parts : list text) :
  Forall2 (fun x t => means env t (f x)) xs parts ->
  means env (join_and parts)
        (match xs with [] => false | _ => forallb f xs end).
Proof.
  intros H. destruct H as [|x t xs parts Ht Hrest]; [reflexivity|].
  destruct Hrest as [|x' t' xs parts Ht' Hrest].
  - rewrite join_and_single. simpl. now rewrite andb_true_r.
  - rewrite join_and_many. destruct t as [|e|]; try exact I.
    destruct (forallb is_code (t' :: parts)) eqn:Hcode; [|exact I].
    destruct Ht as (r0 & Hr0 & Hb0).
    assert (Hothers :
              Forall2 (fun t b => exists e r,
                           t = Code e /\ Matcher.eval regex_exec env e = Ok r
                           /\ truthy r = b)
                      (t' :: parts) (map f (x' :: xs))).
    { assert (Hall : Forall2 (fun x t => means env t (f x)) (x' :: xs) (t' :: parts))
        by now constructor.
      clear - Hall Hcode. revert Hcode.
      induction Hall as [|y u ys us Hu _ IH]; intros Hcode; [constructor|].
      simpl in Hcode. apply andb_true_iff in Hcode as [Hu' Hcode].
      simpl. constructor; [|now apply IH].
      destruct u as [|e|]; try discriminate.
      destruct Hu as (r & Hr & Hb). eauto. }
    destruct (and_all_values env _ _ Hothers e r0 Hr0) as (r & Hr & Htr).
    exists r. split; [exact Hr|]. rewrite Htr, Hb0.
    now rewrite forallb_map_id.
Qed.

Lemma compile_items_scalars (items : list value) (index : nat) (checks : list text) :
  forallb is_scalar items = true ->
  compile_items _compileMatch items index = Ok checks ->
  Forall2 (fun item t => exists c, scalar item = Some c
                                   /\ t = Code (Eq (Var "item") c))
          items checks.
Proof.
  revert index checks.
  induction items as [|item rest IH]; intros index checks Hall Hc; simpl in Hc.
  - injection Hc as <-. constructor.
  - simpl in Hall. apply andb_true_iff in Hall as [Hitem Hrest].
    destruct (_compileMatch item [] (Var "item") (Index index)) as [[t r]| |] eqn:Ht;
      try discriminate.
    cbn [bind] in Hc.
    destruct (compile_items _compileMatch rest (S index)) as [ts| |] eqn:Hts;
      try discriminate.
    cbn [bind fst] in Hc. injection Hc as <-.
    constructor; [|now apply (IH (S index))].
    unfold is_scalar in Hitem. destruct (scalar item) as [c|] eqn:Hs; [|discriminate].
    exists c. split; [reflexivity|].
    exact (scalar_compiles item c [] (Var "item") (Index index) t r Hs Ht).
Qed.

(** [elements.find((item) => item === c)] *)
Lemma find_scalar (env : list (string * value)) (c : constant)
    (elements : list value) :
  exists r,
    find_first (fun item => eval (("item", item) :: env) (Eq (Var "item") c)) elements
    = Ok r
    /\ truthy r
       = truthy (constant_value c) && existsb (fun x => strict_eq x c) elements.
Proof.
  induction elements as [|x rest (r & Hr & Ht)].
  - exists VUndef. split; [reflexivity|]. simpl. now rewrite andb_false_r.
  - cbn [find_first Matcher.eval existsb]. unfold lookup_var. cbn [assoc].
    change (String.eqb "item" "item") with true. cbn [bind truthy].
    destruct (strict_eq x c) eqn:Hx.
    + exists x. split; [reflexivity|].
      rewrite (strict_eq_value x c Hx). simpl. now rewrite andb_true_r.
    + exists r. split; [exact Hr|]. exact Ht.
Qed.

Lemma array_text_means (env : list (string * value)) (name : expr) (v : value)
    (items : list value) (checks : list text) :
  eval env name = Ok v ->
  Forall2 (fun item t => exists c, scalar item = Some c
                                   /\ t = Code (Eq (Var "item") c))
          items checks ->
  means env (array_text name checks) (matches (VArr items) v).
Proof.
  intros Hname Hchecks.
  assert (Hcode : forallb is_code checks = true).
  { clear - Hchecks. induction Hchecks as [|item t items checks (c & _ & ->) _ IH];
      [reflexivity|exact IH]. }
  assert (Hfirst : eval env (IsArray name)
                   = Ok (VBool (match v with VArr _ => true | _ => false end))).
  { simpl. now rewrite Hname. }
  unfold array_text. destruct checks as [|t checks].
  - inversion Hchecks; subst. simpl. rewrite Hname. simpl.
    eexists. split; [reflexivity|]. now destruct v.
  - rewrite Hcode. cbn [means].
    destruct v as [| |b|n|s|elements|fs];
      try (exists (VBool false); split; [now apply and_all_falsy|reflexivity]).
    assert (Hothers :
              Forall2 (fun t b => exists e r,
                           t = Code e /\ eval env e = Ok r /\ truthy r = b)
                      (map (fun t => match t with
                                     | Code body => Code (Find name body)
                                     | _ => t
                                     end) (t :: checks))
                      (map (has_item elements) items)).
    { generalize (t :: checks) Hchecks. clear - Hname.
      intros l Hl.
      induction Hl as [|item u items' l' (c & Hc & ->) _ IH];
        [constructor|].
      cbn [map]. constructor; [|exact IH].
      destruct (find_scalar env c elements) as (r & Hr & Ht).
      exists (Find name (Eq (Var "item") c)), r. split; [reflexivity|].
      split.
      - cbn [Matcher.eval]. rewrite Hname. exact Hr.
      - unfold has_item. now rewrite Hc. }
    destruct (and_all_values env _ _ Hothers (IsArray name) _ Hfirst)
      as (r & Hr & Ht).
    exists r. split; [exact Hr|]. rewrite Ht. simpl.
    now rewrite forallb_map_id.
Qed.

Lemma get_prop_prop (v : value) (k : string) :
  is_object v = true -> get_prop v k = Ok (prop v k).
Proof. destruct v; try discriminate; reflexivity. Qed.

Lemma compile_fields_means (env : list (string * value)) (name : expr) (v : value)
    (fs : list (string * value)) :
  Forall (fun kv =>
            plain kv.2 = true ->
            forall result name fieldName t result' v,
              _compileMatch kv.2 result name fieldName = Ok (t, result') ->
              eval env name = Ok v ->
              covers kv.2 v = true ->
              means env t (matches kv.2 v)) fs ->
  eval env name = Ok v -> is_object v = true ->
  forallb (fun kv => plain kv.2) fs = true ->
  forallb (fun kv => covers kv.2 (prop v kv.1)) fs = true ->
  forall subObj parts subObj',
    compile_fields _compileMatch name fs subObj = Ok (parts, subObj') ->
    Forall2 (fun kv t => means env t (matches kv.2 (prop v kv.1))) fs parts.
Proof.
  intros Hall Hname Hv.
  induction Hall as [|[key sub] fs Hsub _ IH];
    intros Hplain Hcovers subObj parts subObj' Hc; simpl in Hc.
  - injection Hc as <- _. constructor.
  - simpl in Hplain, Hcovers.
    apply andb_true_iff in Hplain as [Hp Hplain].
    apply andb_true_iff in Hcovers as [Hcv Hcovers].
    destruct (negb (quotable "'" key)); [discriminate|].
    destruct (_compileMatch sub subObj (Get name key) (Key key)) as [[t1 r1]| |] eqn:H1;
      try discriminate.
    cbn [bind snd fst] in Hc.
    destruct (compile_fields _compileMatch name fs r1) as [[ts r2]| |] eqn:H2;
      try discriminate.
    cbn [bind snd fst] in Hc. injection Hc as <- _.
    constructor; [|exact (IH Hplain Hcovers r1 ts r2 H2)].
    apply (Hsub Hp subObj (Get name key) (Key key) t1 r1 (prop v key) H1);
      [|exact Hcv].
    cbn [Matcher.eval]. rewrite Hname. cbn [bind]. now apply get_prop_prop.
Qed.

Lemma compile_means (env : list (string * value)) (tree : value) :
  plain tree = true ->
  forall result name fieldName t result' v,
    _compileMatch tree result name fieldName = Ok (t, result') ->
    eval env name = Ok v ->
    covers tree v = true ->
    means env t (matches tree v).
Proof.
  induction tree as [| |b|n|s|items|fs IH] using value_fields_ind;
    intros Hplain result name fieldName t result' v Hc Hname Hcovers;
    try discriminate.
  - rewrite (scalar_compiles (VBool b) (CBool b) _ _ _ _ _ eq_refl Hc).
    simpl. rewrite Hname. simpl. eauto.
  - rewrite (scalar_compiles (VNum n) (CNum n) _ _ _ _ _ eq_refl Hc).
    simpl. rewrite Hname. simpl. eauto.
  - cbn [plain] in Hplain. unfold is_scalar in Hplain.
    destruct (scalar (VStr s)) as [c|] eqn:Hs; [|discriminate].
    rewrite (scalar_compiles (VStr s) c _ _ _ _ _ Hs Hc).
    cbn [matches]. rewrite Hs. simpl. rewrite Hname. simpl. eauto.
  - cbn [_compileMatch] in Hc.
    destruct (compile_items _compileMatch items 0) as [checks| |] eqn:Hitems;
      try discriminate.
    cbn [bind] in Hc. injection Hc as <- _.
    apply array_text_means; [exact Hname|].
    exact (compile_items_scalars items 0 checks Hplain Hitems).
  - cbn [_compileMatch] in Hc. destruct (assoc "constructor" fs).
    { injection Hc as <- _. exact I. }
    destruct (compile_fields _compileMatch name fs
                (if given fieldName then [] else result)) as [[parts subObj']| |] eqn:Hf;
      try discriminate.
    cbn [bind fst snd] in Hc. injection Hc as <- _.
    cbn [plain covers] in Hplain, Hcovers.
    apply andb_true_iff in Hcovers as [Hv Hcovers].
    assert (Hplain' : forallb (fun kv => plain kv.2) fs = true).
    { apply forallb_forall. intros kv Hin.
      rewrite forallb_forall in Hplain. specialize (Hplain kv Hin).
      now apply andb_true_iff in Hplain as [_ Hplain]. }
    pose proof (compile_fields_means env name v fs IH Hname Hv Hplain' Hcovers
                  _ parts subObj' Hf) as Hparts.
    pose proof (join_and_means env (fun kv => matches kv.2 (prop v kv.1)) fs parts
                  Hparts) as Hjoin.
    destruct fs; exact Hjoin.
Qed.

(** The predicate of a tree of constants.  For a match tree made of
    objects, arrays of scalars and scalars (no regular expressions, no key
    that names an inherited member), whose keys are identifiers and whose
    strings have no apostrophe, backslash or line end, and an event that
    has an object wherever the tree has one, the compiled predicate returns
    a value, and that value is true exactly when the event
    matches the tree: every scalar is strictly equal to the value at its
    path, with the string ['undefined'] standing for [undefined], and every
    item of an array is found, as a true value, in the array at its path.  An
    object without fields, and an array item that is a false value, match
    nothing. *)
Theorem predicate_of_constants_is_strict_equality
    (M : value) (m : matcher) (E : value) :
  _processMatch M = Ok (Some m) ->
  plain M = true ->
  pasted_exactly M = true ->
  covers M E = true ->
  exists r, call regex_exec (test m) E = Ok r /\ truthy r = matches M E.
Proof.
  intros Hm Hplain _ Hcovers. unfold _processMatch in Hm.
  destruct (negb (truthy M)); [discriminate|].
  destruct (_compileMatch M [] (Var "message") NoField) as [[t result]| |] eqn:Hc;
    try discriminate.
  cbn [bind fst snd] in Hm.
  pose proof (compile_means [("message", E)] M Hplain [] (Var "message") NoField
                t result E Hc eq_refl Hcovers) as Hmeans.
  destruct (_getMatchObjCode (BObj result)) as [code| |];
    destruct t as [|body|]; try discriminate; cbn [bind] in Hm;
    injection Hm as <-; simpl.
  - exists VUndef. split; [reflexivity|]. simpl in Hmeans. now rewrite Hmeans.
  - exact Hmeans.
Qed.

(** *** The binder of a tree without regular expressions *)

Lemma assoc_set_fresh {A} (k : string) (x : A) (fs : list (string * A)) :
  assoc k fs = None -> assoc_set k x fs = (fs ++ [(k, x)])%list.
Proof.
  induction fs as [|[k' x'] fs IH]; [reflexivity|]. simpl.
  destruct (String.eqb k k'); [discriminate|]. intros H. now rewrite IH.
Qed.

Lemma assoc_app_fresh {A} (k k' : string) (x : A) (fs : list (string * A)) :
  assoc k fs = None -> String.eqb k k' = false ->
  assoc k (fs ++ [(k', x)])%list = None.
Proof.
  induction fs as [|[k0 x0] fs IH]; simpl.
  - intros _ ->. reflexivity.
  - destruct (String.eqb k k0); [discriminate|]. exact IH.
Qed.

Lemma identifier_named (k : string) : is_identifier k = true -> given (Key k) = true.
Proof. destruct k; [discriminate|reflexivity]. Qed.

Lemma compile_fields_stores (name : expr) (fs : list (string * value)) :
  Forall (fun kv => stores kv.2) fs ->
  forallb (fun kv => regex_free kv.2) fs = true ->
  forallb (fun kv => is_identifier kv.1 && negb (inherited kv.1)) fs = true ->
  distinct_names (map fst fs) = true ->
  forallb (fun kv => keyed kv.2) fs = true ->
  forall acc parts acc',
    Forall (fun kv => assoc kv.1 acc = None) fs ->
    compile_fields _compileMatch name fs acc = Ok (parts, acc') ->
    acc' = (acc ++ flat_map (fun kv => match stored kv.2 with
                                       | Some b => [(kv.1, b)]
                                       | None => []
                                       end) fs)%list.
Proof.
  induction 1 as [|[key sub] fs Hsub _ IH];
    intros Hfree Hid Hdistinct Hkeyed acc parts acc' Hfresh Hc; simpl in Hc.
  - injection Hc as _ <-. simpl. now rewrite app_nil_r.
  - simpl in Hfree, Hid, Hdistinct, Hkeyed.
    apply andb_true_iff in Hfree as [Hf Hfree].
    apply andb_true_iff in Hid as [Hk Hid].
    apply andb_true_iff in Hk as [Hk _].
    apply andb_true_iff in Hdistinct as [Hnew Hdistinct].
    apply andb_true_iff in Hkeyed as [Hkd Hkeyed].
    inversion Hfresh as [|? ? Hacc Hrest]; subst. simpl in Hacc.
    destruct (negb (quotable "'" key)); [discriminate|].
    destruct (_compileMatch sub acc (Get name key) (Key key)) as [[t1 r1]| |] eqn:H1;
      try discriminate.
    cbn [bind fst snd] in Hc.
    destruct (compile_fields _compileMatch name fs r1) as [[ts r2]| |] eqn:H2;
      try discriminate.
    cbn [bind fst snd] in Hc. injection Hc as _ <-.
    pose proof (Hsub Hf Hkd acc (Get name key) key t1 r1 H1 Hk Hacc) as ->.
    assert (Hlater : Forall (fun kv => assoc kv.1
                                         (acc ++ match stored sub with
                                                 | Some b => [(key, b)]
                                                 | None => []
                                                 end)%list = None) fs).
    { apply negb_true_iff in Hnew.
      rewrite List.Forall_forall in Hrest |- *. intros [k' sub'] Hin. simpl.
      assert (Hne : String.eqb k' key = false).
      { apply not_true_is_false. intros Heq. apply String.eqb_eq in Heq. subst k'.
        assert (Hex : existsb (String.eqb key) (map fst fs) = true).
        { apply existsb_exists. exists key. split; [|apply String.eqb_refl].
          apply in_map_iff. now exists (key, sub'). }
        congruence. }
      specialize (Hrest _ Hin). simpl in Hrest.
      destruct (stored sub); [|now rewrite app_nil_r].
      now apply assoc_app_fresh. }
    rewrite (IH Hfree Hid Hdistinct Hkeyed _ ts r2 Hlater H2).
    simpl. now rewrite <- app_assoc.
Qed.

Lemma keyed_no_constructor {A} (fs : list (string * A)) :
  forallb (fun kv => is_identifier kv.1 && negb (inherited kv.1)) fs = true ->
  assoc "constructor" fs = None.
Proof.
  induction fs as [|[k0 x0] fs IH]; [reflexivity|].
  cbn [forallb assoc fst]. intros H. apply andb_true_iff in H as [Hk0 Hid].
  destruct (String.eqb "constructor" k0) eqn:Heq; [|now apply IH].
  apply String.eqb_eq in Heq. subst k0.
  apply andb_true_iff in Hk0 as [_ Hk0]. discriminate.
Qed.

Lemma compile_stores (tree : value) : stores tree.
Proof.
  induction tree as [| |b|n|s|items|fs IH] using value_fields_ind;
    intros Hfree Hkeyed result name k t result' Hc Hk Hfresh; try discriminate.
  - simpl in Hc. injection Hc as _ <-. now apply assoc_set_fresh.
  - simpl in Hc. injection Hc as _ <-. now apply assoc_set_fresh.
  - simpl in Hc, Hfree |- *. apply negb_true_iff in Hfree.
    destruct (String.eqb s "undefined").
    + injection Hc as _ <-. now rewrite app_nil_r.
    + rewrite Hfree in Hc. simpl in Hc.
      destruct (quotable "'" s); [|discriminate].
      injection Hc as _ <-. now apply assoc_set_fresh.
  - cbn [_compileMatch] in Hc.
    destruct (compile_items _compileMatch items 0) as [checks| |];
      try discriminate.
    cbn [bind] in Hc. injection Hc as _ <-. simpl. now rewrite app_nil_r.
  - cbn [_compileMatch] in Hc. destruct (assoc "constructor" fs) eqn:Hctor.
    { exfalso. cbn [keyed] in Hkeyed.
      apply andb_true_iff in Hkeyed as [Hkeyed _].
      apply andb_true_iff in Hkeyed as [Hid _].
      rewrite (keyed_no_constructor fs Hid) in Hctor. discriminate. }
    rewrite (identifier_named k Hk) in Hc.
    destruct (compile_fields _compileMatch name fs []) as [[parts sub]| |] eqn:Hf;
      try discriminate.
    cbn [bind fst snd] in Hc. injection Hc as _ <-.
    cbn [keyed regex_free] in Hkeyed, Hfree.
    apply andb_true_iff in Hkeyed as [Hkeyed Hsubs].
    apply andb_true_iff in Hkeyed as [Hid Hdistinct].
    assert (Hnone : Forall (fun kv : string * value =>
                              assoc kv.1 (@nil (string * binding)) = None) fs)
      by (apply List.Forall_forall; reflexivity).
    rewrite (compile_fields_stores name fs IH Hfree Hid Hdistinct Hsubs [] parts sub
               Hnone Hf).
    unfold store. cbn [property_key app stored]. now apply assoc_set_fresh.
Qed.

Lemma distinct_stored (fs : list (string * value)) :
  distinct_names (map fst fs) = true ->
  distinct_names (map fst (flat_map (fun kv => match stored kv.2 with
                                               | Some b => [(kv.1, b)]
                                               | None => []
                                               end) fs)) = true.
Proof.
  induction fs as [|[k x] fs IH]; [reflexivity|]. simpl.
  intros H. apply andb_true_iff in H as [Hnew Hrest].
  destruct (stored x); simpl; [|now apply IH].
  rewrite (IH Hrest), andb_true_r. apply negb_true_iff in Hnew.
  apply negb_true_iff. apply not_true_is_false. intros Hex.
  apply existsb_exists in Hex as (k' & Hin & Heq).
  assert (Hex' : existsb (String.eqb k) (map fst fs) = true); [|congruence].
  apply existsb_exists. exists k'. split; [|exact Heq].
  clear - Hin. induction fs as [|[k0 x0] fs IHfs]; [contradiction|].
  simpl in Hin |- *. destruct (stored x0); simpl in Hin; [|right; now apply IHfs].
  destruct Hin as [<-|Hin]; [now left|right; now apply IHfs].
Qed.

Lemma fields_answer (env : list (string * value)) (fs : list (string * value)) :
  Forall (fun kv => answers env kv.2) fs ->
  forallb (fun kv => regex_free kv.2) fs = true ->
  forallb (fun kv => keyed kv.2) fs = true ->
  distinct_names (map fst fs) = true ->
  forall code acc,
    Forall (fun kv => assoc kv.1 acc = None) fs ->
    fields_code _getMatchObjCode
      (flat_map (fun kv => match stored kv.2 with
                           | Some b => [(kv.1, b)]
                           | None => []
                           end) fs) = Ok code ->
    eval_fields (eval env) code acc
    = Ok (acc ++ flat_map (fun kv => match kept kv.2 with
                                     | Some x => [(kv.1, x)]
                                     | None => []
                                     end) fs)%list.
Proof.
  induction 1 as [|[key sub] fs Hsub _ IH];
    intros Hfree Hkeyed Hdistinct code acc Hfresh Hcode; simpl in Hcode.
  - injection Hcode as <-. simpl. now rewrite app_nil_r.
  - simpl in Hfree, Hkeyed, Hdistinct.
    apply andb_true_iff in Hfree as [Hf Hfree].
    apply andb_true_iff in Hkeyed as [Hkd Hkeyed].
    apply andb_true_iff in Hdistinct as [Hnew Hdistinct].
    inversion Hfresh as [|? ? Hacc Hrest]; subst. simpl in Hacc.
    assert (Hlater : forall x,
               Forall (fun kv => assoc kv.1 (acc ++ [(key, x)])%list = None) fs).
    { intros x. apply negb_true_iff in Hnew.
      rewrite List.Forall_forall in Hrest |- *. intros [k' sub'] Hin. simpl.
      apply assoc_app_fresh; [exact (Hrest _ Hin)|].
      apply not_true_is_false. intros Heq. apply String.eqb_eq in Heq. subst k'.
      assert (Hex : existsb (String.eqb key) (map fst fs) = true); [|congruence].
      apply existsb_exists. exists key. split; [|apply String.eqb_refl].
      apply in_map_iff. now exists (key, sub'). }
    cbn [flat_map fst snd]. unfold answers in Hsub. simpl in Hsub.
    destruct (stored sub) as [b|] eqn:Hb.
    + cbn [app fields_code] in Hcode.
      destruct (negb (is_identifier key)); [discriminate|].
      destruct (_getMatchObjCode b) as [e| |] eqn:He; try discriminate.
      cbn [bind] in Hcode.
      destruct (fields_code _getMatchObjCode _) as [es| |] eqn:Hes; try discriminate.
      cbn [bind] in Hcode. injection Hcode as <-.
      destruct (Hsub Hf Hkd b e eq_refl He) as (v & Hv & Hev).
      rewrite Hv. cbn [eval_fields]. rewrite Hev. cbn [bind].
      rewrite (assoc_set_fresh key v acc Hacc).
      rewrite (IH Hfree Hkeyed Hdistinct es _ (Hlater v) eq_refl).
      simpl. now rewrite <- app_assoc.
    + cbn [app] in Hcode.
      assert (Hk : kept sub = None).
      { clear - Hb. destruct sub; try reflexivity; try discriminate.
        simpl in *. now destruct (String.eqb s "undefined"). }
      rewrite Hk. cbn [app].
      exact (IH Hfree Hkeyed Hdistinct code acc Hrest Hcode).
Qed.

Lemma stored_answers (env : list (string * value)) (tree : value) : answers env tree.
Proof.
  induction tree as [| |b|n|s|items|fs IH] using value_fields_ind;
    intros Hfree Hkeyed bd code Hs Hcode; try discriminate.
  - simpl in Hs. injection Hs as <-. simpl in Hcode. injection Hcode as <-.
    eexists. split; reflexivity.
  - simpl in Hs. injection Hs as <-. simpl in Hcode. injection Hcode as <-.
    eexists. split; reflexivity.
  - simpl in Hs |- *. destruct (String.eqb s "undefined"); [discriminate|].
    injection Hs as <-. simpl in Hcode. injection Hcode as <-.
    eexists. split; reflexivity.
  - cbn [stored] in Hs. injection Hs as <-. cbn [_getMatchObjCode] in Hcode.
    destruct (fields_code _getMatchObjCode _) as [es| |] eqn:Hes; try discriminate.
    cbn [bind] in Hcode. injection Hcode as <-.
    cbn [keyed regex_free] in Hkeyed, Hfree.
    apply andb_true_iff in Hkeyed as [Hkeyed Hsubs].
    apply andb_true_iff in Hkeyed as [_ Hdistinct].
    eexists. split; [reflexivity|]. cbn [Matcher.eval].
    assert (Hnone : Forall (fun kv : string * value =>
                              assoc kv.1 (@nil (string * value)) = None) fs)
      by (apply List.Forall_forall; reflexivity).
    now rewrite (fields_answer env fs IH Hfree Hsubs Hdistinct es [] Hnone Hes).
Qed.

(** The binder of a tree without regular expressions is a constant.  For
    a match tree that is an object without regular-expression leaves, with
    keys that are distinct identifiers and no inherited names, and strings
    without an apostrophe, backslash or line end, the compiled binder
    returns on
    every event the tree itself without its arrays and its ['undefined']
    leaves: nothing of the event enters the result. *)
Theorem binder_of_constants_returns_the_tree
    (fs : list (string * value)) (m : matcher) (E : value) :
  _processMatch (VObj fs) = Ok (Some m) ->
  regex_free (VObj fs) = true ->
  keyed (VObj fs) = true ->
  pasted_exactly (VObj fs) = true ->
  exists v,
    kept (VObj fs) = Some v
    /\ eval [("message", E)] (expand m) = Ok v.
Proof.
  intros Hm Hfree Hkeyed _. unfold _processMatch in Hm. cbn [truthy negb] in Hm.
  cbn [_compileMatch given] in Hm.
  destruct (assoc "constructor" fs) eqn:Hctor.
  { cbn [bind fst] in Hm. discriminate. }
  destruct (compile_fields _compileMatch (Var "message") fs [])
    as [[parts result]| |] eqn:Hf; try discriminate.
  cbn [bind fst snd] in Hm.
  pose proof Hkeyed as Hkeyed'. pose proof Hfree as Hfree'.
  cbn [keyed regex_free] in Hkeyed', Hfree'.
  apply andb_true_iff in Hkeyed' as [Hk Hsubs].
  apply andb_true_iff in Hk as [Hid Hdistinct].
  assert (Hresult : result = flat_map (fun kv => match stored kv.2 with
                                                 | Some b => [(kv.1, b)]
                                                 | None => []
                                                 end) fs).
  { assert (Hnone : Forall (fun kv : string * value =>
                              assoc kv.1 (@nil (string * binding)) = None) fs)
      by (apply List.Forall_forall; reflexivity).
    assert (Hall : Forall (fun kv : string * value => stores kv.2) fs)
      by (apply List.Forall_forall; intros kv _; apply compile_stores).
    now rewrite (compile_fields_stores (Var "message") fs Hall
                   Hfree' Hid Hdistinct Hsubs [] parts result Hnone Hf). }
  destruct (_getMatchObjCode (BObj result)) as [code| |] eqn:Hcode;
    destruct (join_and parts) as [|body|]; try discriminate; cbn [bind] in Hm;
    injection Hm as <-; cbn [expand];
    apply (stored_answers [("message", E)] (VObj fs) Hfree Hkeyed (BObj result) code);
    try exact Hcode; cbn [stored]; now rewrite Hresult.
Qed.

End MatchMeaningFacts.

(** ** The settings of the factory *)

Section FactorySettingsFacts.

Import RetryCondition Matcher MatchMeaning FactorySettings.

Lemma assoc_field {A} (k : string) (fs : list (string * A)) :
  existsb (String.eqb k) (map fst fs) = false -> assoc k fs = None.
Proof.
  induction fs as [|[k' x] fs IH]; [reflexivity|]. simpl.
  destruct (String.eqb k k'); [discriminate|exact IH].
Qed.

Lemma fold_assign_field (k : string) (fs target : list (string * value)) :
  distinct_names (map fst fs) = true ->
  field (fold_left (fun acc kv => assoc_set kv.1 kv.2 acc) fs target) k
  = match assoc k fs with
    | Some v => v
    | None => field target k
    end.
Proof.
  revert target. induction fs as [|[k0 v0] fs IH]; intros target Hd; [reflexivity|].
  simpl in Hd. apply andb_true_iff in Hd as [Hnew Hd]. apply negb_true_iff in Hnew.
  cbn [fold_left assoc fst snd]. rewrite (IH _ Hd).
  destruct (String.eqb k k0) eqn:Hk.
  - apply String.eqb_eq in Hk. subst k0.
    rewrite (assoc_field k fs Hnew). apply field_assoc_set_same.
  - destruct (assoc k fs); [reflexivity|]. now apply field_assoc_set_other.
Qed.

Lemma assign_field (k : string) (target : list (string * value)) (source : value) :
  distinct_names (map fst (entries source)) = true ->
  field (assign target source) k
  = match assoc k (entries source) with
    | Some v => v
    | None => field target k
    end.
Proof. apply fold_assign_field. Qed.

Lemma settings_entries (settings : value) :
  is_settings settings = true ->
  distinct_names (map fst (entries settings)) = true.
Proof.
  destruct settings as [| |[|]|n|s|items|fs]; try discriminate; simpl; try tauto.
  destruct s; [reflexivity|discriminate].
Qed.

Lemma assoc_remove_same (k : string) (fs : list (string * value)) :
  assoc k (remove k fs) = None.
Proof.
  induction fs as [|[k' v] fs IH]; [reflexivity|]. simpl.
  destruct (String.eqb k k') eqn:Hk; [exact IH|]. simpl. now rewrite Hk.
Qed.

Lemma assoc_remove_other (k k' : string) (fs : list (string * value)) :
  String.eqb k' k = false -> assoc k' (remove k fs) = assoc k' fs.
Proof.
  intros Hne. induction fs as [|[k0 v] fs IH]; [reflexivity|]. simpl.
  destruct (String.eqb k k0) eqn:Hk.
  - apply String.eqb_eq in Hk. subst k0. now rewrite Hne.
  - simpl. now rewrite IH.
Qed.

Lemma remove_absent (k : string) (fs : list (string * value)) :
  assoc k fs = None -> remove k fs = fs.
Proof.
  induction fs as [|[k' v] fs IH]; [reflexivity|]. simpl.
  destruct (String.eqb k k'); [discriminate|]. intros H. now rewrite IH.
Qed.

Lemma distinct_remove (k : string) (fs : list (string * value)) :
  distinct_names (map fst fs) = true ->
  distinct_names (map fst (remove k fs)) = true.
Proof.
  induction fs as [|[k' v] fs IH]; [reflexivity|]. simpl.
  intros H. apply andb_true_iff in H as [Hnew Hd].
  destruct (String.eqb k k'); [now apply IH|]. simpl.
  rewrite (IH Hd), andb_true_r. apply negb_true_iff in Hnew.
  apply negb_true_iff. apply not_true_is_false. intros Hex.
  apply existsb_exists in Hex as (k0 & Hin & Heq).
  assert (Hex' : existsb (String.eqb k') (map fst fs) = true); [|congruence].
  apply existsb_exists. exists k0. split; [|exact Heq].
  clear - Hin. induction fs as [|[k1 v1] fs IHfs]; [contradiction|].
  simpl in Hin |- *. destruct (String.eqb k k1); [right; now apply IHfs|].
  destruct Hin as [<-|Hin]; [now left|right; now apply IHfs].
Qed.

Lemma forget_other (key k : string) (kafkaConf : list (string * value)) :
  String.eqb k key = false ->
  field (forget_topic_settings key kafkaConf) k = field kafkaConf k.
Proof.
  intros Hne. unfold forget_topic_settings.
  destruct (truthy (field kafkaConf key)); [|reflexivity].
  now apply field_assoc_set_other.
Qed.

Lemma forget_same (key : string) (kafkaConf : list (string * value)) :
  field (forget_topic_settings key kafkaConf) key
  = delete_prop "default_topic_conf" (field kafkaConf key).
Proof.
  unfold forget_topic_settings.
  destruct (truthy (field kafkaConf key)) eqn:Ht; [apply field_assoc_set_same|].
  now destruct (field kafkaConf key) as [| |[|]|n|s|items|fs].
Qed.

Lemma settings_deleted (settings : value) :
  is_settings settings = true ->
  is_settings (delete_prop "default_topic_conf" settings) = true.
Proof.
  destruct settings; try (simpl; tauto). simpl. apply distinct_remove.
Qed.

Lemma layered_deleted (defaults : list (string * value)) (settings : value)
    (k : string) :
  String.eqb k "default_topic_conf" = false ->
  layered defaults (js_or (delete_prop "default_topic_conf" settings) (VObj [])) k
  = layered defaults settings k.
Proof.
  intros Hne. unfold layered, js_or.
  destruct settings as [| |[|]|n|s|items|fs]; try reflexivity.
  - simpl. destruct (n =? 0); reflexivity.
  - destruct s as [|c s]; reflexivity.
  - simpl. now rewrite assoc_remove_other.
Qed.

Lemma topic_settings_total (settings : value) :
  topic_settings settings
  = Ok (js_or (if truthy settings then prop settings "default_topic_conf"
               else settings) (VObj [])).
Proof.
  unfold topic_settings, prop.
  destruct (truthy settings) eqn:Ht; [|reflexivity].
  destruct settings; try discriminate; reflexivity.
Qed.

(** The parts of a constructed factory in terms of the configuration it was
    given. *)
Lemma constructed (kafkaConf : list (string * value)) (f : FactorySettings.t) :
  constructor kafkaConf = Ok f ->
  exists consumer_topic producer_topic,
    topic_settings (field kafkaConf "consumer") = Ok consumer_topic
    /\ topic_settings (field kafkaConf "producer") = Ok producer_topic
    /\ truthy (field kafkaConf "metadata_broker_list") = true
    /\ _kafkaConf f
       = forget_topic_settings "producer" (forget_topic_settings "consumer" kafkaConf)
    /\ _consumerTopicConf f
       = assign (assign [] (VObj CONSUMER_TOPIC_DEFAULTS)) consumer_topic
    /\ _producerTopicConf f
       = assign (assign [] (VObj PRODUCER_TOPIC_DEFAULTS)) producer_topic
    /\ _consumerConf f
       = assoc_set "metadata.broker.list" (field kafkaConf "metadata_broker_list")
           (assign (assign [] (VObj CONSUMER_DEFAULTS))
              (js_or (delete_prop "default_topic_conf" (field kafkaConf "consumer"))
                     (VObj [])))
    /\ _producerConf f
       = assoc_set "metadata.broker.list" (field kafkaConf "metadata_broker_list")
           (assign (assign [] (VObj PRODUCER_DEFAULTS))
              (js_or (delete_prop "default_topic_conf" (field kafkaConf "producer"))
                     (VObj [])))
    /\ startup_delay f = js_or (field kafkaConf "startup_delay") (VNum 0).
Proof.
  unfold constructor.
  destruct (truthy (field kafkaConf "metadata_broker_list")) eqn:Hb; [|discriminate].
  cbn [negb].
  repeat first [ rewrite forget_other by reflexivity | rewrite forget_same ].
  rewrite !topic_settings_total. cbn [bind].
  intros H. injection H as <-. do 2 eexists. cbn.
  repeat split; reflexivity.
Qed.

Lemma fold_assign_absent (k : string) (fs target : list (string * value)) :
  assoc k fs = None -> assoc k target = None ->
  assoc k (fold_left (fun acc kv => assoc_set kv.1 kv.2 acc) fs target) = None.
Proof.
  revert target. induction fs as [|[k0 v0] fs IH]; intros target Hfs Ht; [exact Ht|].
  cbn [fold_left fst snd]. cbn [assoc] in Hfs.
  destruct (String.eqb k k0) eqn:Hk; [discriminate|].
  apply IH; [exact Hfs|].
  clear - Ht Hk. induction target as [|[k1 v1] target IHt]; simpl.
  - now rewrite Hk.
  - simpl in Ht. destruct (String.eqb k k1) eqn:Hk1; [discriminate|].
    destruct (String.eqb k0 k1); simpl; rewrite ?Hk, ?Hk1; auto.
Qed.

Lemma assoc_set_absent (k k' : string) (v : value) (fs : list (string * value)) :
  String.eqb k k' = false -> assoc k fs = None -> assoc k (assoc_set k' v fs) = None.
Proof.
  intros Hk. induction fs as [|[k1 v1] fs IH]; simpl.
  - now rewrite Hk.
  - destruct (String.eqb k k1) eqn:Hk1; [discriminate|]. intros H.
    destruct (String.eqb k' k1); simpl; rewrite ?Hk, ?Hk1; auto.
Qed.

Lemma deleted_absent (settings : value) :
  is_settings settings = true ->
  assoc "default_topic_conf"
    (entries (js_or (delete_prop "default_topic_conf" settings) (VObj []))) = None.
Proof.
  destruct settings as [| |[|]|n|s|items|fs]; try discriminate; try reflexivity.
  - unfold js_or. simpl. now destruct (n =? 0).
  - destruct s; [reflexivity|discriminate].
  - intros _. unfold js_or. simpl. apply assoc_remove_same.
Qed.

(** Whose setting counts.  In the consumer and the producer configuration
    of a factory every setting is the one the configuration gives under
    [consumer] or [producer], where it gives one, and the built-in default
    otherwise; but [metadata.broker.list] is always the broker list of the
    configuration, and [default_topic_conf] is never part of them.  The
    topic settings are layered on their defaults in the same way. *)
Theorem settings_precedence (kafkaConf : list (string * value)) (f : FactorySettings.t) :
  constructor kafkaConf = Ok f ->
  is_settings (field kafkaConf "consumer") = true ->
  is_settings (field kafkaConf "producer") = true ->
  (forall k,
      String.eqb k "metadata.broker.list" = false ->
      String.eqb k "default_topic_conf" = false ->
      field (_consumerConf f) k
      = layered CONSUMER_DEFAULTS (field kafkaConf "consumer") k
      /\ field (_producerConf f) k
         = layered PRODUCER_DEFAULTS (field kafkaConf "producer") k)
  /\ field (_consumerConf f) "metadata.broker.list"
     = field kafkaConf "metadata_broker_list"
  /\ field (_producerConf f) "metadata.broker.list"
     = field kafkaConf "metadata_broker_list"
  /\ assoc "default_topic_conf" (_consumerConf f) = None
  /\ assoc "default_topic_conf" (_producerConf f) = None
  /\ (forall topic k,
        get_prop (field kafkaConf "consumer") "default_topic_conf" = Ok topic ->
        is_settings topic = true ->
        field (_consumerTopicConf f) k = layered CONSUMER_TOPIC_DEFAULTS topic k)
  /\ (forall topic k,
        get_prop (field kafkaConf "producer") "default_topic_conf" = Ok topic ->
        is_settings topic = true ->
        field (_producerTopicConf f) k = layered PRODUCER_TOPIC_DEFAULTS topic k).
Proof.
  intros Hnew Hc Hp.
  destruct (constructed kafkaConf f Hnew)
    as (ct & pt & Hct & Hpt & Hb & _ & Hctc & Hptc & Hcc & Hpc & _).
  assert (Hlayer : forall defaults settings k,
             distinct_names (map fst defaults) = true ->
             is_settings settings = true ->
             field (assign (assign [] (VObj defaults)) settings) k
             = layered defaults settings k).
  { intros defaults settings k Hd Hs. unfold layered.
    rewrite assign_field by now apply settings_entries.
    destruct (assoc k (entries settings)); [reflexivity|].
    rewrite assign_field by exact Hd. simpl. unfold field.
    now destruct (assoc k defaults). }
  assert (Hor : forall settings,
             is_settings settings = true ->
             is_settings (js_or (delete_prop "default_topic_conf" settings) (VObj []))
             = true).
  { intros settings Hs. pose proof (settings_deleted settings Hs) as Hd.
    unfold js_or.
    destruct (truthy (delete_prop "default_topic_conf" settings));
      [exact Hd|reflexivity]. }
  assert (Habsent : forall defaults brokers settings,
             assoc "default_topic_conf" defaults = None ->
             is_settings settings = true ->
             assoc "default_topic_conf"
               (assoc_set "metadata.broker.list" brokers
                  (assign (assign [] (VObj defaults))
                     (js_or (delete_prop "default_topic_conf" settings) (VObj []))))
             = None).
  { intros defaults brokers settings Hd Hs.
    apply assoc_set_absent; [reflexivity|].
    apply fold_assign_absent; [now apply deleted_absent|].
    now apply fold_assign_absent. }
  assert (Htopic : forall defaults settings topic given (k : string),
             distinct_names (map fst defaults) = true ->
             topic_settings settings = Ok given ->
             get_prop settings "default_topic_conf" = Ok topic ->
             is_settings topic = true ->
             field (assign (assign [] (VObj defaults)) given) k
             = layered defaults topic k).
  { intros defaults settings topic given k Hd Hgiven Htopic Hs.
    unfold topic_settings in Hgiven.
    destruct (truthy settings) eqn:Ht.
    - rewrite Htopic in Hgiven. cbn [bind] in Hgiven. injection Hgiven as <-.
      rewrite Hlayer; try assumption.
      + unfold layered, js_or. destruct (truthy topic) eqn:Htt; [reflexivity|].
        now destruct topic as [| |[|]|n|[|c s]|items|fs].
      + unfold js_or. now destruct (truthy topic).
    - cbn [bind] in Hgiven. injection Hgiven as <-.
      rewrite (js_or_falsy _ (VObj []) Ht).
      rewrite Hlayer by (try assumption; reflexivity).
      assert (Hundef : topic = VUndef).
      { destruct settings as [| |[|]|n|[|c s]|items|fs]; try discriminate;
          simpl in Htopic; now injection Htopic as <-. }
      now subst topic. }
  rewrite Hcc, Hpc, Hctc, Hptc.
  split; [|split; [|split; [|split; [|split; [|split]]]]].
  - intros k Hk1 Hk2.
    rewrite !field_assoc_set_other by exact Hk1.
    rewrite !Hlayer by (try reflexivity; now apply Hor).
    now rewrite !layered_deleted.
  - apply field_assoc_set_same.
  - apply field_assoc_set_same.
  - now apply Habsent.
  - now apply Habsent.
  - intros topic k Htp Hs. now apply (Htopic _ (field kafkaConf "consumer") topic).
  - intros topic k Htp Hs. now apply (Htopic _ (field kafkaConf "producer") topic).
Qed.

Lemma deleted_topic (settings : value) :
  topic_settings (delete_prop "default_topic_conf" settings) = Ok (VObj []).
Proof.
  rewrite topic_settings_total. unfold prop.
  destruct settings as [| |[|]|n|s|items|fs]; try reflexivity.
  - cbn [delete_prop truthy get_prop]. unfold js_or.
    destruct (n =? 0) eqn:Hn; cbn [negb truthy]; [|reflexivity].
    now rewrite Hn.
  - destruct s as [|c s]; reflexivity.
  - cbn [delete_prop truthy get_prop]. now rewrite assoc_remove_same.
Qed.

Lemma deleted_twice (settings : value) :
  delete_prop "default_topic_conf" (delete_prop "default_topic_conf" settings)
  = delete_prop "default_topic_conf" settings.
Proof.
  destruct settings; try reflexivity. simpl. f_equal.
  apply remove_absent, assoc_remove_same.
Qed.

Lemma assoc_set_field (k : string) (fs : list (string * value)) (v : value) :
  assoc k fs = Some v -> assoc_set k v fs = fs.
Proof.
  induction fs as [|[k' v'] fs IH]; [discriminate|]. simpl.
  destruct (String.eqb k k') eqn:Hk.
  - intros H. injection H as ->. apply String.eqb_eq in Hk. now subst.
  - intros H. now rewrite IH.
Qed.

Lemma forget_twice (key : string) (kafkaConf : list (string * value)) :
  forget_topic_settings key (forget_topic_settings key kafkaConf)
  = forget_topic_settings key kafkaConf.
Proof.
  unfold forget_topic_settings at 1. rewrite forget_same, deleted_twice.
  destruct (truthy (delete_prop "default_topic_conf" (field kafkaConf key)))
    eqn:Hdel; [|reflexivity].
  unfold forget_topic_settings.
  destruct (truthy (field kafkaConf key)) eqn:Ht.
  - clear Ht Hdel. generalize (delete_prop "default_topic_conf" (field kafkaConf key)).
    intros x. induction kafkaConf as [|[k v] rest IH]; cbn [assoc_set].
    + now rewrite String.eqb_refl.
    + destruct (String.eqb key k) eqn:Hk; cbn [assoc_set].
      * now rewrite String.eqb_refl.
      * now rewrite Hk, IH.
  - assert (Hsame : delete_prop "default_topic_conf" (field kafkaConf key)
                    = field kafkaConf key).
    { now destruct (field kafkaConf key) as [| |[|]|n|s|items|fs]. }
    rewrite Hsame in Hdel. congruence.
Qed.

(** The constructor uses its argument up.  It deletes [default_topic_conf]
    from the consumer and producer settings of the configuration object it
    is given; a second factory made from the same object has the same
    consumer and producer configuration but the default topic settings, and
    leaves the object as it found it.  The DC names are not affected. *)
Theorem second_factory_has_default_topic_settings
    (kafkaConf : list (string * value)) (f : FactorySettings.t) :
  constructor kafkaConf = Ok f ->
  exists f',
    constructor (_kafkaConf f) = Ok f'
    /\ _consumerTopicConf f' = CONSUMER_TOPIC_DEFAULTS
    /\ _producerTopicConf f' = PRODUCER_TOPIC_DEFAULTS
    /\ _consumerConf f' = _consumerConf f
    /\ _producerConf f' = _producerConf f
    /\ _kafkaConf f' = _kafkaConf f
    /\ KafkaFactory.consumeDC {| KafkaFactory._kafkaConf := _kafkaConf f |}
       = KafkaFactory.consumeDC {| KafkaFactory._kafkaConf := kafkaConf |}
    /\ KafkaFactory.produceDC {| KafkaFactory._kafkaConf := _kafkaConf f |}
       = KafkaFactory.produceDC {| KafkaFactory._kafkaConf := kafkaConf |}.
Proof.
  intros Hnew.
  destruct (constructed kafkaConf f Hnew)
    as (ct & pt & _ & _ & Hb & Hconf & _ & _ & Hcc & Hpc & _).
  assert (Hconsumer : field (_kafkaConf f) "consumer"
                      = delete_prop "default_topic_conf" (field kafkaConf "consumer")).
  { rewrite Hconf. rewrite forget_other by reflexivity. apply forget_same. }
  assert (Hproducer : field (_kafkaConf f) "producer"
                      = delete_prop "default_topic_conf" (field kafkaConf "producer")).
  { rewrite Hconf. rewrite forget_same. now rewrite forget_other by reflexivity. }
  assert (Hother : forall k,
             String.eqb k "consumer" = false -> String.eqb k "producer" = false ->
             field (_kafkaConf f) k = field kafkaConf k).
  { intros k H1 H2. rewrite Hconf. now rewrite !forget_other by assumption. }
  assert (Hagain : forget_topic_settings "producer"
                     (forget_topic_settings "consumer" (_kafkaConf f))
                   = _kafkaConf f).
  { rewrite Hconf.
    assert (Hswap : forget_topic_settings "consumer"
                      (forget_topic_settings "producer"
                         (forget_topic_settings "consumer" kafkaConf))
                    = forget_topic_settings "producer"
                        (forget_topic_settings "consumer" kafkaConf)).
    { unfold forget_topic_settings at 1.
      rewrite forget_other by reflexivity. rewrite forget_same, deleted_twice.
      destruct (truthy (delete_prop "default_topic_conf" (field kafkaConf "consumer")))
        eqn:Ht; [|reflexivity].
      apply assoc_set_field.
      assert (Hf : field (forget_topic_settings "producer"
                            (forget_topic_settings "consumer" kafkaConf)) "consumer"
                   = delete_prop "default_topic_conf" (field kafkaConf "consumer")).
      { rewrite forget_other by reflexivity. apply forget_same. }
      unfold field in Hf at 1.
      destruct (assoc "consumer" _) as [v|]; simpl in Hf; [now subst|].
      rewrite <- Hf in Ht. discriminate. }
    rewrite Hswap. apply forget_twice. }
  destruct (constructor (_kafkaConf f)) as [f'| |] eqn:Hnew'.
  2,3: unfold constructor in Hnew';
       rewrite (Hother "metadata_broker_list") in Hnew' by reflexivity;
       rewrite Hb in Hnew'; cbn [negb] in Hnew';
       rewrite !topic_settings_total in Hnew'; discriminate.
  destruct (constructed (_kafkaConf f) f' Hnew')
    as (ct' & pt' & Hct' & Hpt' & _ & Hconf' & Hctc' & Hptc' & Hcc' & Hpc' & _).
  rewrite Hconsumer, deleted_topic in Hct'. injection Hct' as <-.
  rewrite Hproducer, deleted_topic in Hpt'. injection Hpt' as <-.
  exists f'. split; [reflexivity|].
  rewrite Hctc', Hptc', Hcc', Hpc', Hcc, Hpc, Hconf', Hagain.
  rewrite Hconsumer, Hproducer, !deleted_twice.
  rewrite (Hother "metadata_broker_list") by reflexivity.
  unfold KafkaFactory.consumeDC, KafkaFactory.produceDC. simpl.
  rewrite !(Hother "dc_name"), !(Hother "consume_dc"), !(Hother "produce_dc")
    by reflexivity.
  repeat split; reflexivity.
Qed.

Lemma distinct_assoc_set (k : string) (v : value) (fs : list (string * value)) :
  distinct_names (map fst fs) = true ->
  distinct_names (map fst (assoc_set k v fs)) = true.
Proof.
  induction fs as [|[k' v'] fs IH]; [reflexivity|]. simpl.
  intros H. apply andb_true_iff in H as [Hnew Hd].
  destruct (String.eqb k k') eqn:Hk.
  - apply String.eqb_eq in Hk. subst k'. simpl. now rewrite Hnew, Hd.
  - simpl. rewrite (IH Hd), andb_true_r. apply negb_true_iff in Hnew.
    apply negb_true_iff. apply not_true_is_false. intros Hex.
    apply existsb_exists in Hex as (k0 & Hin & Heq).
    apply String.eqb_eq in Heq. subst k0.
    assert (Hin' : In k' (map fst fs)).
    { clear - Hin Hk. induction fs as [|[k1 v1] fs IHfs]; simpl in *.
      - destruct Hin as [->|[]]. now rewrite String.eqb_refl in Hk.
      - destruct (String.eqb k k1) eqn:Hk1; simpl in Hin.
        + apply String.eqb_eq in Hk1. subst k1.
          destruct Hin as [->|Hin]; [now rewrite String.eqb_refl in Hk|now right].
        + destruct Hin as [->|Hin]; [now left|right; now apply IHfs]. }
    assert (Hex : existsb (String.eqb k') (map fst fs) = true); [|congruence].
    apply existsb_exists. exists k'. split; [exact Hin'|apply String.eqb_refl].
Qed.

Lemma distinct_assign (source : value) (target : list (string * value)) :
  distinct_names (map fst target) = true ->
  distinct_names (map fst (assign target source)) = true.
Proof.
  unfold assign. generalize (entries source). intros fs. revert target.
  induction fs as [|[k v] fs IH]; intros target Ht; [exact Ht|].
  simpl. apply IH. now apply distinct_assoc_set.
Qed.

(** The configuration of a consumer.  The consumer that [createConsumer]
    makes for a factory gets the group it is asked for as [group.id] and the
    number drawn as [client.id], whatever the settings say about them, and
    every other setting as the factory has it; it takes the topic settings
    of the factory and subscribes to the one topic.  When the driver reports
    an error on connecting, the promise is rejected with that error. *)
Theorem consumer_gets_group_and_client
    (kafkaConf : list (string * value)) (f : FactorySettings.t)
    (drawn : Z) (err groupId topic : value) :
  constructor kafkaConf = Ok f ->
  (truthy err = true -> createConsumer drawn err f groupId topic = inr err)
  /\ (truthy err = false ->
      exists c,
        createConsumer drawn err f groupId topic = inl c
        /\ field (conf c) "group.id" = groupId
        /\ field (conf c) "client.id" = VStr (string_of_Z drawn)
        /\ (forall k, String.eqb k "group.id" = false ->
                      String.eqb k "client.id" = false ->
                      field (conf c) k = field (_consumerConf f) k)
        /\ field (conf c) "metadata.broker.list"
           = field kafkaConf "metadata_broker_list"
        /\ topicConf c = _consumerTopicConf f
        /\ subscribed c = [[topic]]).
Proof.
  intros Hnew. unfold createConsumer. split; intros Herr; rewrite Herr;
    [reflexivity|].
  destruct (constructed kafkaConf f Hnew)
    as (ct & pt & _ & _ & _ & _ & _ & _ & Hcc & _).
  assert (Hdistinct : distinct_names (map fst (_consumerConf f)) = true).
  { rewrite Hcc. apply distinct_assoc_set. now repeat apply distinct_assign. }
  assert (Hcopy : forall k,
             field (assign [] (VObj (_consumerConf f))) k = field (_consumerConf f) k).
  { intros k. rewrite assign_field by exact Hdistinct. simpl. unfold field.
    now destruct (assoc k (_consumerConf f)). }
  eexists. split; [reflexivity|]. cbn [conf topicConf subscribed].
  split; [|split; [|split; [|split; [|split]]]]; try reflexivity.
  - rewrite field_assoc_set_other by reflexivity. apply field_assoc_set_same.
  - apply field_assoc_set_same.
  - intros k H1 H2. rewrite !field_assoc_set_other by assumption. apply Hcopy.
  - rewrite !field_assoc_set_other by reflexivity. rewrite Hcopy, Hcc.
    apply field_assoc_set_same.
Qed.

End FactorySettingsFacts.

(** ** The purge service *)

Section PurgeFacts.

Import RuleCases PurgeService.

Variable purger_purge : list value -> promise + error.

Local Abbreviation purge := (PurgeService.purge purger_purge).

(** The callback of the map answers with [undefined] and a log entry, or
    with a URL and no entry; when it throws, it throws a TypeError. *)
Lemma convert_cases (event : value) :
  match convert event with
  | Ok (v, written) =>
      (v = VUndef /\ written = [invalid_event event])
      \/ (exists rest, v = VStr ("http://" +:+ rest) /\ written = [])
  | Throw e => exists msg, e = TypeError msg
  | Unmodelled => False
  end.
Proof.
  unfold convert.
  destruct (get_prop event "meta") as [meta| |] eqn:Hmeta; cbn [bind].
  2:{ destruct event; try discriminate; simpl in Hmeta; injection Hmeta as <-; eauto. }
  2:{ destruct event; discriminate. }
  destruct (truthy meta) eqn:Ht; cbn [negb]; [|now left].
  destruct (get_prop meta "uri") as [uri| |] eqn:Huri; cbn [bind].
  2:{ destruct meta; try discriminate; simpl in Huri; injection Huri as <-; eauto. }
  2:{ destruct meta; discriminate. }
  destruct (truthy uri); cbn [negb]; [|now left].
  unfold to_text. destruct (printable uri); cbn [bind]; [|eauto].
  destruct (begins_with_slashes (to_string uri)) eqn:Hb; cbn [negb]; [|now left].
  right. destruct (to_string uri) as [|c1 [|c2 rest]]; try discriminate.
  simpl in Hb. apply andb_true_iff in Hb as [H1 H2].
  apply Ascii.eqb_eq in H1, H2. subst. now exists rest.
Qed.

Lemma convert_all_made (events : list value) (mapped : list value) :
  (convert_all events).2 = Ok mapped ->
  Forall (fun u => exists rest, u = VStr ("http://" +:+ rest))
         (List.filter truthy mapped)
  /\ (length (List.filter truthy mapped) + length (convert_all events).1
      = length events)%nat
  /\ Forall (fun entry => exists event,
                 In event events /\ entry = invalid_event event)
            (convert_all events).1
  /\ forall event v, In event events -> convert event = Ok (v, []) ->
                     In v (List.filter truthy mapped).
Proof.
  revert mapped. induction events as [|event rest IH]; intros mapped H.
  - simpl in H. injection H as <-. simpl. repeat split; try constructor.
    intros event v [].
  - cbn [convert_all] in H |- *. pose proof (convert_cases event) as Hc.
    destruct (convert event) as [[v written]| |] eqn:Hev; try discriminate.
    destruct (convert_all rest) as [log r] eqn:Hrest. cbn [fst snd] in *.
    destruct r as [vs| |]; try discriminate. cbn [bind] in H. injection H as <-.
    destruct (IH vs eq_refl) as (Hurls & Hcount & Hlog & Hin).
    destruct Hc as [[-> ->]|(tail & -> & ->)].
    + cbn [List.filter truthy app length]. repeat split.
      * exact Hurls.
      * lia.
      * constructor; [exists event; split; [now left|reflexivity]|].
        eapply List.Forall_impl; [|exact Hlog].
        intros entry (e & He & ->). exists e. split; [now right|reflexivity].
      * intros e v [<-|He] Hv; [|now apply (Hin e)].
        rewrite Hev in Hv. discriminate.
    + cbn [List.filter truthy app length]. cbn [String.eqb negb].
      repeat split.
      * constructor; [now exists tail|exact Hurls].
      * simpl. lia.
      * eapply List.Forall_impl; [|exact Hlog].
        intros entry (e & He & ->). exists e. split; [now right|reflexivity].
      * intros e v [<-|He] Hv; [|right; now apply (Hin e)].
        rewrite Hev in Hv. injection Hv as <-. now left.
Qed.

Lemma convert_valid (event meta : value) (s : string) :
  get_prop event "meta" = Ok meta ->
  get_prop meta "uri" = Ok (VStr ("//" +:+ s)) ->
  convert event = Ok (VStr ("http://" +:+ s), []).
Proof.
  intros Hmeta Huri. unfold convert. rewrite Hmeta. cbn [bind].
  assert (Ht : truthy meta = true).
  { destruct meta as [| |b|n|s0|items|fs]; try discriminate; try reflexivity;
      simpl in Huri; injection Huri as Huri; discriminate. }
  rewrite Ht, Huri. reflexivity.
Qed.

(** What is purged.  When the body of the request is an array and the
    purger is reached, every URL handed to it begins with [http://]; each
    event either gave one URL or one log entry; the entries logged are those
    of events of the request; an event whose [meta.uri] is a string that
    begins with two slashes is purged under [http:] and that string; and the
    call answers with status 201 when the purger's promise is fulfilled. *)
Theorem purged_urls_are_http
    (req : value) (events urls : list value) :
  get_prop req "body" = Ok (VArr events) ->
  purged (purge req) = Some urls ->
  Forall (fun u => exists rest, u = VStr ("http://" +:+ rest)) urls
  /\ (length urls + length (logged (purge req)) = length events)%nat
  /\ Forall (fun entry => exists event,
                 In event events /\ entry = invalid_event event)
            (logged (purge req))
  /\ (forall event meta s,
        In event events ->
        get_prop event "meta" = Ok meta ->
        get_prop meta "uri" = Ok (VStr ("//" +:+ s)) ->
        In (VStr ("http://" +:+ s)) urls)
  /\ (forall v, purger_purge urls = inl (Fulfilled v) ->
                answer (purge req) = Ok (Fulfilled (VObj [("status", VNum 201)])))
  /\ (forall e, purger_purge urls = inl (RejectedWith e) ->
                answer (purge req) = Ok (RejectedWith e)).
Proof.
  intros Hbody. unfold PurgeService.purge. rewrite Hbody.
  pose proof (convert_all_made events) as Hmade.
  destruct (convert_all events) as [log r]. cbn [fst snd] in Hmade.
  destruct r as [mapped| |]; try discriminate.
  cbn [purged logged answer]. intros H. injection H as <-.
  destruct (Hmade mapped eq_refl) as (Hurls & Hcount & Hlog & Hin).
  repeat split; try assumption.
  - intros event meta s He Hmeta Huri.
    apply (Hin event); [exact He|]. now apply (convert_valid event meta).
  - intros v ->. reflexivity.
  - intros e ->. reflexivity.
Qed.

Lemma convert_all_throws (events : list value) (event : value) :
  In event events -> is_nullish event = true ->
  exists msg, (convert_all events).2 = Throw (TypeError msg).
Proof.
  intros Hin Hnull. induction events as [|first rest IH]; [contradiction|].
  cbn [convert_all]. pose proof (convert_cases first) as Hc.
  destruct (convert first) as [[v written]| |] eqn:Hev.
  - destruct Hin as [->|Hin].
    { destruct event; discriminate. }
    destruct (IH Hin) as [msg Hmsg].
    destruct (convert_all rest) as [log r]. cbn [snd] in *. rewrite Hmsg. eauto.
  - destruct Hc as [msg ->]. eauto.
  - contradiction.
Qed.

(** What is not purged.  A request whose body is not an array is answered
    with the error of status 400, and a request with an event that is
    [null] or [undefined] with a TypeError; in both cases nothing is handed
    to the purger, and in the first nothing is logged. *)
Theorem purge_refuses_unreadable_requests (req : value) :
  (forall body,
      get_prop req "body" = Ok body -> (forall items, body <> VArr items) ->
      purge req = {| logged := []; purged := None; answer := Throw bad_request |})
  /\ (forall events event,
        get_prop req "body" = Ok (VArr events) ->
        In event events -> is_nullish event = true ->
        purged (purge req) = None
        /\ exists msg, answer (purge req) = Throw (TypeError msg)).
Proof.
  split.
  - intros body Hbody Hnot. unfold PurgeService.purge. rewrite Hbody.
    destruct body; try reflexivity. now elim (Hnot items).
  - intros events event Hbody Hin Hnull. unfold PurgeService.purge. rewrite Hbody.
    destruct (convert_all_throws events event Hin Hnull) as [msg Hmsg].
    destruct (convert_all events) as [log r]. cbn [snd] in Hmsg. subst r.
    split; [reflexivity|]. now exists msg.
Qed.

(** The service needs a host and a port.  The constructor returns a
    service, whose purger has the options as its one route, exactly when the
    options are given and have a true [host] and a true [port]; the port 0
    counts as missing.  Otherwise it throws. *)
Lemma purge_service_needs_host_and_port (options : value) :
  PurgeService.new options
  = if truthy options
       && truthy (MatchMeaning.prop options "host")
       && truthy (MatchMeaning.prop options "port")
    then Ok {| PurgeService.options := options; routes := [options] |}
    else Throw (Error "Purging module must be configured with host and port").
Proof.
  unfold PurgeService.new, js_or, MatchMeaning.prop.
  destruct (truthy options) eqn:Ht; [|reflexivity].
  destruct options; try discriminate; cbn [get_prop bind andb];
    match goal with
    | |- context [truthy ?h && truthy ?p] =>
        destruct (truthy h), (truthy p); reflexivity
    end.
Qed.

End PurgeFacts.

(** ** The binder of a regular expression with named groups *)

Section NamedGroupFacts.

Import RetryCondition Matcher Facts MatchMeaning Exact.

Variable regex_exec : string -> string -> option (list (option string)).

Local Abbreviation eval := (Matcher.eval regex_exec).

Lemma captures_other (execRes : list (option string)) (name : string)
    (entries : list (nat * string)) (acc : list (string * value)) :
  existsb (String.eqb name) (map snd entries) = false ->
  field (fold_left
           (fun res entry =>
              assoc_set entry.2 (capture_value (nth (S entry.1) execRes None)) res)
           entries acc) name
  = field acc name.
Proof.
  revert acc. induction entries as [|[j n] rest IH]; intros acc H; [reflexivity|].
  simpl in H. apply orb_false_iff in H as [Hn Hrest].
  cbn [fold_left fst snd]. rewrite (IH _ Hrest).
  now apply field_assoc_set_other.
Qed.

Lemma imap_names {A} (f : nat -> string -> A * string) (names : list string) :
  (forall j n, (f j n).2 = n) -> map snd (imap f names) = names.
Proof.
  revert f. induction names as [|n rest IH]; intros f Hf; [reflexivity|].
  simpl. rewrite Hf. f_equal. apply IH. intros j m. apply Hf.
Qed.

Lemma captures_field (execRes : list (option string)) (names : list string) :
  forall (f : nat -> nat) (acc : list (string * value)) (name : string) (i : nat),
    distinct_names names = true ->
    nth_error names i = Some name ->
    field (fold_left
             (fun res entry =>
                assoc_set entry.2 (capture_value (nth (S entry.1) execRes None)) res)
             (imap (fun j n => (f j, n)) names) acc) name
    = capture_value (nth (S (f i)) execRes None).
Proof.
  induction names as [|n rest IH]; intros f acc name i Hd Hi;
    [destruct i; discriminate|].
  simpl in Hd. apply andb_true_iff in Hd as [Hnew Hd]. apply negb_true_iff in Hnew.
  cbn [imap fold_left fst snd]. destruct i as [|i]; simpl in Hi.
  - injection Hi as ->. rewrite captures_other.
    + apply field_assoc_set_same.
    + rewrite imap_names; [exact Hnew|reflexivity].
  - exact (IH (fun j => f (S j)) _ name i Hd Hi).
Qed.

(** The parts of a compiled tree of one field that is a regular expression
    with named groups. *)
Lemma named_regex_compiled (key s : string) (m : matcher) :
  _processMatch (VObj [(key, VStr s)]) = Ok (Some m) ->
  is_regex_string s = true ->
  (replace_markers 0 (list_ascii_of_string s)).1 <> [] ->
  let names := (replace_markers 0 (list_ascii_of_string s)).1 in
  let normal := string_of_list_ascii (replace_markers 0 (list_ascii_of_string s)).2 in
  test m = Code (Test normal (Get (Var "message") key))
  /\ expand m = Object [(key, Captures normal names (Get (Var "message") key))].
Proof.
  intros Hm Hregex Hnames names normal. subst names normal.
  unfold _processMatch in Hm. cbn [truthy negb _compileMatch assoc] in Hm.
  destruct (String.eqb "constructor" key); [discriminate|].
  cbn [given compile_fields] in Hm.
  destruct (negb (quotable "'" key)); [discriminate|].
  cbn [_compileMatch] in Hm.
  destruct (String.eqb s "undefined") eqn:Hu.
  { apply String.eqb_eq in Hu. subst s. discriminate. }
  rewrite Hregex in Hm. cbn [negb] in Hm. unfold _compileNamedRegex in Hm.
  destruct (replace_markers 0 (list_ascii_of_string s)) as [captureNames normal].
  cbn [fst snd] in *.
  destruct (numGroups_of normal) as [numGroups|]; [|discriminate].
  destruct (negb (Nat.eqb (length captureNames) 0)
            && negb (Nat.eqb (length captureNames) numGroups)); [discriminate|].
  destruct (negb (literal_closed normal)); [discriminate|].
  destruct captureNames as [|n0 rest]; [contradiction|].
  cbn [bind fst snd store property_key assoc_set compile_fields] in Hm.
  rewrite join_and_single in Hm.
  destruct (flags_distinct normal); [|discriminate].
  cbn [_getMatchObjCode fields_code] in Hm.
  destruct (negb (is_identifier key)); [discriminate|].
  cbn [bind _getMatchObjCode] in Hm.
  injection Hm as <-. split; reflexivity.
Qed.

Lemma eval_message_field (ev : list (string * value)) (key : string) :
  eval [("message", VObj ev)] (Get (Var "message") key) = Ok (field ev key).
Proof. reflexivity. Qed.

Lemma eval_captures (env : list (string * value)) (regex : string)
    (names : list string) (e : expr) (v : value) :
  eval env e = Ok v ->
  eval env (Captures regex names e)
  = match regex_exec regex (to_string v) with
    | Some execRes => Ok (captures_object names execRes)
    | None =>
        match names with
        | [] => Ok (VObj [])
        | _ => Throw (TypeError "Cannot read property '1' of null")
        end
    end.
Proof. intros H. simpl. now rewrite H. Qed.

Lemma eval_object_one (env : list (string * value)) (key : string) (e : expr) :
  eval env (Object [(key, e)])
  = let* v := eval env e in Ok (VObj [(key, v)]).
Proof. simpl. now destruct (Matcher.eval regex_exec env e). Qed.

Lemma eval_test (env : list (string * value)) (regex : string) (e : expr)
    (v : value) :
  eval env e = Ok v ->
  eval env (Test regex e)
  = Ok (VBool (match regex_exec regex (to_string v) with
               | Some _ => true
               | None => false
               end)).
Proof. intros H. simpl. now rewrite H. Qed.



Lemma eval_exec (env : list (string * value)) (regex : string) (e : expr)
    (v : value) :
  eval env e = Ok v ->
  eval env (Exec regex e)
  = Ok (match regex_exec regex (to_string v) with
        | Some execRes => VArr (map capture_value execRes)
        | None => VNull
        end).
Proof. intros H. simpl. now rewrite H. Qed.


Lemma compile_fields_parts (name : expr) (fs : list (string * value)) :
  forall acc parts acc',
    compile_fields _compileMatch name fs acc = Ok (parts, acc') ->
    Forall2 (fun kv t => exists r r',
                 _compileMatch kv.2 r (Get name kv.1) (Key kv.1) = Ok (t, r'))
            fs parts.
Proof.
  induction fs as [|[key sub] fs IH]; intros acc parts acc' Hc; simpl in Hc.
  - injection Hc as <- _. constructor.
  - destruct (negb (quotable "'" key)); [discriminate|].
    destruct (_compileMatch sub acc (Get name key) (Key key)) as [[t1 r1]| |] eqn:H1;
      try discriminate.
    cbn [bind fst snd] in Hc.
    destruct (compile_fields _compileMatch name fs r1) as [[ts r2]| |] eqn:H2;
      try discriminate.
    cbn [bind fst snd] in Hc. injection Hc as <- _.
    constructor; [simpl; eauto|exact (IH r1 ts r2 H2)].
Qed.

Lemma join_and_with_empty (parts : list text) :
  In Empty parts -> (2 <= length parts)%nat -> join_and parts = Malformed.
Proof.
  intros Hin Hlen. destruct parts as [|t [|t' rest]]; try (simpl in Hlen; lia).
  rewrite join_and_many. destruct t as [|e|]; try reflexivity.
  destruct Hin as [Hin|Hin]; [discriminate|].
  assert (Hcode : forallb is_code (t' :: rest) = false); [|now rewrite Hcode].
  apply not_true_is_false. intros Hall. rewrite forallb_forall in Hall.
  specialize (Hall Empty Hin). discriminate.
Qed.


End NamedGroupFacts.

(** ** The further properties at sample inputs *)

Section FurtherSamples.

Import RetryCondition Matcher Facts RuleCases MatchMeaning Samples.

Lemma stored_promises_are_unsettled_witness :
  GuaranteedProducer.promises producer_with_k_in_flight !! 0%nat
  = Some GuaranteedProducer.Pending.
Proof.
  assert (Hreach : ProducerRun.reachable producer_with_k_in_flight).
  { apply (ProducerRun.reachable_step
             (ProducerRun.Produce (VStr "t") (VNum 0) (VStr "m") (VStr "k")
                (inl (VBool true)))
             GuaranteedProducer.new).
    - apply ProducerRun.reachable_new.
    - reflexivity. }
  apply (proj1 (stored_promises_are_unsettled producer_with_k_in_flight Hreach) "t:k").
  vm_compute. reflexivity.
Defined.

Lemma refused_produce_is_rejected_witness :
  GuaranteedProducer.promises
    (ProducerRun.drain
       (GuaranteedProducer.produce (fun _ _ _ _ => inl (VBool true))
          (VStr "t") (VNum 0) (VStr "m") (VStr "") GuaranteedProducer.new).1)
  !! (GuaranteedProducer.produce (fun _ _ _ _ => inl (VBool true))
        (VStr "t") (VNum 0) (VStr "m") (VStr "") GuaranteedProducer.new).2
  = Some (GuaranteedProducer.Rejected
            (Error "Key is required for guaranteed delivery")).
Proof.
  destruct (refused_produce_is_rejected
              (VStr "t") (VNum 0) (VStr "m") (VStr "") (inl (VBool true))
              (Error "Key is required for guaranteed delivery")
              GuaranteedProducer.new ProducerRun.reachable_new eq_refl)
    as (_ & H & _).
  exact H.
Defined.

Lemma delivered_message_round_trip_witness :
  exists after,
    GuaranteedProducer.on_delivery_report report_t_k
      (GuaranteedProducer.produce accepting
         (VStr "t") (VNum 0) (VStr "m") (VStr "k") GuaranteedProducer.new).1
    = Ok after
    /\ GuaranteedProducer._pending after
       = GuaranteedProducer._pending GuaranteedProducer.new.
Proof.
  destruct (delivered_message_round_trip accepting
              (VStr "t") (VNum 0) (VStr "m") (VStr "k") report_t_k
              GuaranteedProducer.new)
    as (after & H1 & _ & H2 & _).
  - reflexivity.
  - reflexivity.
  - reflexivity.
  - exists (VStr "t"), (VStr "k"). repeat split; reflexivity.
  - exists after. split; assumption.
Defined.

Lemma test_answer_selects_an_option_witness :
  (0 = -1
   /\ (exists msg, Rule.getExec sample_rule 0 = Throw (TypeError msg))
   /\ (exists msg, Rule.expand_ sample_engine sample_rule 0 sample_event
                   = Throw (TypeError msg)))
  \/ (0 <= 0
      /\ exists o,
           nth_error (Rule._options sample_rule) (Z.to_nat 0) = Some o
           /\ fires sample_engine o sample_event
           /\ Rule.getExec sample_rule 0 = Ok (Rule.exec o)).
Proof.
  apply (test_answer_selects_an_option sample_engine sample_rule sample_event 0).
  reflexivity.
Defined.

Lemma case_without_match_takes_everything_witness :
  Rule.test sample_engine (rule_of "open" open_spec) sample_event = Ok 0
  /\ Rule.expand_ sample_engine (rule_of "open" open_spec) 0 sample_event
     = Ok (VObj []).
Proof.
  apply (case_without_match_takes_everything sample_stringify sample_engine
           "open" open_spec (rule_of "open" open_spec) 0 open_spec VUndef VUndef
           sample_event); reflexivity.
Defined.

Lemma case_with_empty_match_takes_nothing_witness :
  Rule.test sample_engine (rule_of "empty" empty_match_spec) sample_event
  <> Ok (Z.of_nat 0).
Proof.
  apply (case_with_empty_match_takes_nothing sample_stringify sample_engine
           "empty" empty_match_spec (rule_of "empty" empty_match_spec) 0
           empty_match_spec sample_event); reflexivity.
Defined.

Lemma rule_is_noop_when_a_case_has_no_exec_witness :
  Rule.noop (rule_of "cases" cases_spec) = true
  <-> exists c e, In c (given_cases cases_spec)
                  /\ get_prop c "exec" = Ok e /\ truthy e = false.
Proof.
  apply (rule_is_noop_when_a_case_has_no_exec sample_stringify
           "cases" cases_spec (rule_of "cases" cases_spec)).
  reflexivity.
Defined.



Lemma predicate_of_constants_is_strict_equality_witness :
  exists r,
    call sample_engine (test (matcher_of constants_tree)) constants_event = Ok r
    /\ truthy r = matches constants_tree constants_event.
Proof.
  apply (predicate_of_constants_is_strict_equality sample_engine
           constants_tree (matcher_of constants_tree) constants_event);
    reflexivity.
Defined.

Lemma binder_of_constants_returns_the_tree_witness :
  exists v,
    kept constants_tree = Some v
    /\ Matcher.eval sample_engine [("message", constants_event)]
         (expand (matcher_of constants_tree)) = Ok v.
Proof.
  apply (binder_of_constants_returns_the_tree sample_engine
           (Rule.own_fields constants_tree) (matcher_of constants_tree)
           constants_event); reflexivity.
Defined.

Lemma settings_precedence_witness :
  field (FactorySettings._consumerConf factory) "metadata.broker.list"
  = VStr "localhost:9092"
  /\ assoc "default_topic_conf" (FactorySettings._consumerConf factory) = None.
Proof.
  destruct (settings_precedence kafka_conf factory)
    as (_ & H1 & _ & H2 & _); try reflexivity.
  split; assumption.
Defined.

Lemma second_factory_has_default_topic_settings_witness :
  exists f',
    FactorySettings.constructor (FactorySettings._kafkaConf factory) = Ok f'
    /\ FactorySettings._consumerTopicConf f'
       = FactorySettings.CONSUMER_TOPIC_DEFAULTS.
Proof.
  destruct (second_factory_has_default_topic_settings kafka_conf factory eq_refl)
    as (f' & H1 & H2 & _).
  exists f'. split; assumption.
Defined.

Lemma consumer_gets_group_and_client_witness :
  FactorySettings.createConsumer 42 (VStr "broker down") factory
    (VStr "group") (VStr "topic")
  = inr (VStr "broker down").
Proof.
  apply (consumer_gets_group_and_client kafka_conf factory 42
           (VStr "broker down") (VStr "group") (VStr "topic") eq_refl).
  reflexivity.
Defined.

Lemma purged_urls_are_http_witness :
  (length [VStr "http://en.wikipedia.org/wiki/Main_Page"]
   + length (PurgeService.logged (PurgeService.purge purging purge_request))
   = length purge_events)%nat.
Proof.
  apply (purged_urls_are_http purging purge_request purge_events
           [VStr "http://en.wikipedia.org/wiki/Main_Page"]); reflexivity.
Defined.





End FurtherSamples.
